(** * Feedback_Impact_bot: the questionnaire life cycle of [feedback_bot.py]

    A shallow embedding of the class [FeedbackBot]: the two SQLite tables,
    the three background loops (one iteration of each), the callback
    handler, and the calls to the two collaborators (Notion and Telegram).

    - Responses of the collaborators are JSON trees; every subscript the
      source writes is a subscript here and raises what Python raises.
    - The bot is a function of a [world] (tables, call counter, log of
      what it did) in an exception monad; a raise keeps the world reached
      so far, as every write in the source is committed where it is made.
    - The collaborators are an environment: the reply to the n-th call. *)

From Stdlib Require Import ZArith String Ascii List Bool Lia.
From Stdlib Require Import DecimalString DecimalZ DecimalPos.
Import ListNotations.
Open Scope string_scope.
Open Scope Z_scope.

Set Warnings "-register-all".

(** ** Python values and builtins *)

(** What [response.json()] hands to the bot.  Numbers are the integers;
    [null], booleans and fractions are left out of the responses. *)
Inductive json : Type :=
| JStr (s : string)
| JNum (n : Z)
| JArr (items : list json)
| JObj (members : list (string * json)).

Inductive exn : Type :=
| KeyError | IndexError | TypeError | ValueError | AttributeError
| IntegrityError | ProgrammingError | OverflowError | ClientError.

Inductive outcome (A : Type) : Type :=
| Ret (a : A)
| Raise (e : exn).
Arguments Ret {A} a.
Arguments Raise {A} e.

(** ** Text

    A Python [str] is held as the bytes of its UTF-8 encoding (a lone
    surrogate with the three bytes of its number).  What the code does
    with a text by characters ([str.strip], [int], a [for] loop, [s[0]])
    goes by code points: [unicode] cuts a text into its characters, each
    with its code point and its bytes.  A byte that begins no well-formed
    sequence encodes no character of any [str]; it is taken for a character
    of its own, which is neither white space nor a digit. *)

Definition continuation (c : ascii) : option N :=
  let n := N_of_ascii c in
  if ((128 <=? n) && (n <? 192))%N then Some (n - 128)%N else None.

Fixpoint unicode (s : string) : list (N * string) :=
  match s with
  | "" => []
  | String a s1 =>
      let n := N_of_ascii a in
      let alone := ((if n <? 128 then n else 56320 + n)%N, String a "") :: unicode s1 in
      if (n <? 128)%N then alone
      else
        match s1 with
        | String b s2 =>
            match continuation b with
            | Some nb =>
                if ((194 <=? n) && (n <? 224))%N then
                  (((n - 192) * 64 + nb)%N, String a (String b "")) :: unicode s2
                else
                  match s2 with
                  | String c s3 =>
                      match continuation c with
                      | Some nc =>
                          let three := (((n - 224) * 64 + nb) * 64 + nc)%N in
                          if ((224 <=? n) && (n <? 240) && (2048 <=? three))%N then
                            (three, String a (String b (String c ""))) :: unicode s3
                          else
                            match s3 with
                            | String d s4 =>
                                match continuation d with
                                | Some nd =>
                                    let four :=
                                      ((((n - 240) * 64 + nb) * 64 + nc) * 64 + nd)%N in
                                    if ((240 <=? n) && (n <? 245) && (65536 <=? four)
                                        && (four <? 1114112))%N then
                                      (four, String a (String b (String c (String d ""))))
                                        :: unicode s4
                                    else alone
                                | None => alone
                                end
                            | "" => alone
                            end
                      | None => alone
                      end
                  | "" => alone
                  end
            | None => alone
            end
        | "" => alone
        end
  end.

(** The text made of the characters [l]. *)
Definition spell (l : list (N * string)) : string := String.concat "" (map snd l).

(** [str.isspace] of one character (CPython's [Py_UNICODE_ISSPACE]). *)
Definition is_space (c : N) : bool :=
  ((9 <=? c) && (c <=? 13) || (28 <=? c) && (c <=? 32) || (c =? 133) || (c =? 160)
   || (c =? 5760) || (8192 <=? c) && (c <=? 8202) || (c =? 8232) || (c =? 8233)
   || (c =? 8239) || (c =? 8287) || (c =? 12288))%N.

Fixpoint lstrip {A} (space : A -> bool) (l : list A) : list A :=
  match l with
  | x :: tl => if space x then lstrip space tl else l
  | [] => []
  end.

Definition rstrip {A} (space : A -> bool) (l : list A) : list A :=
  rev (lstrip space (rev l)).

(** [str.strip()]. *)
Definition strip (s : string) : string :=
  spell (rstrip (fun x => is_space (fst x)) (lstrip (fun x => is_space (fst x)) (unicode s))).

(** The characters with the property Decimal come in runs of ten, from a
    zero to a nine; these are the zeros of Unicode 14.0, the version that
    CPython 3.11 carries. *)
Definition decimal_zeros : list N :=
  [ 48; 1632; 1776; 1984; 2406; 2534; 2662; 2790; 2918; 3046; 3174; 3302;
    3430; 3558; 3664; 3792; 3872; 4160; 4240; 6112; 6160; 6470; 6608; 6784;
    6800; 6992; 7088; 7232; 7248; 42528; 43216; 43264; 43472; 43504; 43600;
    44016; 65296; 66720; 68912; 69734; 69872; 69942; 70096; 70384; 70736;
    70864; 71248; 71360; 71472; 71904; 72016; 72784; 73040; 73120; 92768;
    92864; 93008; 120782; 120792; 120802; 120812; 120822; 123200; 123632;
    125264; 130032 ]%N.

(** The value of a decimal digit of any script ([Py_UNICODE_TODECIMAL]). *)
Definition decimal (c : N) : option Z :=
  match find (fun z => (z <=? c) && (c <=? z + 9))%N decimal_zeros with
  | Some z => Some (Z.of_N (c - z))
  | None => None
  end.

(** The white space [int] passes over at both ends: every white space
    outside ASCII, and tab, line feed, vertical tab, form feed, carriage
    return and space of ASCII (not the separators 28 to 31). *)
Definition int_space (c : N) : bool :=
  is_space c && negb ((28 <=? c) && (c <=? 31))%N.

(** Decimal digits, single underscores allowed between two digits. *)
Fixpoint digits (acc : Z) (after_digit : bool) (l : list N) : option Z :=
  match l with
  | [] => if after_digit then Some acc else None
  | c :: tl =>
      match decimal c with
      | Some d => digits (10 * acc + d) true tl
      | None => if (c =? 95)%N && after_digit then digits acc false tl else None
      end
  end.

(** [int(s)] for a text [s]: [None] is [ValueError].  The limit that
    [sys.int_max_str_digits] puts on the number of digits is left out. *)
Definition py_int (s : string) : option Z :=
  match rstrip int_space (lstrip int_space (map fst (unicode s))) with
  | 45%N :: t => option_map Z.opp (digits 0 false t)
  | 43%N :: t => digits 0 false t
  | t => digits 0 false t
  end.

(** ** Python values and builtins, continued *)

Definition obind {A B} (o : outcome A) (k : A -> outcome B) : outcome B :=
  match o with
  | Ret a => k a
  | Raise e => Raise e
  end.

Fixpoint assoc {A} (k : string) (l : list (string * A)) : option A :=
  match l with
  | [] => None
  | (k', v) :: tl => if String.eqb k k' then Some v else assoc k tl
  end.

(** [j[k]] for a string [k]. *)
Definition subscript (j : json) (k : string) : outcome json :=
  match j with
  | JObj m => match assoc k m with Some v => Ret v | None => Raise KeyError end
  | _ => Raise TypeError
  end.

(** [j[0]]. *)
Definition first (j : json) : outcome json :=
  match j with
  | JArr (x :: _) => Ret x
  | JArr [] => Raise IndexError
  | JStr s =>
      match unicode s with
      | x :: _ => Ret (JStr (snd x))
      | [] => Raise IndexError
      end
  | JObj _ => Raise KeyError
  | JNum _ => Raise TypeError
  end.

Inductive selector : Type :=
| K (key : string)
| At0.

Fixpoint path (sel : list selector) (j : json) : outcome json :=
  match sel with
  | [] => Ret j
  | K k :: tl => obind (subscript j k) (path tl)
  | At0 :: tl => obind (first j) (path tl)
  end.

(** [j.get(k, default)]. *)
Definition py_get (j : json) (k : string) (default : json) : outcome json :=
  match j with
  | JObj m => Ret (match assoc k m with Some v => v | None => default end)
  | _ => Raise AttributeError
  end.

(** [''.join(l)]. *)
Fixpoint join (l : list json) : outcome string :=
  match l with
  | [] => Ret ""
  | JStr s :: tl => obind (join tl) (fun t => Ret (s ++ t))
  | _ :: _ => Raise TypeError
  end.

(** [[f(x) for x in l]]. *)
Fixpoint comprehension {A B} (f : A -> outcome B) (l : list A) : outcome (list B) :=
  match l with
  | [] => Ret []
  | x :: tl => obind (f x) (fun y => obind (comprehension f tl) (fun ys => Ret (y :: ys)))
  end.

Definition truthy (j : json) : bool :=
  match j with
  | JStr "" | JNum 0 | JArr [] | JObj [] => false
  | _ => true
  end.

Definition is_str (s : string) (j : json) : bool :=
  match j with
  | JStr t => String.eqb s t
  | _ => false
  end.

Fixpoint is_infix (s t : string) : bool :=
  String.prefix s t ||
  match t with
  | "" => false
  | String _ t' => is_infix s t'
  end.

(** [s in j] for a string [s]. *)
Definition py_in (s : string) (j : json) : outcome bool :=
  match j with
  | JObj m => Ret (match assoc s m with Some _ => true | None => false end)
  | JArr l => Ret (existsb (is_str s) l)
  | JStr t => Ret (is_infix s t)
  | JNum _ => Raise TypeError
  end.

(** The characters of a text, each a text of its own. *)
Definition chars (s : string) : list json := map (fun x => JStr (snd x)) (unicode s).

(** The items a [for] loop over [j] visits. *)
Definition py_iter (j : json) : outcome (list json) :=
  match j with
  | JArr l => Ret l
  | JObj m => Ret (map (fun kv => JStr (fst kv)) m)
  | JStr s => Ret (chars s)
  | JNum _ => Raise TypeError
  end.

Definition py_len (j : json) : outcome Z :=
  obind (py_iter j) (fun l => Ret (Z.of_nat (List.length l))).

Definition str_of_int (n : Z) : string := NilZero.string_of_int (Z.to_int n).

(** [str.split(',')]. *)
Fixpoint split_comma (s : string) : list string :=
  match s with
  | "" => [""]
  | String c s' =>
      if Ascii.eqb c "," then "" :: split_comma s'
      else match split_comma s' with
           | h :: t => String c h :: t
           | [] => [String c ""]
           end
  end.

(** The text SQLite stores in a TEXT column for a value bound to a
    statement: a string as it is, an integer of 64 bits as its decimal text;
    nothing else can be bound. *)
Definition text_of (j : json) : option string :=
  match j with
  | JStr s => Some s
  | JNum n =>
      if (- 2 ^ 63 <=? n) && (n <? 2 ^ 63) then Some (str_of_int n) else None
  | _ => None
  end.

Definition bind_error (j : json) : exn :=
  match j with
  | JNum _ => OverflowError
  | _ => ProgrammingError
  end.

(** ** The dictionary of answers and its JSON text *)

(** A key of a Python dictionary: [1] and ['1'] are different keys. *)
Inductive pykey : Type :=
| KInt (n : Z)
| KStr (s : string).

Definition pykey_eqb (a b : pykey) : bool :=
  match a, b with
  | KInt m, KInt n => Z.eqb m n
  | KStr s, KStr t => String.eqb s t
  | _, _ => false
  end.

(** A dictionary in insertion order, each key once. *)
Definition pydict : Type := list (pykey * Z).

Fixpoint dict_get (k : pykey) (d : pydict) : option Z :=
  match d with
  | [] => None
  | (k', v) :: tl => if pykey_eqb k k' then Some v else dict_get k tl
  end.

(** [d[k] = v]: a key that is present keeps its place. *)
Fixpoint dict_set (k : pykey) (v : Z) (d : pydict) : pydict :=
  match d with
  | [] => [(k, v)]
  | (k', v') :: tl =>
      if pykey_eqb k k' then (k', v) :: tl else (k', v') :: dict_set k v tl
  end.

(** The text of a JSON object of integers, as the sequence of its
    members: ['{"1": 5, "2": 4}'] is [[("1", 5); ("2", 4)]], ['{}'] is [[]].
    A text may repeat a key. *)
Definition json_text : Type := list (string * Z).

Definition key_text (k : pykey) : string :=
  match k with
  | KInt n => str_of_int n
  | KStr s => s
  end.

(** [json.dumps]: integer keys are written as their decimal text. *)
Definition json_dumps (d : pydict) : json_text :=
  map (fun kv => (key_text (fst kv), snd kv)) d.

(** [json.loads]: every key is a string, a repeated key keeps its last value. *)
Definition json_loads (t : json_text) : pydict :=
  fold_left (fun d kv => dict_set (KStr (fst kv)) (snd kv) d) t [].

(** ** The two tables *)

Inductive status : Type := pending | in_progress | completed.

Definition status_eqb (a b : status) : bool :=
  match a, b with
  | pending, pending | in_progress, in_progress | completed, completed => true
  | _, _ => false
  end.

(** A row of [questionnaires]; [last_message_id] is [None] for NULL.  The
    three texts the code writes to [status] are the three constructors.

    A table is the list of its rows in the order in which a query yields
    them: SQL leaves that order open, the embedding takes one order for every
    query, and an INSERT puts the new row at the end.  [fetchone] is [find]
    on that list. *)
Record questionnaire : Type := mkQuestionnaire {
  chat_id : string;
  meeting_id : string;
  meeting_name : string;
  student_id : string;
  q_status : status;
  current_question : Z;
  answers : json_text;
  last_message_id : option string;
  created_at : string
}.

Definition has_key (c m : string) (r : questionnaire) : bool :=
  String.eqb (chat_id r) c && String.eqb (meeting_id r) m.

Definition has_status (c : string) (s : status) (r : questionnaire) : bool :=
  String.eqb (chat_id r) c && status_eqb (q_status r) s.

(** [UPDATE questionnaires SET ... WHERE chat_id = ? AND meeting_id = ?]. *)
Definition update_where (c m : string) (f : questionnaire -> questionnaire)
    (rows : list questionnaire) : list questionnaire :=
  map (fun r => if has_key c m r then f r else r) rows.

Definition set_last_message_id (v : string) (r : questionnaire) : questionnaire :=
  mkQuestionnaire (chat_id r) (meeting_id r) (meeting_name r) (student_id r)
    (q_status r) (current_question r) (answers r) (Some v) (created_at r).

Definition set_status (s : status) (cq : Z) (r : questionnaire) : questionnaire :=
  mkQuestionnaire (chat_id r) (meeting_id r) (meeting_name r) (student_id r)
    s cq (answers r) (last_message_id r) (created_at r).

Definition set_answers (a : json_text) (cq : Z) (r : questionnaire) : questionnaire :=
  mkQuestionnaire (chat_id r) (meeting_id r) (meeting_name r) (student_id r)
    (q_status r) cq a (last_message_id r) (created_at r).

Definition set_completed (a : json_text) (cq : Z) (r : questionnaire) : questionnaire :=
  mkQuestionnaire (chat_id r) (meeting_id r) (meeting_name r) (student_id r)
    completed cq a (last_message_id r) (created_at r).

(** ** What the bot does to the outside *)

(** One row of inline buttons: text and callback data of each. *)
Definition keyboard : Type := list (string * string).

Record feedback_data : Type := mkFeedback {
  fb_meeting : string;
  fb_student : string;
  fb_productivity : Z;
  fb_response_speed : Z;
  fb_plan_understanding : Z;
  fb_expertise : Z;
  fb_effectiveness : Z;
  fb_filler_name : string;
  fb_date : string;
  fb_meeting_name : string;
  fb_tg_chat_id : string
}.

Inductive call : Type :=
| QueryMeetings
| GetPage (page_id : string)
| SendMessage (chat : json) (text : string) (kb : option keyboard)
| EditMessage (chat : string) (message_id : json) (text : string)
    (kb : option keyboard)
| DeleteMessage (chat : string) (message_id : string)
| CreatePage (fb : feedback_data)
| PatchPage (page_id : string)
| GetUpdates (offset : Z).

Inductive statement : Type :=
| InsertQuestionnaire (r : questionnaire)
| UpdateLastMessage (c m v : string)
| InsertProcessed (m : string)
| UpdateStatus (c m : string) (s : status) (cq : Z)
| UpdateAnswers (c m : string) (a : json_text) (cq : Z)
| UpdateCompleted (c m : string) (a : json_text) (cq : Z).

(** The log: calls with the reply received ([None]: the call raised),
    statements executed, and errors a loop caught. *)
Inductive event : Type :=
| Called (c : call) (reply : option json)
| Executed (s : statement)
| Caught (e : exn).

(** What the bot stands on: the two tables, the [offset] variable of
    [run_telegram_polling], the number of calls made to the outside so far,
    and the log. *)
Record world : Type := mkWorld {
  questionnaires : list questionnaire;
  processed_meetings : list string;
  offset : Z;
  tick : nat;
  log : list event
}.

(** The outside: the reply to the call made at each tick ([None]: the call
    raises), the clock at each tick, and [repr] of a list or a dictionary,
    which the source leaves to Python. *)
Record env : Type := mkEnv {
  reply_at : nat -> option json;
  now_at : nat -> string;
  repr : json -> string
}.

(** ** The monad of the bot *)

Definition M (A : Type) : Type := world -> outcome A * world.

Definition ret {A} (a : A) : M A := fun w => (Ret a, w).

Definition raise {A} (e : exn) : M A := fun w => (Raise e, w).

Definition bind {A B} (c : M A) (k : A -> M B) : M B :=
  fun w =>
    match c w with
    | (Ret a, w') => k a w'
    | (Raise e, w') => (Raise e, w')
    end.

Notation "x <- c ;; k" := (bind c (fun x => k))
  (at level 61, c at next level, right associativity).
Notation "c ;;; k" := (bind c (fun _ => k))
  (at level 61, right associativity).

Definition lift {A} (o : outcome A) : M A := fun w => (o, w).

Definition record (e : event) : M unit :=
  fun w => (Ret tt, mkWorld (questionnaires w) (processed_meetings w)
                      (offset w) (tick w) (log w ++ [e])).

Definition set_questionnaires (rows : list questionnaire) : M unit :=
  fun w => (Ret tt, mkWorld rows (processed_meetings w) (offset w) (tick w) (log w)).

Definition set_processed (ms : list string) : M unit :=
  fun w => (Ret tt, mkWorld (questionnaires w) ms (offset w) (tick w) (log w)).

Definition set_offset (n : Z) : M unit :=
  fun w => (Ret tt, mkWorld (questionnaires w) (processed_meetings w) n (tick w) (log w)).

Definition rows : M (list questionnaire) := fun w => (Ret (questionnaires w), w).

Definition processed : M (list string) := fun w => (Ret (processed_meetings w), w).

Fixpoint for_each {A} (f : A -> M unit) (l : list A) : M unit :=
  match l with
  | [] => ret tt
  | x :: tl => f x ;;; for_each f tl
  end.

(** [try: c  except Exception as e: logger.error(...)]. *)
Definition try_except (c : M unit) : M unit :=
  fun w =>
    match c w with
    | (Ret _, w') => (Ret tt, w')
    | (Raise e, w') => record (Caught e) w'
    end.

(** ** The bot *)

Section FeedbackBot.

Variable E : env.

(** [str(j)]. *)
Definition py_str (j : json) : string :=
  match j with
  | JStr s => s
  | JNum n => str_of_int n
  | _ => repr E j
  end.

(** A value handed to SQLite as a parameter of a TEXT column: a list or a
    dictionary cannot be bound. *)
Definition sql_text (j : json) : M string :=
  match text_of j with
  | Some s => ret s
  | None => raise (bind_error j)
  end.

(** An HTTP call and [await response.json()]. *)
Definition http (c : call) : M json :=
  fun w =>
    let r := reply_at E (tick w) in
    let w' := mkWorld (questionnaires w) (processed_meetings w) (offset w)
                (S (tick w)) (log w ++ [Called c r]) in
    match r with
    | Some j => (Ret j, w')
    | None => (Raise ClientError, w')
    end.

(** [datetime.now().isoformat()]. *)
Definition now : M string :=
  fun w => (Ret (now_at E (tick w)),
            mkWorld (questionnaires w) (processed_meetings w) (offset w)
              (S (tick w)) (log w)).

Definition execute (s : statement) : M unit := record (Executed s).

Definition fetch_notion_meetings : M json :=
  data <- http QueryMeetings ;;
  lift (py_get data "results" (JArr [])).

Definition get_notion_page_name (page_id : json) : M json :=
  data <- http (GetPage (py_str page_id)) ;;
  lift (path [K "properties"; K "Name"; K "title"; At0; K "text"; K "content"] data).

Definition is_meeting_processed (meeting_id : json) : M bool :=
  m <- sql_text meeting_id ;;
  ms <- processed ;;
  ret (existsb (String.eqb m) ms).

Definition mark_meeting_processed (meeting_id : json) : M unit :=
  m <- sql_text meeting_id ;;
  ms <- processed ;;
  if existsb (String.eqb m) ms then raise IntegrityError
  else set_processed (ms ++ [m]) ;;; execute (InsertProcessed m).

Definition save_questionnaire (chat : string) (meeting_id meeting_name mentor_name
    student_id : json) : M unit :=
  t <- now ;;
  m <- sql_text meeting_id ;;
  name <- sql_text meeting_name ;;
  student <- sql_text student_id ;;
  rs <- rows ;;
  if existsb (has_key chat m) rs then raise IntegrityError
  else
    let r := mkQuestionnaire chat m name student pending 0 [] None t in
    set_questionnaires (rs ++ [r]) ;;; execute (InsertQuestionnaire r).

Definition send_telegram_message (chat : json) (text : string)
    (kb : option keyboard) : M json :=
  http (SendMessage chat text kb).

Definition send_initial_message (chat : string) (meeting_name mentor_name : json)
    : M json :=
  let kb := [("Начать", "start," ++ chat ++ "," ++ py_str meeting_name)] in
  let message_text :=
    "Пожалуйста, оставьте обратную связь по встрече:" ++ String "010" "" ++
    "<b>" ++ py_str meeting_name ++ "</b> с ментором " ++ py_str mentor_name ++ "." in
  message <- send_telegram_message (JStr chat) message_text (Some kb) ;;
  lift (path [K "result"; K "message_id"] message).

(** [UPDATE questionnaires SET last_message_id = ? WHERE chat_id = ? AND
    meeting_id = ?], as [process_meeting] and [run_reminder_checker] write it. *)
Definition update_last_message_id (message_id : json) (chat : string)
    (meeting_id : json) : M unit :=
  v <- sql_text message_id ;;
  m <- sql_text meeting_id ;;
  rs <- rows ;;
  set_questionnaires (update_where chat m (set_last_message_id v) rs) ;;;
  execute (UpdateLastMessage chat m v).

Definition process_meeting (meeting : json) : M unit :=
  properties <- lift (subscript meeting "properties") ;;
  meeting_id <- lift (subscript meeting "id") ;;
  meeting_name <- lift (path [K "Name"; K "title"; At0; K "text"; K "content"] properties) ;;
  mentor_relation <- lift (path [K "Mentor(s)"; K "relation"; At0; K "id"] properties) ;;
  mentor_name <- get_notion_page_name mentor_relation ;;
  student_id <- lift (path [K "Student"; K "relation"; At0; K "id"] properties) ;;
  chat_id_array <- lift (path [K "TG_CHAT_ID"; K "rollup"; K "array"] properties) ;;
  number <- lift (path [At0; K "number"] chat_id_array) ;;
  let chat := py_str number in
  done <- is_meeting_processed meeting_id ;;
  if done then ret tt
  else
    save_questionnaire chat meeting_id meeting_name mentor_name student_id ;;;
    message_id <- send_initial_message chat meeting_name mentor_name ;;
    update_last_message_id message_id chat meeting_id ;;;
    mark_meeting_processed meeting_id.

Definition edit_telegram_message (chat : string) (message_id : json)
    (text : string) (kb : option keyboard) : M json :=
  http (EditMessage chat message_id text kb).

Definition delete_telegram_message (chat message_id : string) : M json :=
  http (DeleteMessage chat message_id).

Definition update_questionnaire_status (chat m : string) (s : status) (cq : Z)
    : M unit :=
  rs <- rows ;;
  set_questionnaires (update_where chat m (set_status s cq) rs) ;;;
  execute (UpdateStatus chat m s cq).

Definition generate_question_keyboard (question_num : Z) (chat m : string)
    : keyboard :=
  map (fun i => (str_of_int i ++ " ⭐️",
                 "answer," ++ chat ++ "," ++ m ++ "," ++ str_of_int question_num
                   ++ "," ++ str_of_int i))
      [1; 2; 3; 4; 5].

Definition questions : list string :=
  [ "Насколько продуктивно была проведена встреча со стороны ментора?";
    "Насколько быстро ментор отвечает на ваши вопросы?";
    "Насколько вам понятен план действий до следующей встречи?";
    "Оцените уровень экспертизы ментора по основной теме встречи.";
    "Насколько быстро и эффективно ваш координатор помогает вам?" ].

(** [questions[question_num - 1]]: a negative index counts from the end. *)
Definition get_question_text (question_num : Z) : outcome string :=
  let i := question_num - 1 in
  let n := Z.of_nat (List.length questions) in
  let j := if i <? 0 then i + n else i in
  if (0 <=? j) && (j <? n) then
    match nth_error questions (Z.to_nat j) with
    | Some q => Ret q
    | None => Raise IndexError
    end
  else Raise IndexError.

Definition start_questionnaire (chat meeting_name : string) (message_id : json)
    : M unit :=
  rs <- rows ;;
  match find (has_status chat pending) rs with
  | Some row =>
      let m := meeting_id row in
      update_questionnaire_status chat m in_progress 1 ;;;
      let kb := generate_question_keyboard 1 chat m in
      question_text <- lift (get_question_text 1) ;;
      edit_telegram_message chat message_id question_text (Some kb) ;;;
      ret tt
  | None => ret tt
  end.

Definition get_meeting_summary (m : string) : M (option string) :=
  data <- http (GetPage m) ;;
  properties <- lift (subscript data "properties") ;;
  summary_property <- lift (py_get properties "Summary" (JObj [])) ;;
  if truthy summary_property then
    type <- lift (subscript summary_property "type") ;;
    if is_str "rich_text" type then
      rich_text <- lift (subscript summary_property "rich_text") ;;
      texts <- lift (py_iter rich_text) ;;
      parts <- lift (comprehension (fun text => subscript text "plain_text") texts) ;;
      summary_text <- lift (join parts) ;;
      ret (Some summary_text)
    else ret None
  else ret None.

Definition dict_get_default (k : pykey) (d : pydict) (default : Z) : Z :=
  match dict_get k d with
  | Some v => v
  | None => default
  end.

Definition save_feedback_to_notion (chat m : string) (ans : pydict) : M unit :=
  rs <- rows ;;
  match find (has_key chat m) rs with
  | None => ret tt
  | Some row =>
      t <- now ;;
      let feedback :=
        mkFeedback m (student_id row)
          (dict_get_default (KStr "1") ans 0)
          (dict_get_default (KStr "2") ans 0)
          (dict_get_default (KStr "3") ans 0)
          (dict_get_default (KStr "4") ans 0)
          (dict_get_default (KInt 5) ans 0)
          "BOT" t (meeting_name row) chat in
      http (CreatePage feedback) ;;;
      ret tt
  end.

Definition mark_notion_meeting_completed (m : string) : M unit :=
  http (PatchPage m) ;;;
  ret tt.

Definition closing_text (summary : option string) : string :=
  "Спасибо за обратную связь! " ++ String "010" "" ++ "Summary встречи:"
    ++ String "010" "" ++ match summary with Some s => s | None => "None" end.

(** A value handed to SQLite as a parameter of an INTEGER column: an
    integer of 64 bits, and no other can be bound. *)
Definition int64 (n : Z) : bool := (- 2 ^ 63 <=? n) && (n <? 2 ^ 63).

Definition sql_integer (n : Z) : M Z :=
  if int64 n then ret n else raise OverflowError.

(** The stored text of [answers] is never empty (it is ['{}'] at least), so
    the guard [if answers_json] of the source always holds.  The parameters
    of an UPDATE are bound before it is executed: a [next_question] that does
    not fit raises and nothing is written. *)
Definition process_answer (chat : string) (question_num points : Z)
    (message_id : json) : M unit :=
  rs <- rows ;;
  match find (has_status chat in_progress) rs with
  | Some row =>
      let m := meeting_id row in
      let ans := dict_set (KInt question_num) points (json_loads (answers row)) in
      let next_question := current_question row + 1 in
      let total_questions := 5 in
      if next_question <=? total_questions then
        sql_integer next_question ;;;
        set_questionnaires
          (update_where chat m (set_answers (json_dumps ans) next_question) rs) ;;;
        execute (UpdateAnswers chat m (json_dumps ans) next_question) ;;;
        let kb := generate_question_keyboard next_question chat m in
        question_text <- lift (get_question_text next_question) ;;
        edit_telegram_message chat message_id question_text (Some kb) ;;;
        ret tt
      else
        sql_integer next_question ;;;
        set_questionnaires
          (update_where chat m (set_completed (json_dumps ans) next_question) rs) ;;;
        execute (UpdateCompleted chat m (json_dumps ans) next_question) ;;;
        summary <- get_meeting_summary m ;;
        edit_telegram_message chat message_id (closing_text summary) None ;;;
        save_feedback_to_notion chat m ans ;;;
        mark_notion_meeting_completed m
  | None => ret tt
  end.

(** [data[i]] for a list of strings. *)
Definition item (data : list string) (i : nat) : M string :=
  match nth_error data i with
  | Some s => ret s
  | None => raise IndexError
  end.

Definition int (s : string) : M Z :=
  match py_int s with
  | Some n => ret n
  | None => raise ValueError
  end.

Definition handle_callback_query (callback_query : json) : M unit :=
  d <- lift (subscript callback_query "data") ;;
  match d with
  | JStr s =>
      let data := split_comma s in
      action <- item data 0 ;;
      if String.eqb action "start" then
        chat <- item data 1 ;;
        let name := match nth_error data 2 with Some n => n | None => "" end in
        message_id <- lift (path [K "message"; K "message_id"] callback_query) ;;
        start_questionnaire chat name message_id
      else if String.eqb action "answer" then
        chat <- item data 1 ;;
        m <- item data 2 ;;
        f3 <- item data 3 ;;
        question_num <- int f3 ;;
        f4 <- item data 4 ;;
        points <- int f4 ;;
        message_id <- lift (path [K "message"; K "message_id"] callback_query) ;;
        process_answer chat question_num points message_id
      else ret tt
  | _ => raise AttributeError
  end.

Definition get_mentor_name_from_notion (m : string) : M json :=
  data <- http (GetPage m) ;;
  mentor_relation <- lift (path [K "properties"; K "Mentor(s)"; K "relation"; At0; K "id"] data) ;;
  get_notion_page_name mentor_relation.

Definition get_telegram_updates (n : Z) : M json :=
  data <- http (GetUpdates n) ;;
  lift (py_get data "result" (JArr [])).

(** ** One iteration of each loop *)

Definition run_notion_checker : M unit :=
  try_except (
    meetings <- fetch_notion_meetings ;;
    lift (py_len meetings) ;;;
    l <- lift (py_iter meetings) ;;
    for_each process_meeting l).

Definition is_pending (r : questionnaire) : bool := status_eqb (q_status r) pending.

Definition nonempty (s : string) : bool :=
  match s with
  | "" => false
  | _ => true
  end.

Definition remind (r : questionnaire) : M unit :=
  match last_message_id r with
  | Some v => if nonempty v then delete_telegram_message (chat_id r) v ;;; ret tt
              else ret tt
  | None => ret tt
  end ;;;
  mentor_name <- get_mentor_name_from_notion (meeting_id r) ;;
  message_id <- send_initial_message (chat_id r) (JStr (meeting_name r)) mentor_name ;;
  update_last_message_id message_id (chat_id r) (JStr (meeting_id r)).

Definition run_reminder_checker : M unit :=
  try_except (
    rs <- rows ;;
    let pending_rows := filter is_pending rs in
    for_each remind pending_rows).

Definition handle_update (update : json) : M unit :=
  update_id <- lift (subscript update "update_id") ;;
  match update_id with
  | JNum n => set_offset (n + 1)
  | _ => raise TypeError
  end ;;;
  is_callback <- lift (py_in "callback_query" update) ;;
  if is_callback then
    callback_query <- lift (subscript update "callback_query") ;;
    handle_callback_query callback_query
  else
    is_message <- lift (py_in "message" update) ;;
    if is_message then
      message <- lift (subscript update "message") ;;
      has_text <- lift (py_in "text" message) ;;
      if has_text then
        text <- lift (subscript message "text") ;;
        match text with
        | JStr t =>
            if String.eqb (strip t) "/chat_id@Feedback_Impact_bot" then
              chat <- lift (path [K "chat"; K "id"] message) ;;
              send_telegram_message chat ("ID чата: " ++ py_str chat) None ;;;
              ret tt
            else ret tt
        | _ => raise AttributeError
        end
      else ret tt
    else ret tt.

Definition run_telegram_polling : M unit :=
  try_except (
    n <- (fun w => (Ret (offset w), w)) ;;
    updates <- get_telegram_updates n ;;
    l <- lift (py_iter updates) ;;
    for_each handle_update l).

End FeedbackBot.

Definition initial_world : world := mkWorld [] [] 0 0 [].

(** * Properties *)

(** ** Reading a run *)

(** The world a computation leaves and the events it adds to the log. *)
Definition after {A} (c : M A) (w : world) : world := snd (c w).

Definition result {A} (c : M A) (w : world) : outcome A := fst (c w).


(** A computation that writes to neither table. *)
Definition keeps_tables {A} (c : M A) : Prop :=
  forall w, questionnaires (after c w) = questionnaires w
            /\ processed_meetings (after c w) = processed_meetings w.

Lemma keeps_ret {A} (a : A) : keeps_tables (ret a).
Proof. now intros w. Qed.

Lemma keeps_raise {A} (e : exn) : keeps_tables (@raise A e).
Proof. now intros w. Qed.

Lemma keeps_lift {A} (o : outcome A) : keeps_tables (lift o).
Proof. now intros w. Qed.

Lemma keeps_record (e : event) : keeps_tables (record e).
Proof. now intros w. Qed.

Lemma keeps_set_offset (n : Z) : keeps_tables (set_offset n).
Proof. now intros w. Qed.

Lemma keeps_http (E : env) (c : call) : keeps_tables (http E c).
Proof. intros w. unfold after, http. now destruct (reply_at E (tick w)). Qed.

Lemma keeps_now (E : env) : keeps_tables (now E).
Proof. now intros w. Qed.

Lemma keeps_rows : keeps_tables rows.
Proof. now intros w. Qed.

Lemma keeps_processed : keeps_tables processed.
Proof. now intros w. Qed.

Lemma keeps_bind {A B} (c : M A) (k : A -> M B) :
  keeps_tables c -> (forall a, keeps_tables (k a)) -> keeps_tables (bind c k).
Proof.
  intros Hc Hk w. unfold after, bind.
  destruct (Hc w) as [H1 H2]. unfold after in H1, H2.
  destruct (c w) as [[a | e] w1]; simpl in *.
  - destruct (Hk a w1) as [H3 H4]. unfold after in H3, H4.
    now rewrite H3, H4.
  - now split.
Qed.

Lemma keeps_sql_text (j : json) : keeps_tables (sql_text j).
Proof. unfold sql_text. destruct (text_of j); now intros w. Qed.

Lemma keeps_sql_integer (n : Z) : keeps_tables (sql_integer n).
Proof. unfold sql_integer. destruct (int64 n); now intros w. Qed.

Create HintDb keeps.

#[local] Hint Resolve keeps_ret keeps_raise keeps_lift keeps_record
  keeps_set_offset keeps_http keeps_now keeps_rows keeps_processed
  keeps_sql_text keeps_sql_integer : keeps.

Ltac keeps :=
  repeat first
    [ progress auto with keeps
    | apply keeps_bind; [ | intros ? ]
    | match goal with
      | |- keeps_tables (if ?b then _ else _) => destruct b
      | |- keeps_tables (match ?x with _ => _ end) => destruct x
      end ].

Lemma keeps_execute (s : statement) : keeps_tables (execute s).
Proof. now intros w. Qed.

Lemma keeps_edit_telegram_message (E : env) (c : string) (m : json) (t : string)
    (kb : option keyboard) :
  keeps_tables (edit_telegram_message E c m t kb).
Proof. apply keeps_http. Qed.

Lemma keeps_delete_telegram_message (E : env) (c m : string) :
  keeps_tables (delete_telegram_message E c m).
Proof. apply keeps_http. Qed.

Lemma keeps_send_telegram_message (E : env) (c : json) (t : string)
    (kb : option keyboard) :
  keeps_tables (send_telegram_message E c t kb).
Proof. apply keeps_http. Qed.

#[local] Hint Resolve keeps_execute keeps_edit_telegram_message
  keeps_delete_telegram_message keeps_send_telegram_message : keeps.

Lemma keeps_get_notion_page_name (E : env) (p : json) :
  keeps_tables (get_notion_page_name E p).
Proof. unfold get_notion_page_name. keeps. Qed.

Lemma keeps_send_initial_message (E : env) (c : string) (n m : json) :
  keeps_tables (send_initial_message E c n m).
Proof. unfold send_initial_message, send_telegram_message. keeps. Qed.

Lemma keeps_get_meeting_summary (E : env) (m : string) :
  keeps_tables (get_meeting_summary E m).
Proof. unfold get_meeting_summary. keeps. Qed.

Lemma keeps_save_feedback_to_notion (E : env) (c m : string) (a : pydict) :
  keeps_tables (save_feedback_to_notion E c m a).
Proof.
  intros w. unfold save_feedback_to_notion, after, bind, rows. simpl.
  destruct (find (has_key c m) (questionnaires w)); [ | now split ].
  unfold now, http. simpl. now destruct (reply_at E (S (tick w))).
Qed.

Lemma keeps_mark_notion_meeting_completed (E : env) (m : string) :
  keeps_tables (mark_notion_meeting_completed E m).
Proof. unfold mark_notion_meeting_completed. keeps. Qed.

Lemma keeps_get_mentor_name_from_notion (E : env) (m : string) :
  keeps_tables (get_mentor_name_from_notion E m).
Proof.
  unfold get_mentor_name_from_notion, get_notion_page_name. keeps.
Qed.

#[local] Hint Resolve keeps_get_notion_page_name keeps_send_initial_message
  keeps_get_meeting_summary keeps_save_feedback_to_notion
  keeps_mark_notion_meeting_completed keeps_get_mentor_name_from_notion : keeps.

(** ** Dictionaries and their JSON text *)

Lemma pykey_eqb_eq (a b : pykey) : pykey_eqb a b = true <-> a = b.
Proof.
  destruct a, b; simpl; split; intros H; try discriminate.
  - apply Z.eqb_eq in H. now subst.
  - injection H as ->. apply Z.eqb_refl.
  - apply String.eqb_eq in H. now subst.
  - injection H as ->. apply String.eqb_refl.
Qed.

Lemma pykey_eqb_refl (a : pykey) : pykey_eqb a a = true.
Proof. now apply pykey_eqb_eq. Qed.

Lemma pykey_eqb_neq (a b : pykey) : pykey_eqb a b = false <-> a <> b.
Proof.
  split.
  - intros H Hab. apply pykey_eqb_eq in Hab. congruence.
  - intros H. destruct (pykey_eqb a b) eqn:Hab; [ | reflexivity ].
    apply pykey_eqb_eq in Hab. contradiction.
Qed.

Lemma dict_get_set_same (k : pykey) (v : Z) (d : pydict) :
  dict_get k (dict_set k v d) = Some v.
Proof.
  induction d as [ | [k' v'] d IH ]; simpl.
  - now rewrite pykey_eqb_refl.
  - destruct (pykey_eqb k k') eqn:Hk; simpl; rewrite Hk; auto.
Qed.

Lemma dict_get_set_other (k k' : pykey) (v : Z) (d : pydict) :
  k <> k' -> dict_get k (dict_set k' v d) = dict_get k d.
Proof.
  intros Hne. induction d as [ | [k2 v2] d IH ]; simpl.
  - apply pykey_eqb_neq in Hne. now rewrite Hne.
  - destruct (pykey_eqb k' k2) eqn:Hk; simpl.
    + apply pykey_eqb_eq in Hk. subst k2.
      apply pykey_eqb_neq in Hne. now rewrite Hne.
    + now rewrite IH.
Qed.

(** Setting a key that is absent appends it. *)
Lemma dict_set_fresh (k : pykey) (v : Z) (d : pydict) :
  ~ In k (map fst d) -> dict_set k v d = (d ++ [(k, v)])%list.
Proof.
  induction d as [ | [k' v'] d IH ]; simpl; intros Hn; [ reflexivity | ].
  destruct (pykey_eqb k k') eqn:Hk.
  - apply pykey_eqb_eq in Hk. subst. tauto.
  - rewrite IH; tauto.
Qed.

Lemma dict_set_keys (k : pykey) (v : Z) (d : pydict) :
  forall x, In x (map fst (dict_set k v d)) <-> x = k \/ In x (map fst d).
Proof.
  induction d as [ | [k' v'] d IH ]; simpl; intros x.
  - intuition.
  - destruct (pykey_eqb k k') eqn:Hk; simpl.
    + apply pykey_eqb_eq in Hk. subst. intuition.
    + rewrite IH. intuition.
Qed.

Lemma dict_set_NoDup (k : pykey) (v : Z) (d : pydict) :
  NoDup (map fst d) -> NoDup (map fst (dict_set k v d)).
Proof.
  induction d as [ | [k' v'] d IH ]; simpl; intros Hd.
  - constructor; [ tauto | constructor ].
  - inversion Hd as [ | ? ? Hnot Hrest ]; subst.
    destruct (pykey_eqb k k') eqn:Hk; simpl.
    + now constructor.
    + constructor; [ | auto ].
      rewrite dict_set_keys. intros [-> | Hin]; [ | tauto ].
      now rewrite pykey_eqb_refl in Hk.
Qed.

(** A dictionary as [json.loads] builds it: string keys, each once. *)
Definition loaded (d : pydict) : Prop :=
  NoDup (map fst d) /\ forall k, In k (map fst d) -> exists s, k = KStr s.

Lemma json_loads_snoc (t : json_text) (s : string) (v : Z) :
  json_loads (t ++ [(s, v)])%list = dict_set (KStr s) v (json_loads t).
Proof. unfold json_loads. now rewrite fold_left_app. Qed.

Lemma json_loads_loaded (t : json_text) : loaded (json_loads t).
Proof.
  induction t as [ | [s v] t IH ] using rev_ind.
  - split; [ constructor | intros k [] ].
  - rewrite json_loads_snoc. destruct IH as [Hnd Hstr]. split.
    + now apply dict_set_NoDup.
    + intros k Hk. apply dict_set_keys in Hk. destruct Hk as [-> | Hk]; eauto.
Qed.

Lemma json_dumps_app (d1 d2 : pydict) :
  json_dumps (d1 ++ d2)%list = (json_dumps d1 ++ json_dumps d2)%list.
Proof. apply map_app. Qed.

(** Writing a loaded dictionary and reading the text gives it back. *)
Lemma json_loads_dumps (d : pydict) : loaded d -> json_loads (json_dumps d) = d.
Proof.
  induction d as [ | [k v] d IH ] using rev_ind; intros [Hnd Hstr]; [ reflexivity | ].
  rewrite map_app in Hnd, Hstr. simpl in Hnd, Hstr.
  destruct (Hstr k) as [s ->]; [ apply in_or_app; simpl; auto | ].
  rewrite json_dumps_app. simpl. rewrite json_loads_snoc.
  apply NoDup_remove in Hnd. rewrite app_nil_r in Hnd. destruct Hnd as [Hnd Hnot].
  rewrite IH.
  - now apply dict_set_fresh.
  - split; [ assumption | ]. intros k Hk. apply Hstr, in_or_app. auto.
Qed.

(** The integer key that [process_answer] adds is read back as its
    decimal text, replacing an earlier value under that text. *)
Lemma answer_text_round_trip (q v : Z) (t : json_text) :
  json_loads (json_dumps (dict_set (KInt q) v (json_loads t)))
  = dict_set (KStr (str_of_int q)) v (json_loads t).
Proof.
  destruct (json_loads_loaded t) as [Hnd Hstr].
  rewrite dict_set_fresh.
  - rewrite json_dumps_app. simpl. rewrite json_loads_snoc.
    rewrite json_loads_dumps; [ reflexivity | now split ].
  - intros Hin. destruct (Hstr _ Hin) as [s Hs]. discriminate.
Qed.

(** ** Rows and their keys *)

Lemma has_status_chat (c : string) (s : status) (r : questionnaire) :
  has_status c s r = true -> chat_id r = c /\ q_status r = s.
Proof.
  unfold has_status. intros H. apply andb_prop in H. destruct H as [Hc Hs].
  apply String.eqb_eq in Hc. split; [ assumption | ].
  destruct (q_status r), s; simpl in Hs; congruence.
Qed.

Lemma has_key_self (r : questionnaire) : has_key (chat_id r) (meeting_id r) r = true.
Proof. unfold has_key. now rewrite !String.eqb_refl. Qed.

Lemma has_key_eq (c m : string) (r : questionnaire) :
  has_key c m r = true <-> chat_id r = c /\ meeting_id r = m.
Proof.
  unfold has_key. rewrite andb_true_iff, !String.eqb_eq. tauto.
Qed.

(** An update that leaves the key columns alone. *)
Definition keeps_key (f : questionnaire -> questionnaire) : Prop :=
  forall r, chat_id (f r) = chat_id r /\ meeting_id (f r) = meeting_id r.

Lemma keeps_key_set_last_message_id (v : string) : keeps_key (set_last_message_id v).
Proof. now intros r. Qed.

Lemma keeps_key_set_status (s : status) (cq : Z) : keeps_key (set_status s cq).
Proof. now intros r. Qed.

Lemma keeps_key_set_answers (a : json_text) (cq : Z) : keeps_key (set_answers a cq).
Proof. now intros r. Qed.

Lemma keeps_key_set_completed (a : json_text) (cq : Z) : keeps_key (set_completed a cq).
Proof. now intros r. Qed.

#[local] Hint Resolve keeps_key_set_last_message_id keeps_key_set_status
  keeps_key_set_answers keeps_key_set_completed : keeps.

Lemma has_key_keeps (f : questionnaire -> questionnaire) (c m : string)
    (r : questionnaire) :
  keeps_key f -> has_key c m (f r) = has_key c m r.
Proof. intros Hf. unfold has_key. destruct (Hf r) as [-> ->]. reflexivity. Qed.

Lemma update_where_keys (c m : string) (f : questionnaire -> questionnaire)
    (rs : list questionnaire) :
  keeps_key f ->
  map (fun r => (chat_id r, meeting_id r)) (update_where c m f rs)
  = map (fun r => (chat_id r, meeting_id r)) rs.
Proof.
  intros Hf. unfold update_where. rewrite map_map. apply map_ext.
  intros r. destruct (has_key c m r); [ | reflexivity ].
  now destruct (Hf r) as [-> ->].
Qed.

Lemma find_update_where (c m : string) (f : questionnaire -> questionnaire)
    (rs : list questionnaire) :
  keeps_key f ->
  find (has_key c m) (update_where c m f rs) = option_map f (find (has_key c m) rs).
Proof.
  intros Hf. induction rs as [ | r rs IH ]; simpl; [ reflexivity | ].
  destruct (has_key c m r) eqn:Hr.
  - now rewrite (has_key_keeps f c m r Hf), Hr.
  - now rewrite Hr.
Qed.

Lemma in_update_where (c m : string) (f : questionnaire -> questionnaire)
    (rs : list questionnaire) (r : questionnaire) :
  In r rs -> In (if has_key c m r then f r else r) (update_where c m f rs).
Proof. intros Hin. unfold update_where. now apply (in_map (fun r => if has_key c m r then f r else r)). Qed.


(** ** Composition in the monad *)

Lemma update_where_fresh (c m : string) (f : questionnaire -> questionnaire)
    (rs : list questionnaire) :
  existsb (has_key c m) rs = false -> update_where c m f rs = rs.
Proof.
  induction rs as [ | r rs IH ]; simpl; intros H; [ reflexivity | ].
  apply orb_false_iff in H. destruct H as [Hr Hrs]. now rewrite Hr, IH.
Qed.

Lemma update_where_app (c m : string) (f : questionnaire -> questionnaire)
    (rs rs' : list questionnaire) :
  update_where c m f (rs ++ rs') = (update_where c m f rs ++ update_where c m f rs')%list.
Proof. apply map_app. Qed.

Lemma after_bind {A B} (c : M A) (k : A -> M B) (w : world) :
  after (bind c k) w
  = match result c w with
    | Ret a => after (k a) (after c w)
    | Raise _ => after c w
    end.
Proof. unfold after, result, bind. now destruct (c w) as [[a | e] w1]. Qed.

Lemma result_bind {A B} (c : M A) (k : A -> M B) (w : world) :
  result (bind c k) w
  = match result c w with
    | Ret a => result (k a) (after c w)
    | Raise e => Raise e
    end.
Proof. unfold after, result, bind. now destruct (c w) as [[a | e] w1]. Qed.

(** A write to [questionnaires] followed by code that writes no table. *)
Lemma write_then_keep (rs : list questionnaire) (k : M unit) (w : world) :
  keeps_tables k ->
  questionnaires (after (set_questionnaires rs ;;; k) w) = rs
  /\ processed_meetings (after (set_questionnaires rs ;;; k) w) = processed_meetings w.
Proof.
  intros Hk. rewrite after_bind. simpl.
  destruct (Hk (after (set_questionnaires rs) w)) as [H1 H2].
  now rewrite H1, H2.
Qed.

(** ** C1: which answers [process_answer] accepts *)

(** The UPDATE of [process_answer], from the row [r] it selected. *)
Definition write_answer (r : questionnaire) (q points : Z) (x : questionnaire)
    : questionnaire :=
  let a := json_dumps (dict_set (KInt q) points (json_loads (answers r))) in
  let next := current_question r + 1 in
  if next <=? 5 then set_answers a next x else set_completed a next x.

Lemma keeps_key_write_answer (r : questionnaire) (q points : Z) :
  keeps_key (write_answer r q points).
Proof. intros x. unfold write_answer. now destruct (_ <=? 5). Qed.

#[local] Hint Resolve keeps_key_write_answer : keeps.

Lemma int64_spec (n : Z) : int64 n = true <-> - 2 ^ 63 <= n < 2 ^ 63.
Proof. unfold int64. rewrite andb_true_iff, Z.leb_le, Z.ltb_lt. tauto. Qed.

Lemma process_answer_tables (E : env) (chat : string) (q points : Z)
    (message_id : json) (w : world) (r : questionnaire) :
  find (has_status chat in_progress) (questionnaires w) = Some r ->
  int64 (current_question r + 1) = true ->
  questionnaires (after (process_answer E chat q points message_id) w)
  = update_where chat (meeting_id r) (write_answer r q points) (questionnaires w)
  /\ processed_meetings (after (process_answer E chat q points message_id) w)
     = processed_meetings w.
Proof.
  intros Hfind Hfits. unfold process_answer. rewrite after_bind. simpl.
  change (after rows w) with w. rewrite Hfind.
  unfold write_answer, sql_integer. rewrite Hfits.
  destruct (current_question r + 1 <=? 5).
  - rewrite after_bind. simpl. apply write_then_keep. keeps.
  - rewrite after_bind. simpl. apply write_then_keep. keeps.
Qed.

(** A [next_question] that does not fit in 64 bits: the UPDATE raises and
    nothing is written or sent. *)
Lemma process_answer_overflow (E : env) (chat : string) (q points : Z)
    (message_id : json) (w : world) (r : questionnaire) :
  find (has_status chat in_progress) (questionnaires w) = Some r ->
  int64 (current_question r + 1) = false ->
  process_answer E chat q points message_id w = (Raise OverflowError, w).
Proof.
  intros Hfind Hfits. unfold process_answer, bind, rows, sql_integer.
  rewrite Hfind, Hfits. now destruct (current_question r + 1 <=? 5).
Qed.

Lemma get_question_text_defined (n : Z) :
  1 <= n <= 5 -> exists text, get_question_text n = Ret text.
Proof.
  intros Hn.
  assert (n = 1 \/ n = 2 \/ n = 3 \/ n = 4 \/ n = 5) as Hcases by lia.
  destruct Hcases as [-> | [-> | [-> | [-> | ->]]]]; eexists; reflexivity.
Qed.

(** The claim: an answer that cites another question than the current one
    changes neither the table nor the chat. *)
Definition stale_answer_ignored (E : env) (w : world) (chat : string)
    (q points : Z) (message_id : json) : Prop :=
  forall r,
    find (has_status chat in_progress) (questionnaires w) = Some r ->
    q <> current_question r ->
    questionnaires (after (process_answer E chat q points message_id) w)
    = questionnaires w
    /\ log (after (process_answer E chat q points message_id) w) = log w.

(** A reply that has every field the bot reads from any response. *)
Definition sample_reply : json :=
  JObj [("properties",
          JObj [("Name", JObj [("title", JArr [JObj [("text", JObj [("content", JStr "Anna")])]])]);
                ("Mentor(s)", JObj [("relation", JArr [JObj [("id", JStr "mentor-1")]])])]);
        ("result", JObj [("message_id", JNum 100)])].

(** The record of a meeting, as the query of the data base returns it. *)
Definition sample_meeting (id title : string) (chat : Z) : json :=
  JObj [("id", JStr id);
        ("properties",
          JObj [("Name", JObj [("title", JArr [JObj [("text", JObj [("content", JStr title)])]])]);
                ("Mentor(s)", JObj [("relation", JArr [JObj [("id", JStr "mentor-1")]])]);
                ("Student", JObj [("relation", JArr [JObj [("id", JStr "student-1")]])]);
                ("TG_CHAT_ID",
                  JObj [("rollup", JObj [("array", JArr [JObj [("number", JNum chat)]])])])])].

Definition sample_env : env :=
  mkEnv (fun _ => Some sample_reply) (fun _ => "2025-01-01T00:00:00") (fun _ => "").

Definition sample_row (s : status) (cq : Z) (a : json_text) : questionnaire :=
  mkQuestionnaire "123" "m1" "Sprint Review" "student-1" s cq a (Some "100")
    "2025-01-01T00:00:00".

Definition sample_world (rs : list questionnaire) : world :=
  mkWorld rs ["m1"] 0 0 [].

(** C1, counterexample: question 2 is current, the answer cites question 1,
    and the row is rewritten and the message edited all the same. *)
Lemma stale_answer_is_accepted :
  ~ stale_answer_ignored sample_env
      (sample_world [sample_row in_progress 2 [("1", 5)]]) "123" 1 3 (JNum 7).
Proof.
  intros H. destruct (H _ eq_refl) as [Hrows _]; [ discriminate | ].
  vm_compute in Hrows. discriminate.
Qed.

(** The text of question [n], for [n] from 1 to 5. *)
Lemma get_question_text_nth (n : Z) :
  1 <= n <= 5 -> get_question_text n = Ret (nth (Z.to_nat (n - 1)) questions "").
Proof.
  intros Hn.
  assert (n = 1 \/ n = 2 \/ n = 3 \/ n = 4 \/ n = 5) as Hcases by lia.
  destruct Hcases as [-> | [-> | [-> | [-> | ->]]]]; reflexivity.
Qed.

(** C1, as the code has it: whatever question an answer cites, it is
    accepted by the questionnaire in progress of its chat (the next question
    fitting in the 64 bits of the column): the score is stored under the
    cited question, [current_question] goes up by one, the status becomes
    [completed] once it passes 5, and below that the message is edited to
    the text of the next question, with the five buttons of the next
    question ([questions] is counted from 0, so that its entry
    [current_question] is the text of question [current_question + 1]). *)
Theorem process_answer_accepts_any_question (E : env) (chat : string)
    (q points : Z) (message_id : json) (w : world) (r : questionnaire) :
  find (has_status chat in_progress) (questionnaires w) = Some r ->
  - 2 ^ 63 <= current_question r + 1 < 2 ^ 63 ->
  let w' := after (process_answer E chat q points message_id) w in
  exists r',
    In r' (questionnaires w')
    /\ chat_id r' = chat /\ meeting_id r' = meeting_id r
    /\ current_question r' = current_question r + 1
    /\ dict_get (KStr (str_of_int q)) (json_loads (answers r')) = Some points
    /\ (forall k, k <> str_of_int q ->
        dict_get (KStr k) (json_loads (answers r'))
        = dict_get (KStr k) (json_loads (answers r)))
    /\ q_status r' = (if current_question r + 1 <=? 5 then in_progress else completed)
    /\ (1 <= current_question r <= 4 ->
        log w' = (log w ++
          [Executed (UpdateAnswers chat (meeting_id r) (answers r')
                       (current_question r + 1));
           Called (EditMessage chat message_id
                     (nth (Z.to_nat (current_question r)) questions "")
                     (Some (map (fun i =>
                                   ((str_of_int i ++ " ⭐️")%string,
                                    ("answer," ++ chat ++ "," ++ meeting_id r ++ ","
                                       ++ str_of_int (current_question r + 1) ++ ","
                                       ++ str_of_int i)%string))
                              [1; 2; 3; 4; 5])))
             (reply_at E (tick w))])%list).
Proof.
  intros Hfind Hfits w'.
  apply int64_spec in Hfits.
  destruct (find_some _ _ Hfind) as [Hin Hst].
  apply has_status_chat in Hst. destruct Hst as [Hchat Hstatus].
  exists (write_answer r q points r).
  destruct (process_answer_tables E chat q points message_id w r Hfind Hfits)
    as [Hrows _].
  fold w' in Hrows.
  assert (has_key chat (meeting_id r) r = true) as Hkey
    by (rewrite <- Hchat; apply has_key_self).
  repeat split.
  - rewrite Hrows.
    pose proof (in_update_where chat (meeting_id r) (write_answer r q points) _ _ Hin) as H.
    now rewrite Hkey in H.
  - destruct (keeps_key_write_answer r q points r) as [-> _]. exact Hchat.
  - now destruct (keeps_key_write_answer r q points r) as [_ ->].
  - unfold write_answer. now destruct (_ <=? 5).
  - unfold write_answer.
    destruct (_ <=? 5); simpl; rewrite answer_text_round_trip;
      apply dict_get_set_same.
  - intros k Hk. unfold write_answer.
    destruct (_ <=? 5); simpl; rewrite answer_text_round_trip;
      apply dict_get_set_other; congruence.
  - unfold write_answer. destruct (_ <=? 5); simpl; [ exact Hstatus | reflexivity ].
  - intros Hcq.
    pose proof (get_question_text_nth (current_question r + 1) ltac:(lia)) as Htext.
    replace (current_question r + 1 - 1) with (current_question r) in Htext by lia.
    subst w'. unfold process_answer, after, bind, rows, sql_integer. simpl.
    rewrite Hfind, Hfits. unfold write_answer.
    destruct (current_question r + 1 <=? 5) eqn:Hle; [ | apply Z.leb_gt in Hle; lia ].
    simpl. unfold lift. rewrite Htext. unfold edit_telegram_message, http. simpl.
    destruct (reply_at E (tick w)); simpl; now rewrite <- app_assoc.
Qed.

(** C1, witness: question 2 is current, the answer cites question 1; it is
    stored, and the message shows question 3. *)
Lemma process_answer_accepts_any_question_witness :
  exists r',
    In r' (questionnaires
             (after (process_answer sample_env "123" 1 3 (JNum 7))
                (sample_world [sample_row in_progress 2 [("1", 5)]])))
    /\ current_question r' = 3
    /\ dict_get (KStr "1") (json_loads (answers r')) = Some 3
    /\ exists row_text kb,
         log (after (process_answer sample_env "123" 1 3 (JNum 7))
                (sample_world [sample_row in_progress 2 [("1", 5)]]))
         = [Executed (UpdateAnswers "123" "m1" row_text 3);
            Called (EditMessage "123" (JNum 7)
                      "Насколько вам понятен план действий до следующей встречи?"
                      (Some kb))
              (Some sample_reply)].
Proof.
  destruct (process_answer_accepts_any_question sample_env "123" 1 3 (JNum 7)
              (sample_world [sample_row in_progress 2 [("1", 5)]])
              (sample_row in_progress 2 [("1", 5)]) eq_refl ltac:(simpl; lia))
    as [r' [Hin [_ [_ [Hcq [Hans [_ [_ Hlog]]]]]]]].
  exists r'. split; [ exact Hin | ]. split; [ exact Hcq | ]. split; [ exact Hans | ].
  eexists _, _. rewrite (Hlog ltac:(simpl; lia)). reflexivity.
Defined.

(** ** C9: payloads the handler cannot read *)

Definition numeric (s : string) : bool :=
  match py_int s with
  | Some _ => true
  | None => false
  end.

(** A callback query in the wire format of the buttons: text data whose
    first field is [start] followed by a chat id, or [answer] followed by a
    chat id, a meeting id and two numbers; and a message reference. *)
Definition well_formed (callback_query : json) : bool :=
  match subscript callback_query "data",
        path [K "message"; K "message_id"] callback_query with
  | Ret (JStr s), Ret _ =>
      match split_comma s with
      | action :: fields =>
          if String.eqb action "start" then
            match fields with
            | _ :: _ => true
            | [] => false
            end
          else if String.eqb action "answer" then
            match fields with
            | _ :: _ :: q :: points :: _ => numeric q && numeric points
            | _ => false
            end
          else false
      | [] => false
      end
  | _, _ => false
  end.

Definition unrecognized (callback_query : json) : bool :=
  match subscript callback_query "data" with
  | Ret (JStr s) =>
      negb (String.eqb (hd "" (split_comma s)) "start")
      && negb (String.eqb (hd "" (split_comma s)) "answer")
  | _ => false
  end.

(** The claim: a payload that is not well formed is ignored, the handler
    returning as if nothing had arrived. *)
Definition malformed_is_ignored (E : env) (callback_query : json) (w : world)
    : Prop :=
  well_formed callback_query = false ->
  handle_callback_query E callback_query w = (Ret tt, w).

Definition callback (data : string) (message_id : Z) : json :=
  JObj [("data", JStr data); ("message", JObj [("message_id", JNum message_id)])].

(** A number may be written in the decimal digits of any script, with white
    space around it: the fields [٣] (Arabic-Indic three) and [ 5] are
    numbers. *)
Example numbers_of_other_scripts :
  py_int "٣" = Some 3
  /\ py_int " 5" = Some 5
  /\ well_formed (callback "answer,123,m1,٣, 5" 7) = true
  /\ well_formed (callback "answer,123,m1,three,5" 7) = false.
Proof. repeat split; reflexivity. Qed.

(** C9, counterexample: an answer payload with two fields of five. *)
Lemma short_answer_payload_raises :
  handle_callback_query sample_env (callback "answer,123" 7)
    (sample_world [sample_row in_progress 1 []])
  = (Raise IndexError, sample_world [sample_row in_progress 1 []])
  /\ ~ malformed_is_ignored sample_env (callback "answer,123" 7)
         (sample_world [sample_row in_progress 1 []]).
Proof.
  split; [ reflexivity | ].
  intros H. specialize (H eq_refl). vm_compute in H. discriminate.
Qed.

Lemma subscript_raises (j : json) (k : string) (e : exn) :
  subscript j k = Raise e -> e = KeyError \/ e = TypeError.
Proof.
  destruct j; simpl; try (intros H; injection H as <-; tauto).
  destruct (assoc k members); [ discriminate | intros H; injection H as <-; tauto ].
Qed.

Lemma path_raises (sel : list selector) (j : json) (e : exn) :
  path sel j = Raise e -> e = KeyError \/ e = TypeError \/ e = IndexError.
Proof.
  revert j. induction sel as [ | [k | ] sel IH ]; simpl; intros j H; [ discriminate | | ].
  - destruct (subscript j k) eqn:Hs; simpl in H.
    + eauto.
    + injection H as <-. apply subscript_raises in Hs. tauto.
  - destruct (first j) eqn:Hs; simpl in H.
    + eauto.
    + injection H as <-. destruct j as [ s | | [ | ] | ]; simpl in Hs;
        try (destruct (unicode s)); try discriminate; injection Hs as <-; tauto.
Qed.

Lemma split_comma_cons (s : string) : exists a l, split_comma s = a :: l.
Proof.
  induction s as [ | c s IH ]; simpl; [ eauto | ].
  destruct (Ascii.eqb c ","); [ eauto | ].
  destruct IH as [a [l ->]]. eauto.
Qed.

Ltac raises e :=
  split; [ reflexivity | split; [ discriminate | intros _ ] ];
  exists e; split; [ reflexivity | simpl; tauto ].

(** C9, as the code has it: a payload that is not well formed changes
    nothing, neither a table nor the chat; it is passed over in silence only
    when its action is none of the two, and otherwise the handler raises
    (an index error for a missing field, a value error for a field that is
    not a number, a key, type or attribute error for missing data). *)
Theorem malformed_payload_changes_nothing (E : env) (callback_query : json)
    (w : world) :
  well_formed callback_query = false ->
  after (handle_callback_query E callback_query) w = w
  /\ (unrecognized callback_query = true ->
      result (handle_callback_query E callback_query) w = Ret tt)
  /\ (unrecognized callback_query = false ->
      exists e, result (handle_callback_query E callback_query) w = Raise e
                /\ In e [KeyError; TypeError; AttributeError; IndexError; ValueError]).
Proof.
  unfold well_formed, unrecognized, handle_callback_query, after, result, bind, lift.
  destruct (subscript callback_query "data") as [d | e] eqn:Hdata; cbn -[path].
  2:{ intros _. destruct (subscript_raises _ _ _ Hdata) as [-> | ->]; raises KeyError || raises TypeError. }
  destruct d as [s | | | ]; try (intros _; raises AttributeError).
  destruct (split_comma_cons s) as [action [fields ->]]; cbn -[path].
  destruct (String.eqb action "start") eqn:Hstart; cbn -[path].
  - destruct fields as [ | chat rest ]; cbn -[path].
    + intros _. raises IndexError.
    + destruct (path [K "message"; K "message_id"] callback_query) as [ m | e ] eqn:Hp;
        [ discriminate | ].
      intros _.
      destruct (path_raises _ _ _ Hp) as [-> | [-> | ->]];
        raises KeyError || raises TypeError || raises IndexError.
  - destruct (String.eqb action "answer") eqn:Hanswer; cbn -[path].
    + destruct fields as [ | chat [ | m [ | q [ | points rest ] ] ] ]; cbn -[path];
        try (intros _; raises IndexError).
      * unfold int, numeric. destruct (py_int q); cbn -[path];
          [ intros _; raises IndexError | intros _; raises ValueError ].
      * unfold int, numeric. destruct (py_int q); cbn -[path];
          [ | intros _; raises ValueError ].
        destruct (py_int points); cbn -[path]; [ | intros _; raises ValueError ].
        destruct (path [K "message"; K "message_id"] callback_query) as [ mid | e ] eqn:Hp;
          [ discriminate | ].
        intros _.
        destruct (path_raises _ _ _ Hp) as [-> | [-> | ->]];
          raises KeyError || raises TypeError || raises IndexError.
    + intros _. split; [ reflexivity | split; [ reflexivity | discriminate ] ].
Qed.

(** C9, witness. *)
Lemma malformed_payload_changes_nothing_witness :
  after (handle_callback_query sample_env (callback "answer,123,m1,x,5" 7))
    (sample_world [sample_row in_progress 1 []])
  = sample_world [sample_row in_progress 1 []].
Proof.
  apply (proj1 (malformed_payload_changes_nothing sample_env
                  (callback "answer,123,m1,x,5" 7)
                  (sample_world [sample_row in_progress 1 []]) eq_refl)).
Defined.

(** ** Answers given in order *)

Lemma str_of_int_inj (a b : Z) : str_of_int a = str_of_int b -> a = b.
Proof.
  unfold str_of_int. intros H. apply DecimalZ.to_int_inj.
  assert (forall z, NilZero.int_of_string (NilZero.string_of_int (Z.to_int z))
                    = Some (Z.to_int z)) as Hisi.
  { intros z. apply NilZero.isi; destruct z; simpl; try discriminate;
      intros Hd; injection Hd as Hd; now apply Unsigned.to_uint_nonnil in Hd. }
  apply (f_equal NilZero.int_of_string) in H. rewrite !Hisi in H. congruence.
Qed.

(** The respondent presses, each time, a button of the question shown. *)
Fixpoint submit (E : env) (chat : string) (q : Z) (events : list (Z * json))
    (w : world) : world :=
  match events with
  | [] => w
  | (points, message_id) :: tl =>
      submit E chat (q + 1) tl (after (process_answer E chat q points message_id) w)
  end.

(** The text of the answers to questions [q], [q+1], ... *)
Fixpoint numbered (q : Z) (scores : list Z) : json_text :=
  match scores with
  | [] => []
  | p :: tl => (str_of_int q, p) :: numbered (q + 1) tl
  end.

Lemma numbered_keys (q : Z) (scores : list Z) (s : string) :
  In s (map fst (numbered q scores))
  <-> exists i, q <= i < q + Z.of_nat (List.length scores) /\ s = str_of_int i.
Proof.
  revert q. induction scores as [ | p tl IH ]; intros q; simpl.
  - split; [ tauto | intros [i [Hi _]]; lia ].
  - rewrite IH. split.
    + intros [<- | [i [Hi ->]]]; [ exists q | exists i ]; split; auto; lia.
    + intros [i [Hi ->]]. destruct (Z.eq_dec i q) as [-> | Hne]; [ now left | right ].
      exists i. split; [ lia | reflexivity ].
Qed.

Lemma json_loads_NoDup (t : json_text) :
  NoDup (map fst t) -> json_loads t = map (fun kv => (KStr (fst kv), snd kv)) t.
Proof.
  induction t as [ | [s v] t IH ] using rev_ind; intros Hnd; [ reflexivity | ].
  rewrite map_app in Hnd. simpl in Hnd.
  apply NoDup_remove in Hnd. rewrite app_nil_r in Hnd. destruct Hnd as [Hnd Hnot].
  rewrite json_loads_snoc, IH by assumption. rewrite map_app. simpl.
  apply dict_set_fresh. rewrite map_map. simpl.
  intros Hin. apply in_map_iff in Hin. destruct Hin as [[s' v'] [Heq Hin]].
  simpl in Heq. injection Heq as ->. apply Hnot. apply in_map_iff.
  now exists (s, v').
Qed.

Lemma json_dumps_strings (t : json_text) :
  json_dumps (map (fun kv => (KStr (fst kv), snd kv)) t) = t.
Proof.
  unfold json_dumps. rewrite map_map. simpl.
  rewrite <- (map_id t) at 2. apply map_ext. now intros [s v].
Qed.

(** A new question is written at the end of the text. *)
Lemma answer_text_fresh (q v : Z) (t : json_text) :
  NoDup (map fst t) ->
  json_dumps (dict_set (KInt q) v (json_loads t)) = (t ++ [(str_of_int q, v)])%list.
Proof.
  intros Hnd. rewrite json_loads_NoDup by assumption.
  rewrite dict_set_fresh.
  - rewrite json_dumps_app, json_dumps_strings. reflexivity.
  - rewrite map_map. simpl. intros Hin. apply in_map_iff in Hin.
    destruct Hin as [kv [Heq _]]. discriminate.
Qed.

Lemma find_status_update_where (c c' m : string) (s : status)
    (f : questionnaire -> questionnaire) (rs : list questionnaire) :
  (forall x, chat_id (f x) = chat_id x /\ q_status (f x) = q_status x) ->
  find (has_status c s) (update_where c' m f rs)
  = option_map (fun r => if has_key c' m r then f r else r) (find (has_status c s) rs).
Proof.
  intros Hf. induction rs as [ | r rs IH ]; simpl; [ reflexivity | ].
  assert (has_status c s (if has_key c' m r then f r else r) = has_status c s r) as ->.
  { destruct (has_key c' m r); [ | reflexivity ].
    unfold has_status. now destruct (Hf r) as [-> ->]. }
  destruct (has_status c s r); [ reflexivity | exact IH ].
Qed.

Lemma process_answer_next (E : env) (chat : string) (q points : Z)
    (message_id : json) (w : world) (r : questionnaire) :
  find (has_status chat in_progress) (questionnaires w) = Some r ->
  - 2 ^ 63 <= current_question r + 1 <= 5 ->
  find (has_status chat in_progress)
    (questionnaires (after (process_answer E chat q points message_id) w))
  = Some (write_answer r q points r).
Proof.
  intros Hfind Hle.
  destruct (process_answer_tables E chat q points message_id w r Hfind) as [-> _];
    [ apply int64_spec; lia | ].
  destruct (find_some _ _ Hfind) as [_ Hst]. apply has_status_chat in Hst.
  destruct Hst as [Hchat _].
  rewrite find_status_update_where, Hfind; simpl.
  - rewrite <- Hchat at 1. now rewrite has_key_self.
  - intros x. unfold write_answer.
    destruct (current_question r + 1 <=? 5) eqn:H; [ now split | ].
    apply Z.leb_gt in H. lia.
Qed.

Lemma process_answer_row (E : env) (chat : string) (q points : Z)
    (message_id : json) (w : world) (r : questionnaire) :
  find (has_status chat in_progress) (questionnaires w) = Some r ->
  - 2 ^ 63 <= current_question r + 1 < 2 ^ 63 ->
  exists x,
    find (has_key chat (meeting_id r))
      (questionnaires (after (process_answer E chat q points message_id) w))
    = Some (write_answer r q points x).
Proof.
  intros Hfind Hfits. apply int64_spec in Hfits.
  destruct (process_answer_tables E chat q points message_id w r Hfind Hfits) as [-> _].
  rewrite find_update_where by auto with keeps.
  destruct (find_some _ _ Hfind) as [Hin Hst]. apply has_status_chat in Hst.
  destruct Hst as [Hchat _].
  destruct (find (has_key chat (meeting_id r)) (questionnaires w)) as [x | ] eqn:Hx.
  - now exists x.
  - apply (find_none _ _ Hx) in Hin. rewrite <- Hchat, has_key_self in Hin. discriminate.
Qed.

Lemma write_answer_fields (r x : questionnaire) (q points : Z) :
  current_question (write_answer r q points x) = current_question r + 1
  /\ answers (write_answer r q points x)
     = json_dumps (dict_set (KInt q) points (json_loads (answers r)))
  /\ meeting_id (write_answer r q points x) = meeting_id x.
Proof. unfold write_answer. destruct (_ <=? 5); repeat split. Qed.

Lemma submit_in_order (E : env) (chat : string) (events : list (Z * json)) :
  forall (w : world) (r : questionnaire),
    find (has_status chat in_progress) (questionnaires w) = Some r ->
    NoDup (map fst (answers r)) ->
    (forall i, current_question r <= i -> ~ In (str_of_int i) (map fst (answers r))) ->
    events <> [] ->
    0 <= current_question r ->
    current_question r + Z.of_nat (List.length events) <= 6 ->
    exists r',
      find (has_key chat (meeting_id r))
        (questionnaires (submit E chat (current_question r) events w)) = Some r'
      /\ current_question r' = current_question r + Z.of_nat (List.length events)
      /\ answers r' = (answers r ++ numbered (current_question r) (map fst events))%list.
Proof.
  induction events as [ | [points message_id] tl IH ];
    intros w r Hfind Hnd Hfresh Hne Hpos Hlen; [ congruence | ].
  simpl submit. simpl List.length in Hlen.
  assert (answers (write_answer r (current_question r) points r)
          = (answers r ++ [(str_of_int (current_question r), points)])%list) as Hans.
  { destruct (write_answer_fields r r (current_question r) points) as [_ [-> _]].
    now apply answer_text_fresh. }
  destruct tl as [ | e tl ].
  - simpl.
    destruct (process_answer_row E chat (current_question r) points message_id w r Hfind)
      as [x Hx]; [ lia | ].
    exists (write_answer r (current_question r) points x). split; [ exact Hx | ].
    destruct (write_answer_fields r x (current_question r) points) as [-> [-> _]].
    split; [ reflexivity | ]. now apply answer_text_fresh.
  - simpl List.length in Hlen.
    pose proof (process_answer_next E chat (current_question r) points message_id w r
                  Hfind ltac:(lia)) as Hnext.
    destruct (write_answer_fields r r (current_question r) points) as [Hcq [_ Hm]].
    destruct (IH _ _ Hnext) as [r' [Hr' [Hcq' Hans']]].
    + rewrite Hans, map_app. simpl. apply NoDup_app; [ exact Hnd | repeat constructor; tauto | ].
      intros a Ha [<- | []]. apply (Hfresh (current_question r)); [ lia | exact Ha ].
    + intros i Hi. rewrite Hans, map_app, in_app_iff. simpl. rewrite Hcq in Hi.
      intros [Hin | [Heq | []]].
      * apply (Hfresh i); [ lia | exact Hin ].
      * apply str_of_int_inj in Heq. lia.
    + discriminate.
    + rewrite Hcq. lia.
    + rewrite Hcq. simpl List.length. lia.
    + exists r'. rewrite Hcq, Hm in Hr'. split; [ exact Hr' | ].
      rewrite Hcq', Hcq. split; [ simpl List.length; lia | ].
      rewrite Hans', Hans, Hcq, <- app_assoc. reflexivity.
Qed.

(** The respondent presses buttons of any questions: each event cites a
    question of its own. *)
Fixpoint submit_cited (E : env) (chat : string) (events : list (Z * Z * json))
    (w : world) : world :=
  match events with
  | [] => w
  | (q, points, message_id) :: tl =>
      submit_cited E chat tl (after (process_answer E chat q points message_id) w)
  end.

(** Whatever the answers cite, each moves [current_question] by one. *)
Lemma submit_cited_counts (E : env) (chat : string) (events : list (Z * Z * json)) :
  forall (w : world) (r : questionnaire),
    find (has_status chat in_progress) (questionnaires w) = Some r ->
    events <> [] ->
    0 <= current_question r ->
    current_question r + Z.of_nat (List.length events) <= 6 ->
    exists r',
      find (has_key chat (meeting_id r))
        (questionnaires (submit_cited E chat events w)) = Some r'
      /\ current_question r' = current_question r + Z.of_nat (List.length events).
Proof.
  induction events as [ | [[q points] message_id] tl IH ];
    intros w r Hfind Hne Hpos Hlen; [ congruence | ].
  simpl submit_cited. simpl List.length in Hlen.
  destruct tl as [ | e tl ].
  - simpl.
    destruct (process_answer_row E chat q points message_id w r Hfind) as [x Hx];
      [ lia | ].
    exists (write_answer r q points x). split; [ exact Hx | ].
    destruct (write_answer_fields r x q points) as [-> _]. reflexivity.
  - simpl List.length in Hlen.
    pose proof (process_answer_next E chat q points message_id w r Hfind ltac:(lia))
      as Hnext.
    destruct (write_answer_fields r r q points) as [Hcq [_ Hm]].
    destruct (IH _ _ Hnext) as [r' [Hr' Hcq']].
    + discriminate.
    + rewrite Hcq. lia.
    + rewrite Hcq. simpl List.length. lia.
    + exists r'. rewrite Hm in Hr'. split; [ exact Hr' | ].
      rewrite Hcq', Hcq. simpl List.length. lia.
Qed.

(** ** C2: the keys of [answers] and [current_question] *)

(** The keys of a text are exactly the numbers 1 to [k]. *)
Definition key_set (t : json_text) (k : Z) : Prop :=
  forall s, In s (map fst t) <-> exists i, 1 <= i <= k /\ s = str_of_int i.

Definition keys_are_prefix (r : questionnaire) : Prop :=
  exists k, 0 <= k <= current_question r /\ key_set (answers r) k.

(** C2, counterexample: a questionnaire is started and its first answer
    cites question 3; the answer is accepted, [current_question] is 2 and
    the only key is 3. *)
Lemma first_answer_out_of_order :
  exists r,
    questionnaires
      (after (process_answer sample_env "123" 3 5 (JNum 7))
         (after (start_questionnaire sample_env "123" "Sprint Review" (JNum 7))
            (sample_world [sample_row pending 0 []]))) = [r]
    /\ current_question r = 2
    /\ ~ key_set (answers r) 1
    /\ ~ keys_are_prefix r.
Proof.
  eexists. split; [ reflexivity | ]. split; [ reflexivity | ].
  assert (forall k, ~ key_set [("3", 5)] k) as Hno.
  { intros k Hk. destruct (proj1 (Hk "3")) as [i [Hi _]]; [ simpl; auto | ].
    destruct (proj2 (Hk "1")) as [Heq | []]; [ exists 1; split; [ lia | reflexivity ] | ].
    discriminate. }
  split; [ apply Hno | ]. intros [k [_ Hk]]. exact (Hno k Hk).
Qed.

(** C2, as the code has it: when each answer cites the question then
    current, after the k-th answer (1 <= k <= 5) [current_question] is k+1
    and the keys of [answers] are exactly 1..k, each with its score; and
    whatever questions the answers cite, after the k-th answer
    [current_question] is k+1. *)
Theorem answers_in_order (E : env) (chat : string) (w : world) (r : questionnaire) :
  find (has_status chat in_progress) (questionnaires w) = Some r ->
  current_question r = 1 ->
  answers r = [] ->
  (forall events : list (Z * json),
      events <> [] ->
      (List.length events <= 5)%nat ->
      exists r',
        find (has_key chat (meeting_id r)) (questionnaires (submit E chat 1 events w))
        = Some r'
        /\ current_question r' = Z.of_nat (List.length events) + 1
        /\ answers r' = numbered 1 (map fst events)
        /\ key_set (answers r') (Z.of_nat (List.length events)))
  /\ (forall cited : list (Z * Z * json),
        cited <> [] ->
        (List.length cited <= 5)%nat ->
        exists r',
          find (has_key chat (meeting_id r))
            (questionnaires (submit_cited E chat cited w)) = Some r'
          /\ current_question r' = Z.of_nat (List.length cited) + 1).
Proof.
  intros Hfind Hcq Hans. split.
  - intros events Hne Hlen.
    destruct (submit_in_order E chat events w r Hfind) as [r' [Hr' [Hcq' Hans']]].
    + rewrite Hans. constructor.
    + rewrite Hans. intros i _ [].
    + exact Hne.
    + lia.
    + rewrite Hcq. lia.
    + rewrite Hcq in Hr', Hcq', Hans'. rewrite Hans in Hans'. simpl in Hans'.
      exists r'. split; [ exact Hr' | ]. split; [ lia | ]. split; [ exact Hans' | ].
      intros s. rewrite Hans', numbered_keys, length_map.
      split; intros [i [Hi ->]]; exists i; split; auto; lia.
  - intros cited Hne Hlen.
    destruct (submit_cited_counts E chat cited w r Hfind Hne) as [r' [Hr' Hcq']];
      [ lia | lia | ].
    exists r'. split; [ exact Hr' | lia ].
Qed.

(** C2, witness: two answers in order, and two answers that both cite
    question 4. *)
Lemma answers_in_order_witness :
  (exists r',
     find (has_key "123" "m1")
       (questionnaires (submit sample_env "123" 1 [(5, JNum 7); (4, JNum 7)]
                          (sample_world [sample_row in_progress 1 []])))
     = Some r'
     /\ current_question r' = 3
     /\ answers r' = [("1", 5); ("2", 4)])
  /\ (exists r',
        find (has_key "123" "m1")
          (questionnaires
             (submit_cited sample_env "123" [(4, 5, JNum 7); (4, 2, JNum 7)]
                (sample_world [sample_row in_progress 1 []])))
        = Some r'
        /\ current_question r' = 3).
Proof.
  destruct (answers_in_order sample_env "123"
              (sample_world [sample_row in_progress 1 []])
              (sample_row in_progress 1 []) eq_refl eq_refl eq_refl)
    as [Horder Hcited].
  split.
  - destruct (Horder [(5, JNum 7); (4, JNum 7)]) as [r' [Hr' [Hcq [Hans _]]]];
      [ discriminate | simpl; lia | ].
    exists r'. split; [ exact Hr' | ]. split; [ exact Hcq | exact Hans ].
  - destruct (Hcited [(4, 5, JNum 7); (4, 2, JNum 7)]) as [r' [Hr' Hcq]];
      [ discriminate | simpl; lia | ].
    exists r'. split; [ exact Hr' | exact Hcq ].
Defined.

(** ** What a computation adds to the log *)

(** Every event that [c] logs satisfies [P]. *)
Definition emits {A} (P : event -> Prop) (c : M A) : Prop :=
  forall w, exists new, log (after c w) = (log w ++ new)%list /\ Forall P new.

Lemma emits_nothing {A} (P : event -> Prop) (c : M A) :
  (forall w, log (after c w) = log w) -> emits P c.
Proof. intros H w. exists []. rewrite app_nil_r. split; [ apply H | constructor ]. Qed.

Lemma emits_ret {A} (P : event -> Prop) (a : A) : emits P (ret a).
Proof. now apply emits_nothing. Qed.

Lemma emits_raise {A} (P : event -> Prop) (e : exn) : emits P (@raise A e).
Proof. now apply emits_nothing. Qed.

Lemma emits_lift {A} (P : event -> Prop) (o : outcome A) : emits P (lift o).
Proof. now apply emits_nothing. Qed.

Lemma emits_rows (P : event -> Prop) : emits P rows.
Proof. now apply emits_nothing. Qed.

Lemma emits_processed (P : event -> Prop) : emits P processed.
Proof. now apply emits_nothing. Qed.

Lemma emits_set_questionnaires (P : event -> Prop) (rs : list questionnaire) :
  emits P (set_questionnaires rs).
Proof. now apply emits_nothing. Qed.

Lemma emits_set_processed (P : event -> Prop) (ms : list string) :
  emits P (set_processed ms).
Proof. now apply emits_nothing. Qed.

Lemma emits_set_offset (P : event -> Prop) (n : Z) : emits P (set_offset n).
Proof. now apply emits_nothing. Qed.

Lemma emits_now (P : event -> Prop) (E : env) : emits P (now E).
Proof. now apply emits_nothing. Qed.

Lemma emits_sql_text (P : event -> Prop) (j : json) : emits P (sql_text j).
Proof. unfold sql_text. destruct (text_of j); now apply emits_nothing. Qed.

Lemma emits_record (P : event -> Prop) (e : event) : P e -> emits P (record e).
Proof. intros He w. exists [e]. split; [ reflexivity | now constructor ]. Qed.

Lemma emits_execute (P : event -> Prop) (s : statement) :
  P (Executed s) -> emits P (execute s).
Proof. apply emits_record. Qed.

Lemma emits_http (P : event -> Prop) (E : env) (c : call) :
  (forall r, P (Called c r)) -> emits P (http E c).
Proof.
  intros Hc w. exists [Called c (reply_at E (tick w))].
  split; [ | now constructor ].
  unfold after, http. now destruct (reply_at E (tick w)).
Qed.

Lemma emits_bind {A B} (P : event -> Prop) (c : M A) (k : A -> M B) :
  emits P c -> (forall a, emits P (k a)) -> emits P (bind c k).
Proof.
  intros Hc Hk w. rewrite after_bind.
  destruct (Hc w) as [new1 [H1 HP1]].
  destruct (result c w) as [a | e].
  - destruct (Hk a (after c w)) as [new2 [H2 HP2]].
    exists (new1 ++ new2)%list. rewrite H2, H1, app_assoc.
    split; [ reflexivity | now apply Forall_app ].
  - now exists new1.
Qed.


Lemma emits_sql_integer (P : event -> Prop) (n : Z) : emits P (sql_integer n).
Proof. unfold sql_integer. destruct (int64 n); [ apply emits_ret | apply emits_raise ]. Qed.

Create HintDb emits.

#[local] Hint Resolve emits_ret emits_raise emits_lift emits_rows emits_processed
  emits_set_questionnaires emits_set_processed emits_set_offset emits_now
  emits_sql_text emits_sql_integer : emits.

Ltac emits :=
  repeat first
    [ progress auto with emits
    | apply emits_bind; [ | intros ? ]
    | apply emits_http; intros ?; simpl; auto
    | apply emits_execute; simpl; auto
    | apply emits_record; simpl; auto
    | match goal with
      | |- emits _ (if ?b then _ else _) => destruct b
      | |- emits _ (match ?x with _ => _ end) => destruct x
      end ].

(** ** C6: the scores of the feedback record *)

Definition feedback_records (l : list event) : list feedback_data :=
  flat_map (fun e => match e with
                     | Called (CreatePage fb) _ => [fb]
                     | _ => []
                     end) l.

Definition scores (fb : feedback_data) : list Z :=
  [fb_productivity fb; fb_response_speed fb; fb_plan_understanding fb;
   fb_expertise fb; fb_effectiveness fb].

Definition no_record (e : event) : Prop :=
  match e with
  | Called (CreatePage _) _ => False
  | _ => True
  end.

Lemma feedback_records_app (l1 l2 : list event) :
  feedback_records (l1 ++ l2) = (feedback_records l1 ++ feedback_records l2)%list.
Proof. apply flat_map_app. Qed.

Lemma feedback_records_none (l : list event) :
  Forall no_record l -> feedback_records l = [].
Proof.
  induction 1 as [ | e l He _ IH ]; [ reflexivity | ].
  simpl. rewrite IH. destruct e as [[ ] | | ]; simpl in *; tauto.
Qed.

Lemma emits_start_questionnaire (E : env) (chat name : string) (m : json) :
  emits no_record (start_questionnaire E chat name m).
Proof.
  unfold start_questionnaire, update_questionnaire_status, edit_telegram_message.
  emits.
Qed.

Lemma emits_get_meeting_summary (E : env) (m : string) :
  emits no_record (get_meeting_summary E m).
Proof. unfold get_meeting_summary. emits. Qed.

(** The primary key of [questionnaires]. *)
Definition key (r : questionnaire) : string * string := (chat_id r, meeting_id r).

Definition primary_key (rs : list questionnaire) : Prop := NoDup (map key rs).

Lemma primary_key_unique (rs : list questionnaire) (r x : questionnaire) :
  primary_key rs -> In r rs -> In x rs -> key x = key r -> x = r.
Proof.
  unfold primary_key. induction rs as [ | y rs IH ]; simpl; intros Hnd Hr Hx Hk; [ tauto | ].
  inversion Hnd as [ | ? ? Hnot Hrest ]; subst.
  destruct Hr as [-> | Hr], Hx as [-> | Hx]; auto.
  - exfalso. apply Hnot. rewrite <- Hk. now apply in_map.
  - exfalso. apply Hnot. rewrite Hk. now apply in_map.
Qed.

Lemma has_key_key (c m : string) (r : questionnaire) :
  has_key c m r = true <-> key r = (c, m).
Proof. rewrite has_key_eq. unfold key. split; [ intros [-> ->] | intros H; injection H ]; auto. Qed.

(** Code that writes no table, run after [c], leaves the tables of [c]. *)
Lemma then_keep {A B} (c : M A) (k : A -> M B) (w : world) :
  (forall a, keeps_tables (k a)) ->
  questionnaires (after (bind c k) w) = questionnaires (after c w)
  /\ processed_meetings (after (bind c k) w) = processed_meetings (after c w).
Proof.
  intros Hk. rewrite after_bind. destruct (result c w) as [a | e]; [ | now split ].
  apply Hk.
Qed.

Lemma start_questionnaire_tables (E : env) (chat name : string) (m : json)
    (w : world) (r : questionnaire) :
  find (has_status chat pending) (questionnaires w) = Some r ->
  questionnaires (after (start_questionnaire E chat name m) w)
  = update_where chat (meeting_id r) (set_status in_progress 1) (questionnaires w)
  /\ processed_meetings (after (start_questionnaire E chat name m) w)
     = processed_meetings w.
Proof.
  intros Hfind. unfold start_questionnaire. rewrite after_bind. simpl.
  change (after rows w) with w. rewrite Hfind.
  match goal with
  | |- questionnaires (after (bind ?c ?k) w) = _ /\ _ =>
      destruct (then_keep c k w) as [-> ->]; [ intros ?; keeps | ]
  end.
  now split.
Qed.

Lemma start_questionnaire_idle (E : env) (chat name : string) (m : json) (w : world) :
  find (has_status chat pending) (questionnaires w) = None ->
  start_questionnaire E chat name m w = (Ret tt, w).
Proof.
  intros Hfind. unfold start_questionnaire, bind, rows. now rewrite Hfind.
Qed.

Lemma process_answer_idle (E : env) (chat : string) (q points : Z) (m : json)
    (w : world) :
  find (has_status chat in_progress) (questionnaires w) = None ->
  process_answer E chat q points m w = (Ret tt, w).
Proof.
  intros Hfind. unfold process_answer, bind, rows. now rewrite Hfind.
Qed.

(** After a start, the questionnaire started is the one in progress in its
    chat, when no other was. *)
Lemma find_started (chat : string) (rs : list questionnaire) (r : questionnaire) :
  primary_key rs ->
  find (has_status chat pending) rs = Some r ->
  find (has_status chat in_progress) rs = None ->
  find (has_status chat in_progress)
    (update_where chat (meeting_id r) (set_status in_progress 1) rs)
  = Some (set_status in_progress 1 r).
Proof.
  intros Hpk Hfind Hnone.
  destruct (find_some _ _ Hfind) as [Hin Hst]. apply has_status_chat in Hst.
  destruct Hst as [Hchat _].
  assert (forall x, In x rs -> has_key chat (meeting_id r) x = true -> x = r) as Huniq.
  { intros x Hx Hk. apply (primary_key_unique rs); auto.
    apply has_key_key in Hk. rewrite Hk. unfold key. now rewrite Hchat. }
  assert (forall x, In x rs -> has_status chat in_progress x = false) as Hidle
    by (intros x; apply (find_none _ _ Hnone)).
  clear Hfind Hnone Hpk. induction rs as [ | y rs IH ]; simpl in *; [ tauto | ].
  destruct (has_key chat (meeting_id r) y) eqn:Hy.
  - rewrite (Huniq y) by auto. unfold has_status. simpl.
    rewrite Hchat, String.eqb_refl. reflexivity.
  - rewrite (Hidle y) by auto.
    destruct Hin as [-> | Hin].
    + rewrite <- Hchat, has_key_self in Hy. discriminate.
    + apply IH; auto.
Qed.

Lemma process_answer_quiet (E : env) (chat : string) (q points : Z) (m : json)
    (w : world) (r : questionnaire) :
  find (has_status chat in_progress) (questionnaires w) = Some r ->
  current_question r + 1 <= 5 ->
  exists new,
    log (after (process_answer E chat q points m) w) = (log w ++ new)%list
    /\ Forall no_record new.
Proof.
  intros Hfind Hle. unfold process_answer. rewrite after_bind. simpl.
  change (after rows w) with w. rewrite Hfind.
  destruct (current_question r + 1 <=? 5) eqn:H; [ | apply Z.leb_gt in H; lia ].
  match goal with
  | |- exists new, log (after ?c w) = _ /\ _ => assert (emits no_record c) as Hc
  end.
  { unfold edit_telegram_message. emits. }
  apply Hc.
Qed.

Lemma submit_keeps_going (E : env) (chat : string) (events : list (Z * json)) :
  forall (w : world) (r : questionnaire),
    find (has_status chat in_progress) (questionnaires w) = Some r ->
    NoDup (map fst (answers r)) ->
    (forall i, current_question r <= i -> ~ In (str_of_int i) (map fst (answers r))) ->
    0 <= current_question r ->
    current_question r + Z.of_nat (List.length events) <= 5 ->
    exists r' new,
      find (has_status chat in_progress)
        (questionnaires (submit E chat (current_question r) events w)) = Some r'
      /\ meeting_id r' = meeting_id r
      /\ current_question r' = current_question r + Z.of_nat (List.length events)
      /\ answers r' = (answers r ++ numbered (current_question r) (map fst events))%list
      /\ log (submit E chat (current_question r) events w) = (log w ++ new)%list
      /\ Forall no_record new.
Proof.
  induction events as [ | [points message_id] tl IH ];
    intros w r Hfind Hnd Hfresh Hpos Hlen.
  - exists r, []. simpl. rewrite !app_nil_r, Z.add_0_r. repeat split; auto.
  - simpl submit. simpl List.length in Hlen.
    assert (answers (write_answer r (current_question r) points r)
            = (answers r ++ [(str_of_int (current_question r), points)])%list) as Hans.
    { destruct (write_answer_fields r r (current_question r) points) as [_ [-> _]].
      now apply answer_text_fresh. }
    pose proof (process_answer_next E chat (current_question r) points message_id w r
                  Hfind ltac:(lia)) as Hnext.
    destruct (process_answer_quiet E chat (current_question r) points message_id w r
                Hfind ltac:(lia)) as [new1 [Hlog1 Hq1]].
    destruct (write_answer_fields r r (current_question r) points) as [Hcq [_ Hm]].
    destruct (IH _ _ Hnext) as [r' [new2 [Hr' [Hm' [Hcq' [Hans' [Hlog2 Hq2]]]]]]].
    + rewrite Hans, map_app. simpl. apply NoDup_app; [ exact Hnd | repeat constructor; tauto | ].
      intros a Ha [<- | []]. apply (Hfresh (current_question r)); [ lia | exact Ha ].
    + intros i Hi. rewrite Hans, map_app, in_app_iff. simpl. rewrite Hcq in Hi.
      intros [Hin | [Heq | []]].
      * apply (Hfresh i); [ lia | exact Hin ].
      * apply str_of_int_inj in Heq. lia.
    + rewrite Hcq. lia.
    + rewrite Hcq. lia.
    + exists r', (new1 ++ new2)%list. rewrite Hcq in Hr', Hcq', Hans', Hlog2.
      split; [ exact Hr' | ]. split; [ congruence | ].
      split; [ simpl List.length; lia | ].
      split; [ rewrite Hans', Hans, <- app_assoc; reflexivity | ].
      split; [ rewrite Hlog2, Hlog1, app_assoc; reflexivity | now apply Forall_app ].
Qed.

(** ** A run, its log and its outcome together *)

(** From [w], the computation [c] adds [new] to the log, has outcome [o]
    and leaves [w'], with [post new o w']. *)
Definition runs {A} (c : M A) (w : world)
    (post : list event -> outcome A -> world -> Prop) : Prop :=
  exists new,
    log (after c w) = (log w ++ new)%list /\ post new (result c w) (after c w).

Lemma runs_silent {A} (c : M A) (w : world)
    (post : list event -> outcome A -> world -> Prop) :
  log (after c w) = log w -> post [] (result c w) (after c w) -> runs c w post.
Proof. intros Hlog Hpost. exists []. now rewrite app_nil_r. Qed.

Lemma runs_http (E : env) (c : call) (w : world)
    (post : list event -> outcome json -> world -> Prop) :
  post [Called c (reply_at E (tick w))] (result (http E c) w) (after (http E c) w) ->
  runs (http E c) w post.
Proof.
  intros Hpost. exists [Called c (reply_at E (tick w))]. split; [ | exact Hpost ].
  unfold after, http. now destruct (reply_at E (tick w)).
Qed.

Lemma runs_record (e : event) (w : world)
    (post : list event -> outcome unit -> world -> Prop) :
  post [e] (Ret tt) (after (record e) w) -> runs (record e) w post.
Proof. intros Hpost. now exists [e]. Qed.

Lemma runs_bind {A B} (c : M A) (k : A -> M B) (w : world)
    (post : list event -> outcome B -> world -> Prop) :
  runs c w (fun new1 o w1 =>
              match o with
              | Ret a => runs (k a) w1 (fun new2 => post (new1 ++ new2)%list)
              | Raise e => post new1 (Raise e) w1
              end) ->
  runs (bind c k) w post.
Proof.
  intros [new1 [Hlog1 H]]. unfold runs. rewrite after_bind, result_bind.
  destruct (result c w) as [a | e].
  - destruct H as [new2 [Hlog2 H]]. exists (new1 ++ new2)%list.
    rewrite Hlog2, Hlog1, app_assoc. now split.
  - now exists new1.
Qed.

Lemma runs_weaken {A} (c : M A) (w : world)
    (post post' : list event -> outcome A -> world -> Prop) :
  runs c w post -> (forall new o w', post new o w' -> post' new o w') ->
  runs c w post'.
Proof. intros [new [Hlog H]] Himp. exists new. auto. Qed.

Lemma runs_emits_keeps {A} (P : event -> Prop) (c : M A) (w : world) :
  emits P c -> keeps_tables c ->
  runs c w (fun new _ w' =>
              Forall P new
              /\ questionnaires w' = questionnaires w
              /\ processed_meetings w' = processed_meetings w).
Proof.
  intros He Hk. destruct (He w) as [new [Hlog HP]]. exists new.
  destruct (Hk w). auto.
Qed.

(** The closing answer: the record sent to Notion is built from the
    dictionary in memory, whose last key is an integer. *)
Lemma process_answer_last (E : env) (chat : string) (q points : Z) (m : json)
    (w : world) (r : questionnaire) :
  find (has_status chat in_progress) (questionnaires w) = Some r ->
  5 < current_question r + 1 ->
  let ans := dict_set (KInt q) points (json_loads (answers r)) in
  runs (process_answer E chat q points m) w (fun new o _ =>
    (feedback_records new = []
     \/ exists fb, feedback_records new = [fb]
          /\ scores fb = [dict_get_default (KStr "1") ans 0;
                          dict_get_default (KStr "2") ans 0;
                          dict_get_default (KStr "3") ans 0;
                          dict_get_default (KStr "4") ans 0;
                          dict_get_default (KInt 5) ans 0])
    /\ (o = Ret tt -> feedback_records new <> [])).
Proof.
  intros Hfind Hgt ans.
  destruct (find_some _ _ Hfind) as [Hin Hst]. apply has_status_chat in Hst.
  destruct Hst as [Hchat _].
  unfold process_answer. apply runs_bind. apply runs_silent; [ reflexivity | ].
  simpl. change (after rows w) with w. rewrite Hfind. fold ans.
  destruct (current_question r + 1 <=? 5) eqn:H; [ apply Z.leb_le in H; lia | ].
  apply runs_bind. unfold sql_integer.
  destruct (int64 (current_question r + 1));
    (apply runs_silent; [ reflexivity | ]); simpl; [ | split; [ now left | discriminate ] ].
  apply runs_bind, runs_silent; [ reflexivity | ]. simpl.
  apply runs_bind, runs_record. simpl.
  set (rs' := update_where chat (meeting_id r) _ _).
  apply runs_bind.
  eapply runs_weaken;
    [ apply (runs_emits_keeps no_record);
      [ apply emits_get_meeting_summary | apply keeps_get_meeting_summary ] | ].
  simpl. intros new1 [summary | e] w1 [Hq1 [Hrows1 _]];
    [ | rewrite (feedback_records_none _ Hq1); split; [ now left | discriminate ] ].
  apply runs_bind.
  eapply runs_weaken;
    [ apply (runs_emits_keeps no_record);
      [ unfold edit_telegram_message; emits | apply keeps_edit_telegram_message ] | ].
  simpl. intros new2 [? | e] w2 [Hq2 [Hrows2 _]];
    [ | rewrite !feedback_records_app, (feedback_records_none _ Hq1),
          (feedback_records_none _ Hq2);
        split; [ now left | discriminate ] ].
  rewrite Hrows1 in Hrows2. simpl in Hrows2.
  assert (exists x, find (has_key chat (meeting_id r)) (questionnaires w2) = Some x)
    as [x Hx].
  { rewrite Hrows2. unfold rs'. rewrite find_update_where by auto with keeps.
    destruct (find (has_key chat (meeting_id r)) (questionnaires w)) as [x | ] eqn:Hx;
      [ simpl; eauto | ].
    apply (find_none _ _ Hx) in Hin. rewrite <- Hchat, has_key_self in Hin.
    discriminate. }
  apply runs_weaken with (post := fun new0 o _ =>
    (feedback_records new0 = []
     \/ exists fb, feedback_records new0 = [fb]
          /\ scores fb = [dict_get_default (KStr "1") ans 0;
                          dict_get_default (KStr "2") ans 0;
                          dict_get_default (KStr "3") ans 0;
                          dict_get_default (KStr "4") ans 0;
                          dict_get_default (KInt 5) ans 0])
    /\ (o = Ret tt -> feedback_records new0 <> []));
    [ | intros new0 o _;
        now rewrite !feedback_records_app, (feedback_records_none _ Hq1),
          (feedback_records_none _ Hq2) ].
  apply runs_bind. unfold save_feedback_to_notion.
  apply runs_bind, runs_silent; [ reflexivity | ]. simpl.
  change (after rows w2) with w2. rewrite Hx.
  apply runs_bind, runs_silent; [ reflexivity | ]. simpl.
  apply runs_bind, runs_http. simpl.
  destruct (result (http E _) _) as [reply | e]; simpl.
  - apply runs_silent; [ reflexivity | ]. simpl.
    eapply runs_weaken;
      [ apply (runs_emits_keeps no_record);
        [ unfold mark_notion_meeting_completed; emits
        | apply keeps_mark_notion_meeting_completed ] | ].
    simpl. intros new3 o w3 [Hq3 _]. rewrite (feedback_records_none _ Hq3).
    split; [ right; eexists; split; reflexivity | discriminate ].
  - split; [ right; eexists; split; reflexivity | discriminate ].
Qed.

Definition fresh_world : world :=
  mkWorld [sample_row pending 0 []] ["m1"] 0 0 [].

(** The chat has a questionnaire for the meeting m0 in progress, at question
    4, when the meeting m1 is discovered. *)
Definition two_meetings : world :=
  after (process_meeting sample_env (sample_meeting "m1" "Sprint Review" 123))
    (after (process_answer sample_env "123" 3 2 (JNum 100))
    (after (process_answer sample_env "123" 2 2 (JNum 100))
    (after (process_answer sample_env "123" 1 2 (JNum 100))
    (after (start_questionnaire sample_env "123" "Kick-off" (JNum 100))
    (after (process_meeting sample_env (sample_meeting "m0" "Kick-off" 123))
       initial_world))))).

(** Every call is answered but the sixth, which does not return. *)
Definition sixth_call_fails : env :=
  mkEnv (fun n => if Nat.eqb n 5 then None else Some sample_reply)
        (fun _ => "2025-01-01T00:00:00") (fun _ => "").

(** The run of the claim: start, then the scores 5, 4, 3, 2, 1 for the
    questions 1 to 5; the outcome of the closing answer and the world it
    leaves. *)
Definition round_trip (E : env) (chat name : string) (w : world)
    : outcome unit * world :=
  let w1 := after (start_questionnaire E chat name (JNum 100)) w in
  let w5 := submit E chat 1 [(5, JNum 100); (4, JNum 100); (3, JNum 100); (2, JNum 100)]
              w1 in
  process_answer E chat 5 1 (JNum 100) w5.

(** C6, counterexample: the questionnaire of m1 is pending, without answers,
    and m0 comes before it in the table.  The pending questionnaire is
    started and the five scores are given in order: the first two go to m0,
    which is closed with the only feedback record of the run, for m0 and with
    the scores 5, 2, 2, 0, 0; the questionnaire of m1 is left at question 4.
    And with a single questionnaire, when the fetch of the summary fails, the
    questionnaire is completed and no record is sent. *)
Lemma answers_reach_another_questionnaire :
  (primary_key (questionnaires two_meetings)
   /\ map (fun r => (meeting_id r, q_status r, current_question r, answers r))
        (questionnaires two_meetings)
      = [("m0", in_progress, 4, [("1", 2); ("2", 2); ("3", 2)]);
         ("m1", pending, 0, [])]
   /\ feedback_records (log two_meetings) = []
   /\ fst (round_trip sample_env "123" "Sprint Review" two_meetings) = Ret tt
   /\ map (fun fb => (fb_meeting fb, scores fb))
        (feedback_records
           (log (snd (round_trip sample_env "123" "Sprint Review" two_meetings))))
      = [("m0", [5; 2; 2; 0; 0])]
   /\ map (fun r => (meeting_id r, q_status r, current_question r))
        (questionnaires (snd (round_trip sample_env "123" "Sprint Review" two_meetings)))
      = [("m0", completed, 6); ("m1", in_progress, 4)])
  /\ (fst (round_trip sixth_call_fails "123" "Sprint Review" fresh_world)
      = Raise ClientError
      /\ feedback_records
           (log (snd (round_trip sixth_call_fails "123" "Sprint Review" fresh_world)))
         = []
      /\ map (fun r => (meeting_id r, q_status r, current_question r))
           (questionnaires
              (snd (round_trip sixth_call_fails "123" "Sprint Review" fresh_world)))
         = [("m1", completed, 6)]).
Proof.
  split.
  - split; [ | now vm_compute ].
    vm_compute. repeat constructor; simpl; intuition discriminate.
  - now vm_compute.
Qed.

(** C6: a pending questionnaire of a chat that has no questionnaire in
    progress is started and the five questions are answered in order with the
    scores 5, 4, 3, 2, 1.  The closing answer sends at most one feedback
    record, its five score fields are 5, 4, 3, 2, 1 for questions 1 to 5, and
    it is sent whenever the closing answer returns (the summary is fetched
    and the closing text is put in the chat). *)
Theorem scores_round_trip (E : env) (chat name : string)
    (m0 m1 m2 m3 m4 m5 : json) (w : world) (r : questionnaire) :
  primary_key (questionnaires w) ->
  find (has_status chat pending) (questionnaires w) = Some r ->
  answers r = [] ->
  find (has_status chat in_progress) (questionnaires w) = None ->
  let w1 := after (start_questionnaire E chat name m0) w in
  let w5 := submit E chat 1 [(5, m1); (4, m2); (3, m3); (2, m4)] w1 in
  exists new,
    log (after (process_answer E chat 5 1 m5) w5) = (log w ++ new)%list
    /\ (feedback_records new = []
        \/ exists fb, feedback_records new = [fb] /\ scores fb = [5; 4; 3; 2; 1])
    /\ (result (process_answer E chat 5 1 m5) w5 = Ret tt ->
        feedback_records new <> []).
Proof.
  intros Hpk Hpending Hfresh Hidle w1 w5.
  destruct (start_questionnaire_tables E chat name m0 w r Hpending) as [Hrows1 _].
  fold w1 in Hrows1.
  destruct (emits_start_questionnaire E chat name m0 w) as [new0 [Hlog0 Hq0]].
  fold w1 in Hlog0.
  pose proof (find_started chat _ r Hpk Hpending Hidle) as Hstarted.
  rewrite <- Hrows1 in Hstarted.
  set (r1 := set_status in_progress 1 r) in *.
  destruct (submit_keeps_going E chat [(5, m1); (4, m2); (3, m3); (2, m4)] w1 r1 Hstarted)
    as [r5 [new1 [Hr5 [_ [Hcq5 [Hans5 [Hlog1 Hq1]]]]]]].
  - simpl. rewrite Hfresh. constructor.
  - simpl. rewrite Hfresh. intros i _ [].
  - simpl. lia.
  - simpl. lia.
  - change (submit E chat (current_question r1) _ w1) with w5 in Hr5, Hlog1.
    simpl in Hcq5, Hans5. rewrite Hfresh in Hans5. simpl in Hans5.
    destruct (process_answer_last E chat 5 1 m5 w5 r5 Hr5 ltac:(lia))
      as [new2 [Hlog2 [Hrec Hret]]].
    exists (new0 ++ new1 ++ new2)%list.
    rewrite Hlog2, Hlog1, Hlog0, !feedback_records_app,
      (feedback_records_none _ Hq0), (feedback_records_none _ Hq1), <- !app_assoc.
    simpl. split; [ reflexivity | ]. split; [ | exact Hret ].
    destruct Hrec as [Hnone | [fb [Hfb Hsc]]]; [ now left | right ].
    exists fb. split; [ exact Hfb | ]. rewrite Hsc, Hans5. reflexivity.
Qed.

(** C6, witness. *)
Lemma scores_round_trip_witness :
  exists new,
    log (after (process_answer sample_env "123" 5 1 (JNum 7))
           (submit sample_env "123" 1
              [(5, JNum 7); (4, JNum 7); (3, JNum 7); (2, JNum 7)]
              (after (start_questionnaire sample_env "123" "Sprint Review" (JNum 7))
                 fresh_world)))
    = (log fresh_world ++ new)%list
    /\ exists fb, feedback_records new = [fb] /\ scores fb = [5; 4; 3; 2; 1].
Proof.
  destruct (scores_round_trip sample_env "123" "Sprint Review"
              (JNum 7) (JNum 7) (JNum 7) (JNum 7) (JNum 7) (JNum 7)
              fresh_world (sample_row pending 0 []))
    as [new [Hlog [Hrec Hret]]].
  - repeat constructor. simpl. tauto.
  - reflexivity.
  - reflexivity.
  - reflexivity.
  - exists new. split; [ exact Hlog | ].
    destruct Hrec as [Hnone | Hfb]; [ | exact Hfb ].
    exfalso. apply Hret; [ reflexivity | exact Hnone ].
Defined.

(** ** Stepping through a computation *)

Lemma bind_ret {A B} (a : A) (k : A -> M B) (w : world) : bind (ret a) k w = k a w.
Proof. reflexivity. Qed.

Lemma bind_raise {A B} (e : exn) (k : A -> M B) (w : world) :
  bind (raise e) k w = (Raise e, w).
Proof. reflexivity. Qed.

Lemma bind_lift {A B} (o : outcome A) (k : A -> M B) (w : world) :
  bind (lift o) k w = match o with Ret a => k a w | Raise e => (Raise e, w) end.
Proof. now destruct o. Qed.

Lemma bind_bind {A B C} (c : M A) (k1 : A -> M B) (k2 : B -> M C) (w : world) :
  bind (bind c k1) k2 w = bind c (fun a => bind (k1 a) k2) w.
Proof. unfold bind. destruct (c w) as [[a | e] w1]; reflexivity. Qed.

Lemma bind_rows {B} (k : list questionnaire -> M B) (w : world) :
  bind rows k w = k (questionnaires w) w.
Proof. reflexivity. Qed.

Lemma bind_processed {B} (k : list string -> M B) (w : world) :
  bind processed k w = k (processed_meetings w) w.
Proof. reflexivity. Qed.

Lemma bind_sql_text {B} (j : json) (k : string -> M B) (w : world) :
  bind (sql_text j) k w
  = match text_of j with Some s => k s w | None => (Raise (bind_error j), w) end.
Proof. unfold sql_text. now destruct (text_of j). Qed.

Definition answered (E : env) (w : world) (c : call) : world :=
  mkWorld (questionnaires w) (processed_meetings w) (offset w) (S (tick w))
    (log w ++ [Called c (reply_at E (tick w))]).

Lemma bind_http {B} (E : env) (c : call) (k : json -> M B) (w : world) :
  bind (http E c) k w
  = match reply_at E (tick w) with
    | Some j => k j (answered E w c)
    | None => (Raise ClientError, answered E w c)
    end.
Proof. unfold bind, http, answered. now destruct (reply_at E (tick w)). Qed.

Definition ticked (w : world) : world :=
  mkWorld (questionnaires w) (processed_meetings w) (offset w) (S (tick w)) (log w).

Lemma bind_now {B} (E : env) (k : string -> M B) (w : world) :
  bind (now E) k w = k (now_at E (tick w)) (ticked w).
Proof. reflexivity. Qed.

Definition logged (w : world) (e : event) : world :=
  mkWorld (questionnaires w) (processed_meetings w) (offset w) (tick w) (log w ++ [e]).

Lemma bind_execute {B} (s : statement) (k : unit -> M B) (w : world) :
  bind (execute s) k w = k tt (logged w (Executed s)).
Proof. reflexivity. Qed.

Definition with_questionnaires (w : world) (rs : list questionnaire) : world :=
  mkWorld rs (processed_meetings w) (offset w) (tick w) (log w).

Lemma bind_set_questionnaires {B} (rs : list questionnaire) (k : unit -> M B)
    (w : world) :
  bind (set_questionnaires rs) k w = k tt (with_questionnaires w rs).
Proof. reflexivity. Qed.

Definition with_processed (w : world) (ms : list string) : world :=
  mkWorld (questionnaires w) ms (offset w) (tick w) (log w).

Lemma bind_set_processed {B} (ms : list string) (k : unit -> M B) (w : world) :
  bind (set_processed ms) k w = k tt (with_processed w ms).
Proof. reflexivity. Qed.

Lemma run_execute (s : statement) (w : world) :
  execute s w = (Ret tt, logged w (Executed s)).
Proof. reflexivity. Qed.

Lemma run_lift {A} (o : outcome A) (w : world) : lift o w = (o, w).
Proof. reflexivity. Qed.

Lemma run_ret {A} (a : A) (w : world) : ret a w = (Ret a, w).
Proof. reflexivity. Qed.

Lemma run_raise {A} (e : exn) (w : world) : @raise A e w = (Raise e, w).
Proof. reflexivity. Qed.

Ltac mstep :=
  repeat first
    [ rewrite bind_bind | rewrite bind_ret | rewrite bind_raise | rewrite bind_lift
    | rewrite bind_rows | rewrite bind_processed | rewrite bind_sql_text
    | rewrite bind_http | rewrite bind_now | rewrite bind_execute
    | rewrite bind_set_questionnaires | rewrite bind_set_processed
    | rewrite run_execute | rewrite run_lift | rewrite run_ret | rewrite run_raise ].

(** ** C4: the order of the steps of discovery *)

Definition id_of (meeting : json) : option string :=
  match subscript meeting "id" with
  | Ret j => text_of j
  | Raise _ => None
  end.

(** The message reference a reply to [sendMessage] carries, as stored. *)
Definition message_reference (reply : option json) : option string :=
  match reply with
  | Some j =>
      match path [K "result"; K "message_id"] j with
      | Ret leaf => text_of leaf
      | Raise _ => None
      end
  | None => None
  end.

Definition new_row (r : questionnaire) : Prop :=
  q_status r = pending /\ current_question r = 0 /\ answers r = []
  /\ last_message_id r = None.

Definition same_tables (w w' : world) : Prop :=
  questionnaires w' = questionnaires w
  /\ processed_meetings w' = processed_meetings w.

(** What [process_meeting] does to the tables and the chat, case by case. *)
Inductive discovery (meeting : json) (w : world)
    : list event -> outcome unit -> world -> Prop :=
| discovery_failed (e : exn) (w' : world) :
    same_tables w w' ->
    discovery meeting w [] (Raise e) w'
| discovery_skipped (m : string) (w' : world) :
    id_of meeting = Some m ->
    In m (processed_meetings w) ->
    same_tables w w' ->
    discovery meeting w [] (Ret tt) w'
| discovery_inserted (row : questionnaire) (text : string) (kb : keyboard)
    (reply : option json) (e : exn) (w' : world) :
    id_of meeting = Some (meeting_id row) ->
    ~ In (meeting_id row) (processed_meetings w) ->
    existsb (has_key (chat_id row) (meeting_id row)) (questionnaires w) = false ->
    new_row row ->
    message_reference reply = None ->
    questionnaires w' = (questionnaires w ++ [row])%list ->
    processed_meetings w' = processed_meetings w ->
    discovery meeting w
      [Executed (InsertQuestionnaire row);
       Called (SendMessage (JStr (chat_id row)) text (Some kb)) reply]
      (Raise e) w'
| discovery_done (row : questionnaire) (text : string) (kb : keyboard)
    (reply : option json) (v : string) (w' : world) :
    id_of meeting = Some (meeting_id row) ->
    ~ In (meeting_id row) (processed_meetings w) ->
    existsb (has_key (chat_id row) (meeting_id row)) (questionnaires w) = false ->
    new_row row ->
    message_reference reply = Some v ->
    questionnaires w'
    = update_where (chat_id row) (meeting_id row) (set_last_message_id v)
        (questionnaires w ++ [row]) ->
    processed_meetings w' = (processed_meetings w ++ [meeting_id row])%list ->
    discovery meeting w
      [Executed (InsertQuestionnaire row);
       Called (SendMessage (JStr (chat_id row)) text (Some kb)) reply;
       Executed (UpdateLastMessage (chat_id row) (meeting_id row) v);
       Executed (InsertProcessed (meeting_id row))]
      (Ret tt) w'.

(** The name of the mentor is fetched before anything else is done. *)
Definition name_fetch (l : list event) : Prop :=
  l = [] \/ exists page reply, l = [Called (GetPage page) reply].

Lemma existsb_eqb_In (m : string) (ms : list string) :
  existsb (String.eqb m) ms = true <-> In m ms.
Proof.
  rewrite existsb_exists. split.
  - intros [x [Hin Heq]]. apply String.eqb_eq in Heq. now subst.
  - intros Hin. exists m. split; [ exact Hin | apply String.eqb_refl ].
Qed.

Ltac mstep_in H :=
  repeat first
    [ rewrite bind_bind in H | rewrite bind_ret in H | rewrite bind_raise in H
    | rewrite bind_lift in H | rewrite bind_rows in H | rewrite bind_processed in H
    | rewrite bind_sql_text in H | rewrite bind_http in H | rewrite bind_now in H
    | rewrite bind_execute in H | rewrite bind_set_questionnaires in H
    | rewrite bind_set_processed in H | rewrite run_execute in H
    | rewrite run_lift in H | rewrite run_ret in H | rewrite run_raise in H ].

Lemma run_inv {A} (o o' : outcome A) (w w' : world) :
  (o, w) = (o', w') -> o' = o /\ w' = w.
Proof. intros H. now injection H. Qed.

(** A failure before the row is inserted. *)
Ltac early_failure H :=
  apply run_inv in H; destruct H as [-> ->];
  first
    [ exists [], []; simpl; rewrite app_nil_r;
      split; [ reflexivity | split; [ now left | now constructor ] ]
    | eexists [_], []; simpl;
      split; [ reflexivity | split; [ right; eauto | now constructor ] ] ].

Lemma process_meeting_discovery (E : env) (meeting : json) (w : world) :
  exists fetch steps,
    log (after (process_meeting E meeting) w) = (log w ++ fetch ++ steps)%list
    /\ name_fetch fetch
    /\ discovery meeting w steps (result (process_meeting E meeting) w)
         (after (process_meeting E meeting) w).
Proof.
  unfold after, result.
  destruct (process_meeting E meeting w) as [o w'] eqn:Hrun. simpl.
  unfold process_meeting, get_notion_page_name in Hrun.
  mstep_in Hrun.
  destruct (subscript meeting "properties") as [properties | ?] eqn:Hprop;
    [ | early_failure Hrun ].
  mstep_in Hrun.
  destruct (subscript meeting "id") as [mid | ?] eqn:Hid; [ | early_failure Hrun ].
  mstep_in Hrun.
  destruct (path _ properties) as [name | ?] in Hrun; [ | early_failure Hrun ].
  mstep_in Hrun.
  destruct (path _ properties) as [mentor_relation | ?] in Hrun; [ | early_failure Hrun ].
  mstep_in Hrun.
  destruct (reply_at E (tick w)) as [data | ] eqn:Hreply0; [ | early_failure Hrun ].
  mstep_in Hrun.
  destruct (path _ data) as [mentor_name | ?] in Hrun; [ | early_failure Hrun ].
  destruct (path _ properties) as [student | ?] in Hrun; [ | early_failure Hrun ].
  mstep_in Hrun.
  destruct (path _ properties) as [chat_id_array | ?] in Hrun; [ | early_failure Hrun ].
  mstep_in Hrun.
  destruct (path _ chat_id_array) as [number | ?] in Hrun; [ | early_failure Hrun ].
  unfold is_meeting_processed in Hrun. mstep_in Hrun.
  set (w0 := answered E w (GetPage (py_str E mentor_relation))) in *.
  destruct (text_of mid) as [m | ] eqn:Hm; [ | early_failure Hrun ].
  assert (id_of meeting = Some m) as Hidm by (unfold id_of; now rewrite Hid).
  mstep_in Hrun. change (processed_meetings w0) with (processed_meetings w) in Hrun.
  destruct (existsb (String.eqb m) (processed_meetings w)) eqn:Hdone.
  { mstep_in Hrun. apply run_inv in Hrun. destruct Hrun as [-> ->].
    eexists [_], []. simpl. split; [ reflexivity | split; [ right; eauto | ] ].
    apply discovery_skipped with (m := m); [ exact Hidm | | now split ].
    now apply existsb_eqb_In. }
  assert (~ In m (processed_meetings w)) as Hnew.
  { intros Hin. apply existsb_eqb_In in Hin. congruence. }
  unfold save_questionnaire in Hrun. mstep_in Hrun. rewrite Hm in Hrun.
  cbv iota beta in Hrun. mstep_in Hrun.
  destruct (text_of name) as [name_text | ] eqn:Hname; [ | early_failure Hrun ].
  mstep_in Hrun.
  destruct (text_of student) as [student_text | ] eqn:Hstudent; [ | early_failure Hrun ].
  mstep_in Hrun. change (questionnaires (ticked w0)) with (questionnaires w) in Hrun.
  destruct (existsb (has_key (py_str E number) m) (questionnaires w)) eqn:Hkey;
    [ mstep_in Hrun; early_failure Hrun | ].
  mstep_in Hrun.
  set (row := mkQuestionnaire _ _ _ _ _ _ _ _ _) in *.
  unfold send_initial_message, send_telegram_message in Hrun. mstep_in Hrun.
  set (w1 := logged _ (Executed (InsertQuestionnaire row))) in *.
  assert (new_row row) as Hrow by (now repeat split).
  destruct (reply_at E (tick w1)) as [j | ] eqn:Hreply1.
  2:{ apply run_inv in Hrun. destruct Hrun as [-> ->].
      eexists [_], [_; _]. simpl. simpl in Hreply1. rewrite Hreply1.
      split; [ rewrite <- !app_assoc; reflexivity | split; [ right; eauto | ] ].
      now apply (discovery_inserted meeting w row). }
  mstep_in Hrun.
  destruct (path [K "result"; K "message_id"] j) as [leaf | ?] eqn:Hleaf.
  2:{ apply run_inv in Hrun. destruct Hrun as [-> ->].
      eexists [_], [_; _]. simpl. simpl in Hreply1. rewrite Hreply1.
      split; [ rewrite <- !app_assoc; reflexivity | split; [ right; eauto | ] ].
      apply (discovery_inserted meeting w row); auto.
      unfold message_reference. now rewrite Hleaf. }
  unfold update_last_message_id in Hrun. mstep_in Hrun.
  destruct (text_of leaf) as [v | ] eqn:Hv.
  2:{ apply run_inv in Hrun. destruct Hrun as [-> ->].
      eexists [_], [_; _]. simpl. simpl in Hreply1. rewrite Hreply1.
      split; [ rewrite <- !app_assoc; reflexivity | split; [ right; eauto | ] ].
      apply (discovery_inserted meeting w row); auto.
      unfold message_reference. now rewrite Hleaf. }
  mstep_in Hrun. rewrite Hm in Hrun. cbv iota beta in Hrun.
  mstep_in Hrun. unfold mark_meeting_processed in Hrun. mstep_in Hrun.
  rewrite Hm in Hrun. cbv iota beta in Hrun. mstep_in Hrun.
  match type of Hrun with
  | context [existsb (String.eqb m) ?ms] =>
      change ms with (processed_meetings w) in Hrun
  end.
  rewrite Hdone in Hrun. mstep_in Hrun.
  apply run_inv in Hrun. destruct Hrun as [-> ->].
  eexists [_], [_; _; _; _]. simpl. simpl in Hreply1. rewrite Hreply1.
  split; [ rewrite <- !app_assoc; reflexivity | split; [ right; eauto | ] ].
  apply (discovery_done meeting w row); auto.
  unfold message_reference. now rewrite Hleaf.
Qed.


(** The button of the first prompt of a questionnaire. *)
Definition start_button (r : questionnaire) : keyboard :=
  [("Начать", "start," ++ chat_id r ++ "," ++ meeting_name r)].

(** The four steps, in their order. *)
Definition enqueued (row : questionnaire) (text : string) (kb : keyboard)
    (reply : option json) (v : string) : list event :=
  [Executed (InsertQuestionnaire row);
   Called (SendMessage (JStr (chat_id row)) text (Some kb)) reply;
   Executed (UpdateLastMessage (chat_id row) (meeting_id row) v);
   Executed (InsertProcessed (meeting_id row))].

(** The text of the first prompt, for a meeting and its mentor. *)
Definition prompt (meeting_name mentor_name : string) : string :=
  "Пожалуйста, оставьте обратную связь по встрече:" ++ String "010" "" ++
  "<b>" ++ meeting_name ++ "</b> с ментором " ++ mentor_name ++ ".".

Lemma text_of_py_str (E : env) (j : json) (s : string) :
  text_of j = Some s -> py_str E j = s.
Proof.
  destruct j as [ t | n | | ]; simpl; try discriminate.
  - now intros [= ->].
  - destruct (_ && _); [ now intros [= ->] | discriminate ].
Qed.

(** A failure on the way: the run did not return. *)
Ltac did_not_return H :=
  apply run_inv in H; destruct H as [H _]; congruence.

(** A meeting that [process_meeting] returns from without finding it
    marked: the log and the tables, in full. *)
Lemma process_meeting_enqueues (E : env) (meeting : json) (w : world) (m : string) :
  id_of meeting = Some m ->
  ~ In m (processed_meetings w) ->
  result (process_meeting E meeting) w = Ret tt ->
  exists page data name mentor number row reply v,
    log (after (process_meeting E meeting) w)
    = (log w ++ Called (GetPage page) (Some data)
         :: enqueued row (prompt (meeting_name row) (py_str E mentor))
              (start_button row) reply v)%list
    /\ path [K "properties"; K "Name"; K "title"; At0; K "text"; K "content"] data
       = Ret mentor
    /\ path [K "properties"; K "Name"; K "title"; At0; K "text"; K "content"] meeting
       = Ret name
    /\ text_of name = Some (meeting_name row)
    /\ path [K "properties"; K "TG_CHAT_ID"; K "rollup"; K "array"] meeting
       = Ret number
    /\ obind (path [At0; K "number"] number) (fun n => Ret (py_str E n))
       = Ret (chat_id row)
    /\ meeting_id row = m
    /\ new_row row
    /\ message_reference reply = Some v
    /\ questionnaires (after (process_meeting E meeting) w)
       = (questionnaires w
          ++ [mkQuestionnaire (chat_id row) m (meeting_name row) (student_id row)
                pending 0 [] (Some v) (created_at row)])%list
    /\ processed_meetings (after (process_meeting E meeting) w)
       = (processed_meetings w ++ [m])%list.
Proof.
  intros Hidm Hnew Hret. unfold after, result in *.
  destruct (process_meeting E meeting w) as [o w'] eqn:Hrun. simpl in *. subst o.
  unfold process_meeting, get_notion_page_name in Hrun.
  mstep_in Hrun.
  destruct (subscript meeting "properties") as [properties | ?] eqn:Hprop;
    [ | did_not_return Hrun ].
  mstep_in Hrun. unfold id_of in Hidm.
  destruct (subscript meeting "id") as [mid | ?] eqn:Hid; [ | discriminate ].
  mstep_in Hrun.
  destruct (path [K "Name"; K "title"; At0; K "text"; K "content"] properties)
    as [name | ?] eqn:Hname; [ | did_not_return Hrun ].
  mstep_in Hrun.
  destruct (path _ properties) as [mentor_relation | ?] in Hrun;
    [ | did_not_return Hrun ].
  mstep_in Hrun.
  destruct (reply_at E (tick w)) as [data | ] eqn:Hreply0; [ | did_not_return Hrun ].
  mstep_in Hrun.
  destruct (path [K "properties"; K "Name"; K "title"; At0; K "text"; K "content"] data)
    as [mentor | ?] eqn:Hmentor; [ | did_not_return Hrun ].
  destruct (path _ properties) as [student | ?] in Hrun; [ | did_not_return Hrun ].
  mstep_in Hrun.
  destruct (path [K "TG_CHAT_ID"; K "rollup"; K "array"] properties)
    as [chat_id_array | ?] eqn:Harray; [ | did_not_return Hrun ].
  mstep_in Hrun.
  destruct (path [At0; K "number"] chat_id_array) as [number | ?] eqn:Hnumber;
    [ | did_not_return Hrun ].
  unfold is_meeting_processed in Hrun. mstep_in Hrun.
  set (w0 := answered E w (GetPage (py_str E mentor_relation))) in *.
  rewrite Hidm in Hrun. cbv iota beta in Hrun.
  mstep_in Hrun. change (processed_meetings w0) with (processed_meetings w) in Hrun.
  assert (existsb (String.eqb m) (processed_meetings w) = false) as Hdone.
  { destruct (existsb (String.eqb m) (processed_meetings w)) eqn:Hex; [ | reflexivity ].
    apply existsb_eqb_In in Hex. contradiction. }
  rewrite Hdone in Hrun.
  unfold save_questionnaire in Hrun. mstep_in Hrun. rewrite Hidm in Hrun.
  cbv iota beta in Hrun. mstep_in Hrun.
  destruct (text_of name) as [name_text | ] eqn:Hname_text; [ | did_not_return Hrun ].
  mstep_in Hrun.
  destruct (text_of student) as [student_text | ] eqn:Hstudent; [ | did_not_return Hrun ].
  mstep_in Hrun. change (questionnaires (ticked w0)) with (questionnaires w) in Hrun.
  destruct (existsb (has_key (py_str E number) m) (questionnaires w)) eqn:Hkey;
    [ mstep_in Hrun; did_not_return Hrun | ].
  mstep_in Hrun.
  set (row := mkQuestionnaire _ _ _ _ _ _ _ _ _) in *.
  unfold send_initial_message, send_telegram_message in Hrun. mstep_in Hrun.
  set (w1 := logged _ (Executed (InsertQuestionnaire row))) in *.
  destruct (reply_at E (tick w1)) as [j | ] eqn:Hreply1; [ | did_not_return Hrun ].
  mstep_in Hrun.
  destruct (path [K "result"; K "message_id"] j) as [leaf | ?] eqn:Hleaf;
    [ | did_not_return Hrun ].
  unfold update_last_message_id in Hrun. mstep_in Hrun.
  destruct (text_of leaf) as [v | ] eqn:Hv; [ | did_not_return Hrun ].
  mstep_in Hrun. rewrite Hidm in Hrun. cbv iota beta in Hrun.
  mstep_in Hrun. unfold mark_meeting_processed in Hrun. mstep_in Hrun.
  rewrite Hidm in Hrun. cbv iota beta in Hrun. mstep_in Hrun.
  match type of Hrun with
  | context [existsb (String.eqb m) ?ms] =>
      change ms with (processed_meetings w) in Hrun
  end.
  rewrite Hdone in Hrun. mstep_in Hrun.
  apply run_inv in Hrun. destruct Hrun as [_ ->].
  exists (py_str E mentor_relation), data, name, mentor, chat_id_array, row, (Some j), v.
  split.
  { simpl. simpl in Hreply1. rewrite Hreply1, Hreply0.
    rewrite (text_of_py_str E name name_text Hname_text).
    unfold enqueued, prompt, start_button. simpl. rewrite <- !app_assoc. reflexivity. }
  split; [ exact Hmentor | ].
  split; [ exact Hname | ].
  split; [ exact Hname_text | ].
  split; [ exact Harray | ].
  split.
  { change (obind (path [At0; K "number"] chat_id_array)
              (fun n => Ret (py_str E n)) = Ret (py_str E number)).
    now rewrite Hnumber. }
  split; [ reflexivity | ]. split; [ now repeat split | ].
  split; [ unfold message_reference; now rewrite Hleaf | ].
  split; [ | reflexivity ].
  simpl. rewrite update_where_app, (update_where_fresh _ _ _ _ Hkey). simpl.
  unfold has_key. simpl. now rewrite !String.eqb_refl.
Qed.

(** C4: what [process_meeting] does, after fetching the mentor's name, is
    one of: nothing; the insert of a pending row with question 0 and no
    answers, then the send of the prompt; or insert, send, storing the
    message reference on the row and marking the meeting processed, in this
    order.  A meeting that is not in the set, when [process_meeting] returns,
    has gone through the four steps: the row inserted is pending, at
    question 0, without answers or message reference, and carries the name
    and the chat of the meeting's record; the prompt names the meeting and
    the mentor and has the one button that starts the questionnaire; the
    row is then in the table with the reference of the reply in
    [last_message_id], and the meeting id is the last of the set.  And a
    meeting is marked only after a send that returned a message
    reference. *)
Theorem process_meeting_order (E : env) (meeting : json) (w : world) :
  exists fetch steps,
    log (after (process_meeting E meeting) w) = (log w ++ fetch ++ steps)%list
    /\ name_fetch fetch
    /\ discovery meeting w steps (result (process_meeting E meeting) w)
         (after (process_meeting E meeting) w)
    /\ (forall m,
          id_of meeting = Some m -> ~ In m (processed_meetings w) ->
          result (process_meeting E meeting) w = Ret tt ->
          exists page data name mentor array row reply v,
            fetch = [Called (GetPage page) (Some data)]
            /\ steps
               = enqueued row (prompt (meeting_name row) (py_str E mentor))
                   (start_button row) reply v
            /\ path [K "properties"; K "Name"; K "title"; At0; K "text"; K "content"]
                 data = Ret mentor
            /\ path [K "properties"; K "Name"; K "title"; At0; K "text"; K "content"]
                 meeting = Ret name
            /\ text_of name = Some (meeting_name row)
            /\ path [K "properties"; K "TG_CHAT_ID"; K "rollup"; K "array"] meeting
               = Ret array
            /\ obind (path [At0; K "number"] array) (fun n => Ret (py_str E n))
               = Ret (chat_id row)
            /\ meeting_id row = m /\ new_row row
            /\ message_reference reply = Some v
            /\ questionnaires (after (process_meeting E meeting) w)
               = (questionnaires w
                  ++ [mkQuestionnaire (chat_id row) m (meeting_name row)
                        (student_id row) pending 0 [] (Some v) (created_at row)])%list
            /\ processed_meetings (after (process_meeting E meeting) w)
               = (processed_meetings w ++ [m])%list)
    /\ (forall m,
          In (Executed (InsertProcessed m)) steps ->
          exists row text kb reply v,
            steps = enqueued row text kb reply v
            /\ meeting_id row = m
            /\ message_reference reply = Some v).
Proof.
  destruct (process_meeting_discovery E meeting w) as [fetch [steps [Hlog [Hfetch Hd]]]].
  exists fetch, steps. split; [ exact Hlog | ]. split; [ exact Hfetch | ].
  split; [ exact Hd | ]. split.
  - intros m Hid Hnew Hret.
    destruct (process_meeting_enqueues E meeting w m Hid Hnew Hret)
      as [page [data [name [mentor [array [row [reply [v [Hlog' Hrest]]]]]]]]].
    exists page, data, name, mentor, array, row, reply, v.
    rewrite Hlog in Hlog'. apply app_inv_head in Hlog'.
    rewrite Hret in Hd. inversion Hd; subst.
    + match goal with
      | H : id_of meeting = Some ?m', Hin : In ?m' _ |- _ =>
          rewrite Hid in H; injection H as <-; contradiction
      end.
    + destruct Hfetch as [-> | [page' [reply' ->]]]; simpl in Hlog'.
      * unfold enqueued in Hlog'. discriminate.
      * pose proof (f_equal (@List.tl _) Hlog') as Hsteps.
        pose proof (f_equal (@List.hd_error _) Hlog') as Hhead.
        simpl in Hsteps, Hhead. injection Hhead as -> ->.
        split; [ reflexivity | ]. split; [ exact Hsteps | exact Hrest ].
  - intros m Hin. inversion Hd; subst; simpl in Hin; try contradiction.
    + destruct Hin as [Hin | [Hin | []]]; discriminate.
    + destruct Hin as [Hin | [Hin | [Hin | [Hin | []]]]]; try discriminate.
      injection Hin as <-.
      eexists _, _, _, _, _. split; [ reflexivity | ]. auto.
Qed.

(** C4, witness: a meeting that is new goes through the four steps, and
    its row is stored with the reference of the prompt. *)
Lemma process_meeting_order_witness :
  exists page data row reply v,
    log (after (process_meeting sample_env (sample_meeting "m1" "Sprint Review" 123))
           initial_world)
    = (Called (GetPage page) (Some data)
         :: enqueued row
              (prompt "Sprint Review" "Anna")
              [("Начать", "start,123,Sprint Review")] reply v)%list
    /\ questionnaires
         (after (process_meeting sample_env (sample_meeting "m1" "Sprint Review" 123))
            initial_world)
       = [mkQuestionnaire "123" "m1" "Sprint Review" (student_id row) pending 0 []
            (Some v) (created_at row)]
    /\ processed_meetings
         (after (process_meeting sample_env (sample_meeting "m1" "Sprint Review" 123))
            initial_world)
       = ["m1"].
Proof.
  destruct (process_meeting_order sample_env (sample_meeting "m1" "Sprint Review" 123)
              initial_world)
    as [fetch [steps [Hlog [_ [_ [Hfull _]]]]]].
  destruct (Hfull "m1" eq_refl (fun H => H) eq_refl)
    as [page [data [name [mentor [array [row [reply [v
         [Hfetch [Hsteps [Hmentor [Hname [Htext [Harray [Hchat [Hm [Hrow
           [Href [Hrows Hmarked]]]]]]]]]]]]]]]]]]].
  exists page, data, row, reply, v.
  rewrite Hlog, Hfetch, Hsteps, Hrows, Hmarked.
  pose proof (f_equal (@List.hd_error _) Hlog) as Hhead.
  rewrite Hfetch in Hhead. vm_compute in Hhead. injection Hhead as <- <-.
  injection Hmentor as <-. injection Hname as <-. injection Htext as Htext.
  injection Harray as <-. injection Hchat as Hchat.
  unfold start_button, enqueued. rewrite <- Htext, <- Hchat.
  split; [ reflexivity | split; reflexivity ].
Defined.

(** ** C8: a record that cannot be read, in a discovery cycle *)

Lemma for_each_raise {A} (f : A -> M unit) (l1 l2 : list A) (x : A) (e : exn)
    (w w1 w2 : world) :
  for_each f l1 w = (Ret tt, w1) ->
  f x w1 = (Raise e, w2) ->
  for_each f (l1 ++ x :: l2) w = (Raise e, w2).
Proof.
  revert w. induction l1 as [ | y l1 IH ]; simpl; intros w H1 H2.
  - injection H1 as <-. unfold bind. now rewrite H2.
  - unfold bind in *. destruct (f y w) as [[[] | e'] w'] eqn:Hy; [ auto | discriminate ].
Qed.


(** The claim: the meetings listed after a record that cannot be read are
    still processed in the cycle. *)
Definition survives_bad_record (E : env) (w : world) (m : string) : Prop :=
  In m (processed_meetings (after (run_notion_checker E) w)).

(** The query returns [meetings]; every other call is answered. *)
Definition discovery_env (meetings : list json) : env :=
  mkEnv (fun n => match n with
                  | O => Some (JObj [("results", JArr meetings)])
                  | _ => Some sample_reply
                  end)
        (fun _ => "2025-01-01T00:00:00") (fun _ => "").

(** A meeting whose chat id roll-up is empty. *)
Definition broken_meeting : json :=
  JObj [("id", JStr "m0");
        ("properties",
          JObj [("Name", JObj [("title", JArr [JObj [("text", JObj [("content", JStr "Kick-off")])]])]);
                ("Mentor(s)", JObj [("relation", JArr [JObj [("id", JStr "mentor-1")]])]);
                ("Student", JObj [("relation", JArr [JObj [("id", JStr "student-1")]])]);
                ("TG_CHAT_ID", JObj [("rollup", JObj [("array", JArr [])])])])].

(** C8, counterexample: the meeting m2 is enqueued when it comes alone, and
    is not when a broken record comes before it in the same cycle. *)
Lemma bad_record_aborts_cycle :
  survives_bad_record (discovery_env [sample_meeting "m2" "Retrospective" 123])
    initial_world "m2"
  /\ ~ survives_bad_record
         (discovery_env [broken_meeting; sample_meeting "m2" "Retrospective" 123])
         initial_world "m2".
Proof.
  split.
  - vm_compute. auto.
  - vm_compute. tauto.
Qed.

(** C8, as the code has it: an error in one meeting's record is caught at
    the boundary of the cycle.  The meetings before it are processed, the
    cycle ends at the record that raises, the meetings after it are not
    looked at, and the loop itself goes on: the iteration returns with the
    error logged. *)
Theorem discovery_stops_at_first_error (E : env) (w w0 w1 w2 : world)
    (meetings bad : json) (before rest : list json) (e : exn) :
  fetch_notion_meetings E w = (Ret meetings, w0) ->
  py_iter meetings = Ret (before ++ bad :: rest)%list ->
  for_each (process_meeting E) before w0 = (Ret tt, w1) ->
  process_meeting E bad w1 = (Raise e, w2) ->
  run_notion_checker E w = (Ret tt, logged w2 (Caught e)).
Proof.
  intros Hfetch Hiter Hbefore Hbad.
  unfold run_notion_checker, try_except.
  unfold bind at 1. rewrite Hfetch.
  unfold py_len. rewrite Hiter. simpl obind. mstep.
  rewrite (for_each_raise _ before rest bad e w0 w1 w2 Hbefore Hbad).
  reflexivity.
Qed.

(** C8, witness. *)
Lemma discovery_stops_at_first_error_witness :
  exists w2,
    run_notion_checker
      (discovery_env [broken_meeting; sample_meeting "m2" "Retrospective" 123])
      initial_world
    = (Ret tt, logged w2 (Caught IndexError))
    /\ questionnaires w2 = [] /\ processed_meetings w2 = [].
Proof.
  eexists. split.
  - eapply discovery_stops_at_first_error
      with (before := []) (bad := broken_meeting)
           (rest := [sample_meeting "m2" "Retrospective" 123]);
      reflexivity.
  - split; reflexivity.
Defined.

(** ** C7: the reminder cycle *)

Definition not_send (e : event) : Prop :=
  match e with
  | Called (SendMessage _ _ _) _ => False
  | _ => True
  end.

(** When the row has a previous prompt, its deletion comes first and has
    returned. *)
Definition deleted_first (r : questionnaire) (l : list event) : Prop :=
  match last_message_id r with
  | Some v =>
      if nonempty v
      then exists j tl, l = Called (DeleteMessage (chat_id r) v) (Some j) :: tl
      else True
  | None => True
  end.

(** What [remind] does for one pending row, case by case. *)
Inductive reminded (r : questionnaire) (w : world)
    : list event -> outcome unit -> world -> Prop :=
| reminded_unsent (quiet : list event) (e : exn) (w' : world) :
    Forall not_send quiet ->
    same_tables w w' ->
    reminded r w quiet (Raise e) w'
| reminded_unsaved (quiet : list event) (text : string) (reply : option json)
    (e : exn) (w' : world) :
    Forall not_send quiet ->
    message_reference reply = None ->
    same_tables w w' ->
    reminded r w
      (quiet ++ [Called (SendMessage (JStr (chat_id r)) text (Some (start_button r))) reply])
      (Raise e) w'
| reminded_done (quiet : list event) (text : string) (reply : option json)
    (v : string) (w' : world) :
    Forall not_send quiet ->
    deleted_first r quiet ->
    message_reference reply = Some v ->
    questionnaires w'
    = update_where (chat_id r) (meeting_id r) (set_last_message_id v) (questionnaires w) ->
    processed_meetings w' = processed_meetings w ->
    reminded r w
      (quiet ++ [Called (SendMessage (JStr (chat_id r)) text (Some (start_button r))) reply;
                 Executed (UpdateLastMessage (chat_id r) (meeting_id r) v)])
      (Ret tt) w'.

Lemma delete_previous (E : env) (r : questionnaire) (w wd : world) (o : outcome unit) :
  match last_message_id r with
  | Some v =>
      if nonempty v
      then http E (DeleteMessage (chat_id r) v) ;;; ret tt
      else ret tt
  | None => ret tt
  end w = (o, wd) ->
  exists del,
    log wd = (log w ++ del)%list
    /\ Forall not_send del
    /\ same_tables w wd
    /\ (o = Ret tt -> forall tl, deleted_first r (del ++ tl)).
Proof.
  unfold deleted_first.
  destruct (last_message_id r) as [v | ]; [ destruct (nonempty v) | ]; intros Hrun.
  - rewrite bind_http in Hrun.
    destruct (reply_at E (tick w)) as [j | ] eqn:Hr; apply run_inv in Hrun;
      destruct Hrun as [-> ->];
      exists [Called (DeleteMessage (chat_id r) v) (reply_at E (tick w))]; simpl;
      (split; [ reflexivity | split; [ repeat constructor | split; [ now split | ] ] ]).
    + intros _ tl. rewrite Hr. eauto.
    + discriminate.
  - apply run_inv in Hrun. destruct Hrun as [-> ->]. exists []. rewrite app_nil_r.
    repeat split; auto.
  - apply run_inv in Hrun. destruct Hrun as [-> ->]. exists []. rewrite app_nil_r.
    repeat split; auto.
Qed.

Lemma same_tables_answered (E : env) (w w1 : world) (c : call) :
  same_tables w w1 -> same_tables w (answered E w1 c).
Proof. now intros [H1 H2]. Qed.

Lemma remind_reminded (E : env) (r : questionnaire) (w : world) :
  exists new,
    log (after (remind E r) w) = (log w ++ new)%list
    /\ reminded r w new (result (remind E r) w) (after (remind E r) w).
Proof.
  unfold after, result.
  destruct (remind E r w) as [o w'] eqn:Hrun. simpl.
  unfold remind, get_mentor_name_from_notion, get_notion_page_name,
    send_initial_message, send_telegram_message, update_last_message_id,
    delete_telegram_message in Hrun.
  unfold bind at 1 in Hrun.
  match type of Hrun with
  | (let (_, _) := ?pre w in _) = _ => destruct (pre w) as [od wd] eqn:Hpre
  end.
  apply delete_previous in Hpre. destruct Hpre as [del [Hlogd [Hqd [Htd Hdel]]]].
  destruct od as [[] | e].
  2:{ apply run_inv in Hrun. destruct Hrun as [-> ->]. exists del.
      split; [ exact Hlogd | now apply reminded_unsent ]. }
  specialize (Hdel eq_refl).
  mstep_in Hrun.
  destruct (reply_at E (tick wd)) as [data | ] eqn:Hr1.
  2:{ apply run_inv in Hrun. destruct Hrun as [-> ->]. eexists (del ++ [_])%list.
      split; [ simpl; rewrite Hlogd, <- app_assoc; reflexivity | ].
      apply reminded_unsent;
        [ apply Forall_app; split; [ exact Hqd | repeat constructor ] | ].
      now apply same_tables_answered. }
  mstep_in Hrun.
  destruct (path _ data) as [mentor_relation | ?] in Hrun.
  2:{ apply run_inv in Hrun. destruct Hrun as [-> ->]. eexists (del ++ [_])%list.
      split; [ simpl; rewrite Hlogd, <- app_assoc; reflexivity | ].
      apply reminded_unsent;
        [ apply Forall_app; split; [ exact Hqd | repeat constructor ] | ].
      now apply same_tables_answered. }
  mstep_in Hrun.
  set (w1 := answered E wd (GetPage (meeting_id r))) in *.
  assert (same_tables w w1) as Ht1 by now apply same_tables_answered.
  destruct (reply_at E (tick w1)) as [data2 | ] eqn:Hr2.
  2:{ apply run_inv in Hrun. destruct Hrun as [-> ->]. eexists (del ++ [_; _])%list.
      split; [ simpl; rewrite Hlogd, <- !app_assoc; reflexivity | ].
      apply reminded_unsent;
        [ apply Forall_app; split; [ exact Hqd | repeat constructor ] | ].
      now apply same_tables_answered. }
  mstep_in Hrun.
  destruct (path _ data2) as [mentor_name | ?] in Hrun.
  2:{ apply run_inv in Hrun. destruct Hrun as [-> ->]. eexists (del ++ [_; _])%list.
      split; [ simpl; rewrite Hlogd, <- !app_assoc; reflexivity | ].
      apply reminded_unsent;
        [ apply Forall_app; split; [ exact Hqd | repeat constructor ] | ].
      now apply same_tables_answered. }
  mstep_in Hrun.
  set (w2 := answered E w1 (GetPage (py_str E mentor_relation))) in *.
  assert (same_tables w w2) as Ht2 by now apply same_tables_answered.
  set (quiet := (del ++ [Called (GetPage (meeting_id r)) (reply_at E (tick wd));
                         Called (GetPage (py_str E mentor_relation)) (reply_at E (tick w1))])%list).
  assert (Forall not_send quiet) as Hquiet
    by (apply Forall_app; split; [ exact Hqd | repeat constructor ]).
  assert (log w2 = (log w ++ quiet)%list) as Hlog2
    by (unfold quiet; simpl; rewrite Hlogd, <- !app_assoc; reflexivity).
  assert (deleted_first r quiet) as Hdq by apply Hdel.
  clearbody quiet w2. clear Hr1 Hr2 Ht1 w1 Hlogd Hqd Htd Hdel.
  match type of Hrun with
  | context [answered E w2 ?c] => set (send := c) in *
  end.
  set (w3 := answered E w2 send) in *.
  assert (log w3 = (log w ++ quiet ++ [Called send (reply_at E (tick w2))])%list) as Hlog3
    by (simpl; rewrite Hlog2, <- app_assoc; reflexivity).
  assert (same_tables w w3) as Ht3 by now apply same_tables_answered.
  clearbody w3.
  destruct (reply_at E (tick w2)) as [j | ] eqn:Hr3.
  2:{ apply run_inv in Hrun. destruct Hrun as [-> ->]. eexists.
      split; [ exact Hlog3 | ]. now apply reminded_unsaved. }
  mstep_in Hrun.
  destruct (path [K "result"; K "message_id"] j) as [leaf | ?] eqn:Hleaf.
  2:{ apply run_inv in Hrun. destruct Hrun as [-> ->]. eexists.
      split; [ exact Hlog3 | ]. apply reminded_unsaved; auto.
      unfold message_reference. now rewrite Hleaf. }
  mstep_in Hrun.
  destruct (text_of leaf) as [v | ] eqn:Hv.
  2:{ apply run_inv in Hrun. destruct Hrun as [-> ->]. eexists.
      split; [ exact Hlog3 | ]. apply reminded_unsaved; auto.
      unfold message_reference. now rewrite Hleaf. }
  mstep_in Hrun. apply run_inv in Hrun. destruct Hrun as [-> ->].
  exists (quiet ++ [Called send (Some j);
                    Executed (UpdateLastMessage (chat_id r) (meeting_id r) v)])%list.
  split; [ simpl; rewrite Hlog3, <- !app_assoc; reflexivity | ].
  destruct Ht3 as [Hrows3 Hproc3].
  apply reminded_done; auto.
  - unfold message_reference. now rewrite Hleaf.
  - simpl. now rewrite Hrows3.
Qed.




























(** ** The changes the bot makes to its tables *)

Definition status_at (c m : string) (w : world) : option status :=
  option_map q_status (find (has_key c m) (questionnaires w)).

(** Changes that move no questionnaire forward. *)
Inductive housekeeping (w w' : world) : Prop :=
| hk_same :
    same_tables w w' -> housekeeping w w'
| hk_insert (row : questionnaire) :
    new_row row ->
    existsb (has_key (chat_id row) (meeting_id row)) (questionnaires w) = false ->
    questionnaires w' = (questionnaires w ++ [row])%list ->
    processed_meetings w' = processed_meetings w ->
    housekeeping w w'
| hk_message (c m v : string) :
    questionnaires w' = update_where c m (set_last_message_id v) (questionnaires w) ->
    processed_meetings w' = processed_meetings w ->
    housekeeping w w'
| hk_mark (m : string) :
    (exists r, In r (questionnaires w) /\ meeting_id r = m) ->
    ~ In m (processed_meetings w) ->
    questionnaires w' = questionnaires w ->
    processed_meetings w' = (processed_meetings w ++ [m])%list ->
    housekeeping w w'.

(** The two changes of the state machine. *)
Inductive progress (w w' : world) : Prop :=
| pr_start (chat : string) (r : questionnaire) :
    find (has_status chat pending) (questionnaires w) = Some r ->
    questionnaires w'
    = update_where chat (meeting_id r) (set_status in_progress 1) (questionnaires w) ->
    processed_meetings w' = processed_meetings w ->
    progress w w'
| pr_answer (chat : string) (r : questionnaire) (q points : Z) :
    find (has_status chat in_progress) (questionnaires w) = Some r ->
    questionnaires w'
    = update_where chat (meeting_id r) (write_answer r q points) (questionnaires w) ->
    processed_meetings w' = processed_meetings w ->
    progress w w'.

Definition change (w w' : world) : Prop := housekeeping w w' \/ progress w w'.

(** A sequence of changes. *)
Inductive changes (R : world -> world -> Prop) (w : world) : world -> Prop :=
| changes_refl : changes R w w
| changes_step (w1 w2 : world) : changes R w w1 -> R w1 w2 -> changes R w w2.

Lemma changes_trans (R : world -> world -> Prop) (w w1 w2 : world) :
  changes R w w1 -> changes R w1 w2 -> changes R w w2.
Proof.
  intros H1 H2. induction H2 as [ | w2 w3 _ IH Hstep ]; [ exact H1 | ].
  now apply changes_step with (w1 := w2).
Qed.

Lemma changes_one (R : world -> world -> Prop) (w w' : world) :
  R w w' -> changes R w w'.
Proof. intros H. apply changes_step with (w1 := w); [ constructor | exact H ]. Qed.

Lemma changes_weaken (R R' : world -> world -> Prop) (w w' : world) :
  (forall a b, R a b -> R' a b) -> changes R w w' -> changes R' w w'.
Proof.
  intros Himp H. induction H as [ | w1 w2 _ IH Hstep ]; [ constructor | ].
  apply changes_step with (w1 := w1); auto.
Qed.

(** *** What the changes keep *)

Definition status_rank (s : status) : nat :=
  match s with
  | pending => 0
  | in_progress => 1
  | completed => 2
  end.

(** One step along pending, in_progress, completed, or none. *)
Definition advance (s s' : status) : Prop :=
  s' = s \/ (s = pending /\ s' = in_progress) \/ (s = in_progress /\ s' = completed).

Lemma find_key_update_where (c m c' m' : string) (f : questionnaire -> questionnaire)
    (rs : list questionnaire) :
  keeps_key f ->
  find (has_key c' m') (update_where c m f rs)
  = option_map (fun x => if has_key c m x then f x else x) (find (has_key c' m') rs).
Proof.
  intros Hf. induction rs as [ | r rs IH ]; simpl; [ reflexivity | ].
  assert (has_key c' m' (if has_key c m r then f r else r) = has_key c' m' r) as ->.
  { destruct (has_key c m r); [ now apply has_key_keeps | reflexivity ]. }
  now destruct (has_key c' m' r).
Qed.

Lemma primary_key_update_where (c m : string) (f : questionnaire -> questionnaire)
    (rs : list questionnaire) :
  keeps_key f -> primary_key rs -> primary_key (update_where c m f rs).
Proof.
  intros Hf. unfold primary_key, key. now rewrite (update_where_keys c m f rs Hf).
Qed.

Lemma existsb_has_key (c m : string) (rs : list questionnaire) :
  existsb (has_key c m) rs = false <-> ~ In (c, m) (map key rs).
Proof.
  split.
  - intros H Hin. apply in_map_iff in Hin. destruct Hin as [r [Hk Hr]].
    apply has_key_key in Hk.
    assert (existsb (has_key c m) rs = true) by (apply existsb_exists; eauto).
    congruence.
  - intros H. destruct (existsb (has_key c m) rs) eqn:Hex; [ | reflexivity ].
    apply existsb_exists in Hex. destruct Hex as [r [Hr Hk]].
    apply has_key_key in Hk. exfalso. apply H. rewrite <- Hk. now apply in_map.
Qed.

Lemma find_key_app (c m : string) (rs : list questionnaire) (row : questionnaire) :
  find (has_key c m) (rs ++ [row])
  = match find (has_key c m) rs with
    | Some r => Some r
    | None => if has_key c m row then Some row else None
    end.
Proof.
  induction rs as [ | r rs IH ]; simpl; [ reflexivity | ].
  now destruct (has_key c m r).
Qed.


Lemma housekeeping_primary_key (w w' : world) :
  housekeeping w w' -> primary_key (questionnaires w) -> primary_key (questionnaires w').
Proof.
  intros [ [-> _] | row _ Hfresh -> _ | c m v -> _ | m _ _ -> _ ] Hpk; auto.
  - unfold primary_key. rewrite map_app. simpl.
    apply NoDup_app; [ exact Hpk | repeat constructor; tauto | ].
    intros k Hk [<- | []]. apply existsb_has_key in Hfresh. contradiction.
  - apply primary_key_update_where; auto with keeps.
Qed.

Lemma progress_primary_key (w w' : world) :
  progress w w' -> primary_key (questionnaires w) -> primary_key (questionnaires w').
Proof.
  intros [ chat r _ -> _ | chat r q points _ -> _ ] Hpk;
    apply primary_key_update_where; auto with keeps.
Qed.

(** Housekeeping keeps the status under every key and makes new rows pending. *)
Lemma housekeeping_status (w w' : world) (c m : string) :
  housekeeping w w' ->
  match status_at c m w with
  | Some s => status_at c m w' = Some s
  | None => status_at c m w' = None \/ status_at c m w' = Some pending
  end.
Proof.
  unfold status_at.
  intros [ [-> _] | row Hrow _ -> _ | c0 m0 v -> _ | m0 _ _ -> _ ].
  - destruct (find _ _); simpl; auto.
  - rewrite find_key_app. destruct (find (has_key c m) (questionnaires w)); simpl; auto.
    destruct (has_key c m row); simpl; auto. right. now destruct Hrow as [-> _].
  - rewrite find_key_update_where by auto with keeps.
    destruct (find (has_key c m) (questionnaires w)) as [x | ]; simpl; auto.
    now destruct (has_key c0 m0 x).
  - destruct (find _ _); simpl; auto.
Qed.

(** A start or an answer moves one questionnaire one step and keeps the
    others. *)
Lemma progress_status (w w' : world) (c m : string) :
  progress w w' -> primary_key (questionnaires w) ->
  match status_at c m w with
  | Some s => exists s', status_at c m w' = Some s' /\ advance s s'
  | None => status_at c m w' = None
  end.
Proof.
  unfold status_at.
  intros [ chat r Hfind -> _ | chat r q points Hfind -> _ ] Hpk;
    rewrite find_key_update_where by auto with keeps;
    destruct (find (has_key c m) (questionnaires w)) as [x | ] eqn:Hx; simpl; auto;
    destruct (find_some _ _ Hfind) as [Hr Hst]; apply has_status_chat in Hst;
    destruct Hst as [Hchat Hstatus];
    destruct (find_some _ _ Hx) as [Hxin _];
    (destruct (has_key chat (meeting_id r) x) eqn:Hk;
       [ | eexists; split; [ reflexivity | now left ] ]);
    assert (x = r) as ->
      by (apply (primary_key_unique (questionnaires w)); auto;
          apply has_key_key in Hk; rewrite Hk; unfold key; now rewrite Hchat).
  - eexists. split; [ reflexivity | ]. simpl. rewrite Hstatus. right. now left.
  - eexists. split; [ reflexivity | ]. unfold write_answer.
    destruct (_ <=? 5); simpl; rewrite Hstatus; [ now left | right; now right ].
Qed.

(** *** Every function of the bot is a sequence of changes *)

Definition evolves (R : world -> world -> Prop) {A} (c : M A) : Prop :=
  forall w, changes R w (after c w).

Definition allows_same (R : world -> world -> Prop) : Prop :=
  forall a b, same_tables a b -> R a b.

Lemma housekeeping_allows_same : allows_same housekeeping.
Proof. intros a b H. now apply hk_same. Qed.

Lemma change_allows_same : allows_same change.
Proof. intros a b H. left. now apply hk_same. Qed.

Lemma evolves_keeps (R : world -> world -> Prop) {A} (c : M A) :
  allows_same R -> keeps_tables c -> evolves R c.
Proof.
  intros HR Hc w. apply changes_one, HR. destruct (Hc w). now split.
Qed.

Lemma evolves_bind (R : world -> world -> Prop) {A B} (c : M A) (k : A -> M B) :
  evolves R c -> (forall a, evolves R (k a)) -> evolves R (bind c k).
Proof.
  intros Hc Hk w. rewrite after_bind. destruct (result c w) as [a | e].
  - apply changes_trans with (w1 := after c w); [ apply Hc | apply Hk ].
  - apply Hc.
Qed.

Lemma evolves_for_each (R : world -> world -> Prop) {A} (f : A -> M unit)
    (l : list A) :
  (forall x, evolves R (f x)) -> evolves R (for_each f l).
Proof.
  intros Hf. induction l as [ | x l IH ]; simpl.
  - intros w. constructor.
  - apply evolves_bind; auto.
Qed.

Lemma evolves_try_except (R : world -> world -> Prop) (c : M unit) :
  allows_same R -> evolves R c -> evolves R (try_except c).
Proof.
  intros HR Hc w. unfold after, try_except. specialize (Hc w). unfold after in Hc.
  destruct (c w) as [[[] | e] w1]; simpl in *; [ exact Hc | ].
  apply changes_step with (w1 := w1); [ exact Hc | ]. apply HR. now split.
Qed.


Lemma evolves_process_meeting (E : env) (meeting : json) :
  evolves housekeeping (process_meeting E meeting).
Proof.
  intros w.
  destruct (process_meeting_discovery E meeting w) as [fetch [steps [_ [_ Hd]]]].
  inversion Hd as [ e w' Hs | m w' _ _ Hs
                  | row text kb reply e w' _ _ Hfresh Hrow _ Hrows Hproc
                  | row text kb reply v w' _ Hnew Hfresh Hrow _ Hrows Hproc ].
  - now apply changes_one, hk_same.
  - now apply changes_one, hk_same.
  - apply changes_one. now apply hk_insert with (row := row).
  - set (wa := mkWorld (questionnaires w ++ [row]) (processed_meetings w) 0 0 []).
    set (wb := mkWorld (questionnaires (after (process_meeting E meeting) w))
                 (processed_meetings w) 0 0 []).
    apply changes_step with (w1 := wb).
    + apply changes_step with (w1 := wa).
      * apply changes_one. now apply hk_insert with (row := row).
      * now apply hk_message with (c := chat_id row) (m := meeting_id row) (v := v).
    + apply hk_mark with (m := meeting_id row); auto. simpl.
      exists (set_last_message_id v row). split; [ | reflexivity ].
      rewrite Hrows.
      pose proof (in_update_where (chat_id row) (meeting_id row) (set_last_message_id v)
                    (questionnaires w ++ [row]) row) as Hupd.
      rewrite has_key_self in Hupd. apply Hupd. apply in_or_app. right. now left.
Qed.

Lemma evolves_remind (E : env) (r : questionnaire) : evolves housekeeping (remind E r).
Proof.
  intros w. destruct (remind_reminded E r w) as [t [_ H]]. apply changes_one.
  inversion H as [ quiet e w' _ Hs | quiet text reply e w' _ _ Hs
                 | quiet text reply v w' _ _ _ Hrows Hproc ].
  - now apply hk_same.
  - now apply hk_same.
  - now apply hk_message with (c := chat_id r) (m := meeting_id r) (v := v).
Qed.

(** A start event starts one questionnaire or changes nothing. *)
Lemma start_questionnaire_change (E : env) (chat name : string) (m : json) (w : world) :
  progress w (after (start_questionnaire E chat name m) w)
  \/ same_tables w (after (start_questionnaire E chat name m) w).
Proof.
  destruct (find (has_status chat pending) (questionnaires w)) as [r | ] eqn:Hfind.
  - left. destruct (start_questionnaire_tables E chat name m w r Hfind).
    now apply pr_start with (chat := chat) (r := r).
  - right. unfold after. rewrite start_questionnaire_idle by assumption. now split.
Qed.

(** An answer event moves one questionnaire or changes nothing. *)
Lemma process_answer_change (E : env) (chat : string) (q points : Z) (m : json)
    (w : world) :
  progress w (after (process_answer E chat q points m) w)
  \/ same_tables w (after (process_answer E chat q points m) w).
Proof.
  destruct (find (has_status chat in_progress) (questionnaires w)) as [r | ] eqn:Hfind.
  - destruct (int64 (current_question r + 1)) eqn:Hfits.
    + left. destruct (process_answer_tables E chat q points m w r Hfind Hfits).
      now apply pr_answer with (chat := chat) (r := r) (q := q) (points := points).
    + right. unfold after. rewrite (process_answer_overflow E chat q points m w r Hfind Hfits).
      now split.
  - right. unfold after. rewrite process_answer_idle by assumption. now split.
Qed.

Lemma bind_item {B} (data : list string) (i : nat) (k : string -> M B) (w : world) :
  bind (item data i) k w
  = match nth_error data i with
    | Some s => k s w
    | None => (Raise IndexError, w)
    end.
Proof. unfold item. now destruct (nth_error data i). Qed.

Lemma bind_int {B} (s : string) (k : Z -> M B) (w : world) :
  bind (int s) k w
  = match py_int s with
    | Some n => k n w
    | None => (Raise ValueError, w)
    end.
Proof. unfold int. now destruct (py_int s). Qed.

Ltac unchanged := right; split; reflexivity.

Lemma handle_callback_query_change (E : env) (callback_query : json) (w : world) :
  progress w (after (handle_callback_query E callback_query) w)
  \/ same_tables w (after (handle_callback_query E callback_query) w).
Proof.
  unfold after, handle_callback_query.
  mstep.
  destruct (subscript callback_query "data") as [[s | | | ] | e]; try unchanged.
  destruct (split_comma_cons s) as [action [fields ->]].
  rewrite bind_item. simpl nth_error. cbv beta iota.
  destruct (String.eqb action "start").
  - rewrite bind_item. destruct fields as [ | chat fields ]; simpl nth_error;
      cbv beta iota; [ unchanged | ].
    mstep. destruct (path _ callback_query); [ | unchanged ].
    apply start_questionnaire_change.
  - destruct (String.eqb action "answer"); [ | unchanged ].
    rewrite bind_item.
    destruct fields as [ | chat [ | m [ | f3 fields ] ] ]; simpl nth_error; cbv beta iota;
      try unchanged; rewrite bind_item; simpl nth_error; cbv beta iota; try unchanged;
      rewrite bind_item; simpl nth_error; cbv beta iota; try unchanged.
    rewrite bind_int. destruct (py_int f3); [ | unchanged ].
    rewrite bind_item. destruct fields as [ | f4 fields ]; simpl nth_error;
      cbv beta iota; [ unchanged | ].
    rewrite bind_int. destruct (py_int f4); [ | unchanged ].
    mstep. destruct (path _ callback_query); [ | unchanged ].
    apply process_answer_change.
Qed.

Lemma evolves_start_questionnaire (E : env) (chat name : string) (m : json) :
  evolves change (start_questionnaire E chat name m).
Proof.
  intros w. apply changes_one.
  destruct (start_questionnaire_change E chat name m w) as [H | H];
    [ now right | left; now apply hk_same ].
Qed.

Lemma evolves_process_answer (E : env) (chat : string) (q points : Z) (m : json) :
  evolves change (process_answer E chat q points m).
Proof.
  intros w. apply changes_one.
  destruct (process_answer_change E chat q points m w) as [H | H];
    [ now right | left; now apply hk_same ].
Qed.

Lemma evolves_handle_callback_query (E : env) (callback_query : json) :
  evolves change (handle_callback_query E callback_query).
Proof.
  intros w. apply changes_one.
  destruct (handle_callback_query_change E callback_query w) as [H | H];
    [ now right | left; now apply hk_same ].
Qed.

Ltac evolves_step :=
  repeat first
    [ apply evolves_handle_callback_query
    | apply evolves_keeps; [ apply change_allows_same | solve [ keeps ] ]
    | apply evolves_bind; [ | intros ? ]
    | match goal with
      | |- evolves _ (if ?b then _ else _) => destruct b
      | |- evolves _ (match ?x with _ => _ end) => destruct x
      end ].

Lemma evolves_handle_update (E : env) (update : json) :
  evolves change (handle_update E update).
Proof. unfold handle_update. evolves_step. Qed.

Lemma evolves_run_telegram_polling (E : env) : evolves change (run_telegram_polling E).
Proof.
  unfold run_telegram_polling, get_telegram_updates.
  apply evolves_try_except; [ apply change_allows_same | ].
  apply evolves_bind; [ apply evolves_keeps; [ apply change_allows_same | now intros w ] | ].
  intros n. apply evolves_bind; [ apply evolves_keeps; [ apply change_allows_same | keeps ] | ].
  intros updates. apply evolves_bind;
    [ apply evolves_keeps; [ apply change_allows_same | keeps ] | ].
  intros l. apply evolves_for_each. apply evolves_handle_update.
Qed.

Lemma evolves_run_notion_checker (E : env) : evolves housekeeping (run_notion_checker E).
Proof.
  unfold run_notion_checker, fetch_notion_meetings.
  apply evolves_try_except; [ apply housekeeping_allows_same | ].
  apply evolves_bind;
    [ apply evolves_keeps; [ apply housekeeping_allows_same | keeps ] | ].
  intros meetings. apply evolves_bind;
    [ apply evolves_keeps; [ apply housekeeping_allows_same | keeps ] | ].
  intros _. apply evolves_bind;
    [ apply evolves_keeps; [ apply housekeeping_allows_same | keeps ] | ].
  intros l. apply evolves_for_each. apply evolves_process_meeting.
Qed.

Lemma evolves_run_reminder_checker (E : env) :
  evolves housekeeping (run_reminder_checker E).
Proof.
  unfold run_reminder_checker.
  apply evolves_try_except; [ apply housekeeping_allows_same | ].
  apply evolves_bind;
    [ apply evolves_keeps; [ apply housekeeping_allows_same | keeps ] | ].
  intros rs. apply evolves_for_each. apply evolves_remind.
Qed.

(** ** The bot as a sequence of operations *)

Inductive operation : Type :=
| Create (meeting : json)
| Start (chat name : string) (message_id : json)
| Answer (chat : string) (question_num points : Z) (message_id : json)
| Callback (callback_query : json)
| Discover
| Remind
| Poll.

Definition perform (E : env) (op : operation) : M unit :=
  match op with
  | Create meeting => process_meeting E meeting
  | Start chat name message_id => start_questionnaire E chat name message_id
  | Answer chat question_num points message_id =>
      process_answer E chat question_num points message_id
  | Callback callback_query => handle_callback_query E callback_query
  | Discover => run_notion_checker E
  | Remind => run_reminder_checker E
  | Poll => run_telegram_polling E
  end.

(** An exception of an operation is caught by the loop it runs in, and the
    next operation starts from the world it left. *)
Fixpoint run (E : env) (ops : list operation) (w : world) : world :=
  match ops with
  | [] => w
  | op :: tl => run E tl (after (perform E op) w)
  end.

(** An operation that handles at most one event of the state machine. *)
Definition single (op : operation) : Prop :=
  match op with
  | Poll => False
  | _ => True
  end.

Lemma perform_changes (E : env) (op : operation) (w : world) :
  changes change w (after (perform E op) w).
Proof.
  destruct op; simpl.
  - apply (changes_weaken housekeeping change); [ now left | ].
    apply evolves_process_meeting.
  - apply evolves_start_questionnaire.
  - apply evolves_process_answer.
  - apply evolves_handle_callback_query.
  - apply (changes_weaken housekeeping change); [ now left | ].
    apply evolves_run_notion_checker.
  - apply (changes_weaken housekeeping change); [ now left | ].
    apply evolves_run_reminder_checker.
  - apply evolves_run_telegram_polling.
Qed.

Lemma run_changes (E : env) (ops : list operation) (w : world) :
  changes change w (run E ops w).
Proof.
  revert w. induction ops as [ | op tl IH ]; intros w; simpl; [ constructor | ].
  apply changes_trans with (w1 := after (perform E op) w);
    [ apply perform_changes | apply IH ].
Qed.

(** A single operation is housekeeping, or one start or answer. *)
Lemma perform_single (E : env) (op : operation) (w : world) :
  single op ->
  changes housekeeping w (after (perform E op) w)
  \/ progress w (after (perform E op) w).
Proof.
  destruct op; simpl; intros Hs; try contradiction.
  - left. apply evolves_process_meeting.
  - destruct (start_questionnaire_change E chat name message_id w) as [H | H];
      [ now right | left; apply changes_one; now apply hk_same ].
  - destruct (process_answer_change E chat question_num points message_id w) as [H | H];
      [ now right | left; apply changes_one; now apply hk_same ].
  - destruct (handle_callback_query_change E callback_query w) as [H | H];
      [ now right | left; apply changes_one; now apply hk_same ].
  - left. apply evolves_run_notion_checker.
  - left. apply evolves_run_reminder_checker.
Qed.

(** ** C3: the status only moves forward, one step at a time *)

Lemma advance_rank (s s' : status) :
  advance s s' -> (status_rank s <= status_rank s')%nat.
Proof. intros [-> | [[-> ->] | [-> ->]]]; simpl; lia. Qed.

Lemma changes_housekeeping_status (w w' : world) :
  changes housekeeping w w' ->
  primary_key (questionnaires w) ->
  primary_key (questionnaires w')
  /\ forall c m,
       match status_at c m w with
       | Some s => status_at c m w' = Some s
       | None => status_at c m w' = None \/ status_at c m w' = Some pending
       end.
Proof.
  intros H Hpk. induction H as [ | w1 w2 _ [Hpk1 IH] Hstep ].
  - split; [ exact Hpk | ]. intros c m. destruct (status_at c m w); auto.
  - split; [ now apply (housekeeping_primary_key w1) | ].
    intros c m. specialize (IH c m).
    pose proof (housekeeping_status w1 w2 c m Hstep) as H2.
    destruct (status_at c m w) as [s | ].
    + now rewrite IH in H2.
    + destruct IH as [IH | IH]; rewrite IH in H2; auto.
Qed.

Lemma change_status (w w' : world) (c m : string) (s : status) :
  change w w' -> primary_key (questionnaires w) ->
  status_at c m w = Some s ->
  exists s', status_at c m w' = Some s' /\ advance s s'.
Proof.
  intros [H | H] Hpk Hs.
  - pose proof (housekeeping_status w w' c m H) as H1. rewrite Hs in H1.
    exists s. split; [ exact H1 | now left ].
  - pose proof (progress_status w w' c m H Hpk) as H1. now rewrite Hs in H1.
Qed.

Lemma change_primary_key (w w' : world) :
  change w w' -> primary_key (questionnaires w) -> primary_key (questionnaires w').
Proof.
  intros [H | H]; [ now apply housekeeping_primary_key | now apply progress_primary_key ].
Qed.

Lemma changes_primary_key (w w' : world) :
  changes change w w' -> primary_key (questionnaires w) ->
  primary_key (questionnaires w').
Proof.
  intros H Hpk. induction H as [ | w1 w2 _ IH Hstep ]; [ exact Hpk | ].
  now apply (change_primary_key w1).
Qed.

Lemma changes_status (w w' : world) (c m : string) (s : status) :
  changes change w w' -> primary_key (questionnaires w) ->
  status_at c m w = Some s ->
  exists s', status_at c m w' = Some s' /\ (status_rank s <= status_rank s')%nat.
Proof.
  intros H Hpk Hs. induction H as [ | w1 w2 H1 IH Hstep ].
  - exists s. split; [ exact Hs | lia ].
  - destruct IH as [s1 [Hs1 Hle]].
    destruct (change_status w1 w2 c m s1 Hstep (changes_primary_key w w1 H1 Hpk) Hs1)
      as [s2 [Hs2 Hadv]].
    exists s2. split; [ exact Hs2 | ]. apply advance_rank in Hadv. lia.
Qed.

(** C3: along any sequence of operations the status of a questionnaire
    never goes back; an operation that handles one event (a creation, a
    start, an answer, a callback, a discovery or a reminder cycle) moves it
    by one step at most along pending, in_progress, completed, so that
    pending never becomes completed directly; and a questionnaire that
    appears is pending. *)
Theorem status_moves_forward (E : env) (w : world) :
  primary_key (questionnaires w) ->
  (forall ops c m s,
      status_at c m w = Some s ->
      exists s', status_at c m (run E ops w) = Some s'
                 /\ (status_rank s <= status_rank s')%nat)
  /\ (forall op c m s,
         single op ->
         status_at c m w = Some s ->
         exists s', status_at c m (after (perform E op) w) = Some s' /\ advance s s')
  /\ (forall op c m,
         single op ->
         status_at c m w = Some pending ->
         status_at c m (after (perform E op) w) <> Some completed)
  /\ (forall op c m,
         single op ->
         status_at c m w = None ->
         status_at c m (after (perform E op) w) = None
         \/ status_at c m (after (perform E op) w) = Some pending).
Proof.
  intros Hpk.
  assert (forall op c m s,
             single op -> status_at c m w = Some s ->
             exists s', status_at c m (after (perform E op) w) = Some s' /\ advance s s')
    as Hone.
  { intros op c m s Hs Hst. destruct (perform_single E op w Hs) as [H | H].
    - destruct (changes_housekeeping_status _ _ H Hpk) as [_ Hk].
      specialize (Hk c m). rewrite Hst in Hk. exists s. split; [ exact Hk | now left ].
    - pose proof (progress_status _ _ c m H Hpk) as H1. now rewrite Hst in H1. }
  split; [ | split; [ exact Hone | split ] ].
  - intros ops c m s Hst. apply changes_status with (w := w); auto.
    apply run_changes.
  - intros op c m Hs Hst Hdone. destruct (Hone op c m pending Hs Hst) as [s' [Hs' Hadv]].
    rewrite Hdone in Hs'. injection Hs' as <-.
    destruct Hadv as [H | [[_ H] | [H _]]]; discriminate.
  - intros op c m Hs Hst. destruct (perform_single E op w Hs) as [H | H].
    + destruct (changes_housekeeping_status _ _ H Hpk) as [_ Hk].
      specialize (Hk c m). now rewrite Hst in Hk.
    + pose proof (progress_status _ _ c m H Hpk) as H1. rewrite Hst in H1. now left.
Qed.

(** C3, witness. *)
Lemma status_moves_forward_witness :
  exists s',
    status_at "123" "m1"
      (after (perform sample_env (Start "123" "Sprint Review" (JNum 7))) fresh_world)
    = Some s'
    /\ advance pending s'.
Proof.
  assert (primary_key (questionnaires fresh_world)) as Hpk
    by (repeat constructor; simpl; tauto).
  destruct (status_moves_forward sample_env fresh_world Hpk) as [_ [Hone _]].
  exact (Hone (Start "123" "Sprint Review" (JNum 7)) "123" "m1" pending I eq_refl).
Defined.

(** ** C5: a meeting that is in the set is not enqueued again *)

Definition count_rows (c m : string) (rs : list questionnaire) : nat :=
  List.length (filter (has_key c m) rs).

Lemma primary_key_filter_key (c m : string) (rs : list questionnaire) :
  primary_key rs ->
  filter (has_key c m) rs = [] \/ exists r, filter (has_key c m) rs = [r].
Proof.
  unfold primary_key. induction rs as [ | x rs IH ]; simpl; intros Hnd; [ now left | ].
  inversion Hnd as [ | ? ? Hnot Hrest ]; subst.
  destruct (has_key c m x) eqn:Hx; [ | auto ].
  right. exists x. f_equal.
  destruct (filter (has_key c m) rs) as [ | y l ] eqn:Hf; [ reflexivity | ].
  exfalso. apply Hnot.
  assert (In y (filter (has_key c m) rs)) as Hy by (rewrite Hf; now left).
  apply filter_In in Hy. destruct Hy as [Hy Hk].
  apply has_key_key in Hx. apply has_key_key in Hk. rewrite Hx, <- Hk.
  now apply in_map.
Qed.

Lemma count_rows_le (c m : string) (rs : list questionnaire) :
  primary_key rs -> (count_rows c m rs <= 1)%nat.
Proof.
  intros Hpk. unfold count_rows.
  destruct (primary_key_filter_key c m rs Hpk) as [-> | [r ->]]; simpl; lia.
Qed.

Lemma count_rows_one (rs : list questionnaire) (r : questionnaire) :
  primary_key rs -> In r rs -> count_rows (chat_id r) (meeting_id r) rs = 1%nat.
Proof.
  intros Hpk Hin. unfold count_rows.
  destruct (primary_key_filter_key (chat_id r) (meeting_id r) rs Hpk) as [Hf | [x ->]];
    [ | reflexivity ].
  assert (In r (filter (has_key (chat_id r) (meeting_id r)) rs)) as Hr
    by (apply filter_In; split; [ exact Hin | apply has_key_self ]).
  rewrite Hf in Hr. contradiction.
Qed.

(** The tables as discovery keeps them: one row per key, each meeting once
    in the set, and a row for every meeting of the set. *)
Definition enqueued_once (w : world) : Prop :=
  primary_key (questionnaires w)
  /\ NoDup (processed_meetings w)
  /\ forall m, In m (processed_meetings w) ->
               exists r, In r (questionnaires w) /\ meeting_id r = m.

Lemma update_where_meeting (c m : string) (f : questionnaire -> questionnaire)
    (rs : list questionnaire) (m' : string) :
  keeps_key f ->
  (exists r, In r rs /\ meeting_id r = m') ->
  exists r, In r (update_where c m f rs) /\ meeting_id r = m'.
Proof.
  intros Hf [r [Hin Hm]].
  exists (if has_key c m r then f r else r). split; [ now apply in_update_where | ].
  destruct (has_key c m r); [ | exact Hm ]. now destruct (Hf r) as [_ ->].
Qed.

Lemma change_enqueued_once (w w' : world) :
  change w w' -> enqueued_once w -> enqueued_once w'.
Proof.
  intros Hc [Hpk [Hnd Hrow]].
  split; [ now apply (change_primary_key w) | ].
  destruct Hc as [ [ [Hr Hp] | row _ _ Hr Hp | c m v Hr Hp | m Hex Hnew Hr Hp ]
                 | [ chat r _ Hr Hp | chat r q points _ Hr Hp ] ];
    rewrite Hr, Hp.
  - now split.
  - split; [ exact Hnd | ]. intros m Hm. destruct (Hrow m Hm) as [r [Hin Heq]].
    exists r. split; [ apply in_or_app; now left | exact Heq ].
  - split; [ exact Hnd | ]. intros m' Hm. apply update_where_meeting; auto with keeps.
  - split.
    + apply NoDup_app; [ exact Hnd | repeat constructor; tauto | ].
      intros a Ha [<- | []]. contradiction.
    + intros m' Hm. apply in_app_or in Hm. destruct Hm as [Hm | [<- | []]]; auto.
  - split; [ exact Hnd | ]. intros m' Hm. apply update_where_meeting; auto with keeps.
  - split; [ exact Hnd | ]. intros m' Hm. apply update_where_meeting; auto with keeps.
Qed.

Lemma changes_enqueued_once (w w' : world) :
  changes change w w' -> enqueued_once w -> enqueued_once w'.
Proof.
  intros H Hw. induction H as [ | w1 w2 _ IH Hstep ]; [ exact Hw | ].
  now apply (change_enqueued_once w1).
Qed.

Lemma change_permanent (w w' : world) (m : string) :
  change w w' -> In m (processed_meetings w) -> In m (processed_meetings w').
Proof.
  intros [ [ [_ ->] | row _ _ _ -> | c m0 v _ -> | m0 _ _ _ -> ]
         | [ chat r _ _ -> | chat r q points _ _ -> ] ] Hin; auto.
  apply in_or_app. now left.
Qed.

Lemma changes_permanent (w w' : world) (m : string) :
  changes change w w' -> In m (processed_meetings w) -> In m (processed_meetings w').
Proof.
  intros H Hin. induction H as [ | w1 w2 _ IH Hstep ]; [ exact Hin | ].
  now apply (change_permanent w1).
Qed.

Lemma enqueued_once_initial : enqueued_once initial_world.
Proof. repeat split; try constructor. intros m []. Qed.

(** C5: a meeting that is in the set is passed over: the tables are left
    as they are and nothing is sent (only the mentor's name is fetched).
    So, whatever the bot has done since it started, every meeting of the set
    has exactly one row under its key, no key has two rows, and the meeting
    stays in the set. *)
Theorem discovery_idempotent (E : env) :
  (forall w meeting m,
      id_of meeting = Some m ->
      In m (processed_meetings w) ->
      same_tables w (after (process_meeting E meeting) w)
      /\ exists fetch,
           log (after (process_meeting E meeting) w) = (log w ++ fetch)%list
           /\ name_fetch fetch)
  /\ (forall ops m,
         In m (processed_meetings (run E ops initial_world)) ->
         (exists c, count_rows c m (questionnaires (run E ops initial_world)) = 1%nat)
         /\ (forall c, (count_rows c m (questionnaires (run E ops initial_world)) <= 1)%nat)
         /\ (forall more,
                In m (processed_meetings (run E more (run E ops initial_world))))).
Proof.
  split.
  - intros w meeting m Hid Hin.
    destruct (process_meeting_discovery E meeting w) as [fetch [steps [Hlog [Hfetch Hd]]]].
    inversion Hd as [ e w' Hs | m' w' _ _ Hs
                    | row text kb reply e w' Hid' Hnew
                    | row text kb reply v w' Hid' Hnew ]; subst.
    + split; [ exact Hs | ]. exists fetch. now rewrite app_nil_r in Hlog.
    + split; [ exact Hs | ]. exists fetch. now rewrite app_nil_r in Hlog.
    + rewrite Hid in Hid'. injection Hid' as ->. contradiction.
    + rewrite Hid in Hid'. injection Hid' as ->. contradiction.
  - intros ops m Hin.
    pose proof (changes_enqueued_once _ _ (run_changes E ops initial_world)
                  enqueued_once_initial) as [Hpk [_ Hrow]].
    split; [ | split ].
    + destruct (Hrow m Hin) as [r [Hr <-]]. exists (chat_id r).
      now apply count_rows_one.
    + intros c. now apply count_rows_le.
    + intros more. apply (changes_permanent (run E ops initial_world)); auto.
      apply run_changes.
Qed.

(** C5, witness: the meeting m1 is discovered in two cycles. *)
Lemma discovery_idempotent_witness :
  count_rows "123" "m1"
    (questionnaires
       (run sample_env
          [Create (sample_meeting "m1" "Sprint Review" 123);
           Create (sample_meeting "m1" "Sprint Review" 123)]
          initial_world))
  = 1%nat
  /\ same_tables
       (run sample_env [Create (sample_meeting "m1" "Sprint Review" 123)] initial_world)
       (run sample_env
          [Create (sample_meeting "m1" "Sprint Review" 123);
           Create (sample_meeting "m1" "Sprint Review" 123)]
          initial_world).
Proof.
  destruct (discovery_idempotent sample_env) as [Hskip Hone].
  split.
  - reflexivity.
  - apply (Hskip (run sample_env [Create (sample_meeting "m1" "Sprint Review" 123)]
                    initial_world)
             (sample_meeting "m1" "Sprint Review" 123) "m1" eq_refl).
    simpl. now left.
Defined.

(** ** C10: the meeting name of a start payload *)

Lemma split_comma_first (chat : string) :
  exists h, forall n, exists t, split_comma (chat ++ "," ++ n) = h :: t.
Proof.
  induction chat as [ | c chat [h IH] ]; simpl.
  - exists "". intros n. eauto.
  - destruct (Ascii.eqb c ",").
    + exists "". intros n. eauto.
    + exists (String c h). intros n. destruct (IH n) as [t Ht].
      simpl in Ht. rewrite Ht. eauto.
Qed.

Fixpoint comma_free (s : string) : bool :=
  match s with
  | "" => true
  | String c s' => negb (Ascii.eqb c ",") && comma_free s'
  end.

Lemma split_comma_chat (chat n : string) :
  comma_free chat = true ->
  split_comma (chat ++ "," ++ n) = chat :: split_comma n.
Proof.
  induction chat as [ | c chat IH ]; simpl; intros Hfree; [ reflexivity | ].
  apply andb_prop in Hfree. destruct Hfree as [Hc Hfree].
  destruct (Ascii.eqb c ","); [ discriminate | ].
  simpl in IH. now rewrite IH.
Qed.

(** C10: handling a start event does not depend on the meeting name it
    carries: two start payloads for one chat that differ in the name only
    give the same outcome and leave the same world.  The questionnaire that
    is started is the first pending one of the chat, whatever the name. *)
Theorem start_ignores_meeting_name (E : env) (w : world) (cq1 cq2 : json)
    (chat name1 name2 : string) :
  subscript cq1 "data" = Ret (JStr ("start," ++ chat ++ "," ++ name1)) ->
  subscript cq2 "data" = Ret (JStr ("start," ++ chat ++ "," ++ name2)) ->
  path [K "message"; K "message_id"] cq1 = path [K "message"; K "message_id"] cq2 ->
  handle_callback_query E cq1 w = handle_callback_query E cq2 w
  /\ (forall r message_id,
        comma_free chat = true ->
        path [K "message"; K "message_id"] cq1 = Ret message_id ->
        find (has_status chat pending) (questionnaires w) = Some r ->
        questionnaires (after (handle_callback_query E cq1) w)
        = update_where chat (meeting_id r) (set_status in_progress 1)
            (questionnaires w)).
Proof.
  intros H1 H2 Hm. split.
  - unfold handle_callback_query, bind, lift. rewrite H1, H2, Hm.
    destruct (split_comma_first chat) as [h Hh].
    destruct (Hh name1) as [t1 Ht1]. destruct (Hh name2) as [t2 Ht2].
    cbn -[path]. simpl in Ht1, Ht2. rewrite Ht1, Ht2. cbn -[path].
    destruct (path [K "message"; K "message_id"] cq2); reflexivity.
  - intros r message_id Hfree Hmessage Hfind.
    destruct (start_questionnaire_tables E chat
                match nth_error (split_comma name1) 0 with Some n => n | None => "" end
                message_id w r Hfind) as [<- _].
    unfold after, handle_callback_query. mstep. rewrite H1.
    pose proof (split_comma_chat chat name1 Hfree) as Hsplit.
    change (split_comma ("start," ++ chat ++ "," ++ name1))
      with ("start" :: split_comma (chat ++ "," ++ name1)).
    rewrite Hsplit. unfold item. simpl nth_error. cbv beta iota.
    unfold bind at 1, ret at 1. rewrite String.eqb_refl.
    unfold bind at 1, ret at 1. rewrite bind_lift, Hmessage. reflexivity.
Qed.

(** C10, witness. *)
Lemma start_ignores_meeting_name_witness :
  handle_callback_query sample_env (callback "start,123,Sprint Review" 7)
    (sample_world [sample_row pending 0 []])
  = handle_callback_query sample_env (callback "start,123,Retrospective" 7)
      (sample_world [sample_row pending 0 []]).
Proof.
  apply (start_ignores_meeting_name sample_env
           (sample_world [sample_row pending 0 []])
           (callback "start,123,Sprint Review" 7)
           (callback "start,123,Retrospective" 7)
           "123" "Sprint Review" "Retrospective"); reflexivity.
Defined.

(** * More of the code *)

(** ** The buttons and the payloads they carry *)

(** A character of ASCII is one byte. *)
Lemma unicode_ascii (a : ascii) (s : string) :
  (N_of_ascii a <? 128)%N = true ->
  unicode (String a s) = (N_of_ascii a, String a "") :: unicode s.
Proof.
  intros H. cbn [unicode]. cbv zeta. now rewrite H.
Qed.

(** The code points of the digits of [d]. *)
Fixpoint digit_points (d : Decimal.uint) : list N :=
  match d with
  | Decimal.Nil => []
  | Decimal.D0 d => 48 :: digit_points d
  | Decimal.D1 d => 49 :: digit_points d
  | Decimal.D2 d => 50 :: digit_points d
  | Decimal.D3 d => 51 :: digit_points d
  | Decimal.D4 d => 52 :: digit_points d
  | Decimal.D5 d => 53 :: digit_points d
  | Decimal.D6 d => 54 :: digit_points d
  | Decimal.D7 d => 55 :: digit_points d
  | Decimal.D8 d => 56 :: digit_points d
  | Decimal.D9 d => 57 :: digit_points d
  end%N.

Lemma unicode_of_uint (d : Decimal.uint) :
  map fst (unicode (NilEmpty.string_of_uint d)) = digit_points d.
Proof.
  induction d; cbn [NilEmpty.string_of_uint digit_points]; [ reflexivity | .. ];
    rewrite unicode_ascii by reflexivity; cbn [map fst]; now rewrite IHd.
Qed.

Lemma digits_step (c : N) (v acc : Z) (b : bool) (l : list N) :
  decimal c = Some v ->
  digits acc b (c :: l) = digits (10 * acc + v) true l.
Proof. intros H. cbn [digits]. now rewrite H. Qed.

Ltac digit_step :=
  cbn [digit_points Pos.of_uint_acc Pos.of_uint];
  match goal with
  | |- digits ?a ?b (?c :: ?l) = _ =>
      let v := eval vm_compute in (decimal c) in
      match v with
      | Some ?n => rewrite (digits_step c n a b l eq_refl)
      end
  end.

Lemma digits_of_uint_acc (d : Decimal.uint) (acc : positive) :
  digits (Z.pos acc) true (digit_points d) = Some (Z.pos (Pos.of_uint_acc d acc)).
Proof.
  revert acc. induction d; intros acc; [ reflexivity | .. ]; digit_step;
    match goal with
    | |- digits ?z true _ = Some (Z.pos (Pos.of_uint_acc _ ?p)) =>
        replace z with (Z.pos p) by lia; apply IHd
    end.
Qed.

Lemma digits_of_uint (d : Decimal.uint) (b : bool) :
  d <> Decimal.Nil \/ b = true ->
  digits 0 b (digit_points d) = Some (Z.of_N (Pos.of_uint d)).
Proof.
  revert b. induction d; intros b Hb;
    [ destruct Hb as [Hb | ->]; [ congruence | reflexivity ]
    | digit_step; apply IHd; now right
    | digit_step; apply (digits_of_uint_acc d) .. ].
Qed.

Lemma lstrip_plain {A} (space : A -> bool) (l : list A) :
  Forall (fun x => space x = false) l -> lstrip space l = l.
Proof. intros [ | x tl Hx _ ]; simpl; [ reflexivity | now rewrite Hx ]. Qed.

Lemma rstrip_plain {A} (space : A -> bool) (l : list A) :
  Forall (fun x => space x = false) l -> rstrip space l = l.
Proof.
  intros H. unfold rstrip. rewrite lstrip_plain by now apply Forall_rev.
  apply rev_involutive.
Qed.

Lemma digit_points_plain (d : Decimal.uint) :
  Forall (fun c => int_space c = false) (digit_points d).
Proof. induction d; simpl; constructor; auto. Qed.

(** [int(str(n))] is [n]. *)
Lemma py_int_str_of_int (n : Z) : py_int (str_of_int n) = Some n.
Proof.
  unfold py_int, str_of_int.
  destruct n as [ | p | p ]; [ reflexivity | | ]; simpl Z.to_int;
    cbn [NilZero.string_of_int];
    pose proof (DecimalPos.Unsigned.to_uint_nonnil p) as Hnil;
    pose proof (DecimalPos.Unsigned.of_to p) as Hof;
    assert (NilZero.string_of_uint (Pos.to_uint p)
            = NilEmpty.string_of_uint (Pos.to_uint p)) as ->
      by (destruct (Pos.to_uint p); [ congruence | reflexivity .. ]).
  - rewrite unicode_of_uint, lstrip_plain, rstrip_plain by apply digit_points_plain.
    pose proof (digits_of_uint (Pos.to_uint p) false (or_introl Hnil)) as Hd.
    rewrite Hof in Hd. simpl in Hd.
    destruct (Pos.to_uint p); try congruence; exact Hd.
  - rewrite unicode_ascii by reflexivity. cbn [map fst]. rewrite unicode_of_uint.
    change (N_of_ascii "-") with 45%N.
    rewrite lstrip_plain, rstrip_plain
      by (constructor; [ reflexivity | apply digit_points_plain ]).
    rewrite (digits_of_uint (Pos.to_uint p) false (or_introl Hnil)), Hof.
    reflexivity.
Qed.

Lemma comma_free_plain (s : string) :
  Forall (fun c => Ascii.eqb c "," = false) (list_ascii_of_string s) ->
  comma_free s = true.
Proof.
  induction s as [ | c s IH ]; simpl; intros H; [ reflexivity | ].
  inversion H as [ | ? ? Hc Hs ]; subst. now rewrite Hc, IH.
Qed.

Lemma string_of_uint_plain (d : Decimal.uint) :
  Forall (fun c => Ascii.eqb c "," = false)
    (list_ascii_of_string (NilEmpty.string_of_uint d)).
Proof. induction d; simpl; constructor; auto. Qed.

(** The decimal text of an integer has no comma. *)
Lemma comma_free_str_of_int (n : Z) : comma_free (str_of_int n) = true.
Proof.
  unfold str_of_int.
  assert (forall d, comma_free (NilZero.string_of_uint d) = true) as Huint.
  { intros d. destruct d; try reflexivity;
      apply comma_free_plain, string_of_uint_plain. }
  destruct n as [ | p | p ]; simpl; [ reflexivity | apply Huint | apply Huint ].
Qed.

Lemma split_comma_free (s : string) : comma_free s = true -> split_comma s = [s].
Proof.
  induction s as [ | c s IH ]; simpl; intros H; [ reflexivity | ].
  apply andb_prop in H. destruct H as [Hc Hs].
  destruct (Ascii.eqb c ","); [ discriminate | ]. now rewrite IH.
Qed.

(** The payload of an answer button, taken apart again. *)
Lemma split_answer_payload (chat m : string) (q i : Z) :
  comma_free chat = true -> comma_free m = true ->
  split_comma ("answer," ++ chat ++ "," ++ m ++ "," ++ str_of_int q ++ ","
               ++ str_of_int i)
  = ["answer"; chat; m; str_of_int q; str_of_int i].
Proof.
  intros Hchat Hm.
  change (split_comma ("answer," ++ chat ++ "," ++ m ++ "," ++ str_of_int q ++ ","
                       ++ str_of_int i))
    with ("answer" :: split_comma (chat ++ "," ++ m ++ "," ++ str_of_int q ++ ","
                                   ++ str_of_int i)).
  rewrite (split_comma_chat chat _ Hchat), (split_comma_chat m _ Hm),
    (split_comma_chat (str_of_int q) _ (comma_free_str_of_int q)),
    (split_comma_free _ (comma_free_str_of_int i)).
  reflexivity.
Qed.

(** X1: pressing a button of the keyboard of question [q] is handled as the
    answer to question [q] with the score of the button, for the chat the
    keyboard was made for: what [generate_question_keyboard] writes into the
    payload, [handle_callback_query] reads back.  The meeting id of the
    payload plays no part in it. *)
Theorem answer_button_round_trip (E : env) (chat m : string) (q : Z)
    (label payload : string) (callback_query message_id : json) (w : world) :
  comma_free chat = true ->
  comma_free m = true ->
  In (label, payload) (generate_question_keyboard q chat m) ->
  subscript callback_query "data" = Ret (JStr payload) ->
  path [K "message"; K "message_id"] callback_query = Ret message_id ->
  exists points,
    1 <= points <= 5
    /\ label = str_of_int points ++ " ⭐️"
    /\ handle_callback_query E callback_query w
       = process_answer E chat q points message_id w.
Proof.
  intros Hchat Hm Hin Hdata Hmessage.
  unfold generate_question_keyboard in Hin. apply in_map_iff in Hin.
  destruct Hin as [points [Heq Hin]].
  pose proof (f_equal fst Heq) as Hlabel. pose proof (f_equal snd Heq) as Hpayload.
  cbv beta iota delta [fst snd] in Hlabel, Hpayload. subst label payload. clear Heq.
  exists points. split; [ simpl in Hin; lia | ]. split; [ reflexivity | ].
  unfold handle_callback_query. rewrite bind_lift, Hdata. cbv beta iota.
  rewrite (split_answer_payload chat m q points Hchat Hm).
  unfold item. simpl nth_error. cbv beta iota.
  rewrite bind_ret.
  change ("answer" =? "start")%string with false. cbv iota.
  rewrite String.eqb_refl.
  rewrite !bind_ret. unfold int.
  rewrite (py_int_str_of_int q), !bind_ret.
  rewrite (py_int_str_of_int points), !bind_ret.
  now rewrite bind_lift, Hmessage.
Qed.

(** X1, witness: the third button of question 2. *)
Lemma answer_button_round_trip_witness :
  exists points,
    1 <= points <= 5
    /\ "3 ⭐️" = str_of_int points ++ " ⭐️"
    /\ handle_callback_query sample_env (callback "answer,123,m1,2,3" 7)
         (sample_world [sample_row in_progress 2 [("1", 5)]])
       = process_answer sample_env "123" 2 points (JNum 7)
           (sample_world [sample_row in_progress 2 [("1", 5)]]).
Proof.
  apply (answer_button_round_trip sample_env "123" "m1" 2 "3 ⭐️" "answer,123,m1,2,3"
           (callback "answer,123,m1,2,3" 7) (JNum 7)).
  - reflexivity.
  - reflexivity.
  - simpl. right. right. now left.
  - reflexivity.
  - reflexivity.
Defined.

(** ** What every row looks like *)

(** A pending row has no answer and no current question; a row in progress
    is at one of the five questions and holds fewer answers than its
    current question; a completed row is at [6], one past the last question. *)
Definition well_shaped (r : questionnaire) : Prop :=
  match q_status r with
  | pending => current_question r = 0 /\ answers r = []
  | in_progress =>
      1 <= current_question r <= 5
      /\ Z.of_nat (List.length (answers r)) < current_question r
  | completed =>
      current_question r = 6 /\ Z.of_nat (List.length (answers r)) <= 5
  end.

Lemma length_dict_set (k : pykey) (v : Z) (d : pydict) :
  (List.length (dict_set k v d) <= S (List.length d))%nat.
Proof.
  induction d as [ | [k' v'] d IH ]; simpl; [ lia | ].
  destruct (pykey_eqb k k'); simpl; lia.
Qed.

Lemma length_json_loads (t : json_text) :
  (List.length (json_loads t) <= List.length t)%nat.
Proof.
  unfold json_loads.
  assert (forall d,
            (List.length (fold_left (fun d kv => dict_set (KStr (fst kv)) (snd kv) d) t d)
             <= List.length d + List.length t)%nat) as H.
  { induction t as [ | kv t IH ]; intros d; simpl; [ lia | ].
    specialize (IH (dict_set (KStr (fst kv)) (snd kv) d)).
    pose proof (length_dict_set (KStr (fst kv)) (snd kv) d). lia. }
  apply (H []).
Qed.

(** An answer adds at most one member to the stored text. *)
Lemma length_answer_text (q v : Z) (t : json_text) :
  (List.length (json_dumps (dict_set (KInt q) v (json_loads t))) <= S (List.length t))%nat.
Proof.
  unfold json_dumps. rewrite length_map.
  pose proof (length_dict_set (KInt q) v (json_loads t)).
  pose proof (length_json_loads t). lia.
Qed.

Lemma Forall_update_where (P : questionnaire -> Prop) (c m : string)
    (f : questionnaire -> questionnaire) (rs : list questionnaire) :
  Forall P rs ->
  (forall x, In x rs -> has_key c m x = true -> P (f x)) ->
  Forall P (update_where c m f rs).
Proof.
  intros Hall Hf. apply Forall_forall. intros y Hy.
  unfold update_where in Hy. apply in_map_iff in Hy. destruct Hy as [x [<- Hx]].
  destruct (has_key c m x) eqn:Hk; [ now apply Hf | ].
  exact (proj1 (Forall_forall P rs) Hall x Hx).
Qed.

Lemma well_shaped_set_last_message_id (v : string) (r : questionnaire) :
  well_shaped r -> well_shaped (set_last_message_id v r).
Proof. intros H. exact H. Qed.

Lemma housekeeping_well_shaped (w w' : world) :
  housekeeping w w' ->
  Forall well_shaped (questionnaires w) -> Forall well_shaped (questionnaires w').
Proof.
  intros [ [-> _] | row Hrow _ -> _ | c m v -> _ | m _ _ -> _ ] Hall; auto.
  - apply Forall_app. split; [ exact Hall | ]. constructor; [ | constructor ].
    destruct Hrow as [Hs [Hcq [Ha _]]]. unfold well_shaped. rewrite Hs. auto.
  - apply Forall_update_where; [ exact Hall | ]. intros x Hx _.
    apply well_shaped_set_last_message_id.
    exact (proj1 (Forall_forall _ _) Hall x Hx).
Qed.

Lemma progress_well_shaped (w w' : world) :
  progress w w' ->
  primary_key (questionnaires w) ->
  Forall well_shaped (questionnaires w) -> Forall well_shaped (questionnaires w').
Proof.
  intros [ chat r Hfind -> _ | chat r q points Hfind -> _ ] Hpk Hall;
    (apply Forall_update_where; [ exact Hall | ]); intros x Hx Hk;
    destruct (find_some _ _ Hfind) as [Hr Hst]; apply has_status_chat in Hst;
    destruct Hst as [Hchat Hstatus];
    assert (x = r) as ->
      by (apply (primary_key_unique (questionnaires w)); auto;
          apply has_key_key in Hk; rewrite Hk; unfold key; now rewrite Hchat);
    pose proof (proj1 (Forall_forall _ _) Hall r Hr) as Hshape;
    unfold well_shaped in Hshape; rewrite Hstatus in Hshape.
  - destruct Hshape as [_ Ha]. unfold well_shaped. simpl. rewrite Ha. simpl. lia.
  - destruct Hshape as [Hcq Hlen]. unfold write_answer, well_shaped.
    pose proof (length_answer_text q points (answers r)) as Hmore.
    destruct (current_question r + 1 <=? 5) eqn:Hnext; simpl; rewrite ?Hstatus.
    + apply Z.leb_le in Hnext. lia.
    + apply Z.leb_gt in Hnext. lia.
Qed.

Lemma changes_well_shaped (w w' : world) :
  changes change w w' ->
  primary_key (questionnaires w) ->
  Forall well_shaped (questionnaires w) ->
  primary_key (questionnaires w') /\ Forall well_shaped (questionnaires w').
Proof.
  intros H Hpk Hall. induction H as [ | w1 w2 _ [Hpk1 Hall1] Hstep ]; [ now split | ].
  split; [ now apply (change_primary_key w1) | ].
  destruct Hstep as [Hk | Hp];
    [ now apply (housekeeping_well_shaped w1) | now apply (progress_well_shaped w1) ].
Qed.

(** X2: whatever the bot is made to do (discovery, reminders, polling, single
    starts and answers, well formed or not), every row it leaves is well
    shaped when the rows it began with were: pending rows have no answers and
    current question 0, rows in progress are at a question from 1 to 5 with
    fewer stored answers than that, completed rows are at 6 with at most five
    stored answers. *)
Theorem rows_stay_well_shaped (E : env) (ops : list operation) (w : world) :
  primary_key (questionnaires w) ->
  Forall well_shaped (questionnaires w) ->
  Forall well_shaped (questionnaires (run E ops w)).
Proof.
  intros Hpk Hall. now apply (changes_well_shaped w (run E ops w) (run_changes E ops w)).
Qed.

(** X2, witness: a meeting is discovered, started and answered twice. *)
Lemma rows_stay_well_shaped_witness :
  Forall well_shaped
    (questionnaires
       (run sample_env
          [Create (sample_meeting "m1" "Sprint Review" 123);
           Start "123" "Sprint Review" (JNum 7);
           Answer "123" 1 5 (JNum 7);
           Answer "123" 1 4 (JNum 7)]
          initial_world)).
Proof.
  apply (rows_stay_well_shaped sample_env
           [Create (sample_meeting "m1" "Sprint Review" 123);
            Start "123" "Sprint Review" (JNum 7);
            Answer "123" 1 5 (JNum 7);
            Answer "123" 1 4 (JNum 7)]
           initial_world).
  - simpl. constructor.
  - simpl. constructor.
Defined.

(** ** Rows are kept *)

(** The columns no statement of the bot writes after the INSERT. *)
Definition identity (r : questionnaire)
    : string * string * string * string * string :=
  (chat_id r, meeting_id r, meeting_name r, student_id r, created_at r).

Definition keeps_identity (f : questionnaire -> questionnaire) : Prop :=
  forall x, identity (f x) = identity x.

Lemma identity_update_where (c m : string) (f : questionnaire -> questionnaire)
    (rs : list questionnaire) :
  keeps_identity f -> map identity (update_where c m f rs) = map identity rs.
Proof.
  intros Hf. unfold update_where. rewrite map_map. apply map_ext.
  intros x. destruct (has_key c m x); [ apply Hf | reflexivity ].
Qed.

Lemma keeps_identity_write_answer (r : questionnaire) (q points : Z) :
  keeps_identity (write_answer r q points).
Proof. intros x. unfold write_answer. now destruct (_ <=? 5). Qed.

Lemma change_identity (w w' : world) :
  change w w' ->
  exists new,
    map identity (questionnaires w') = (map identity (questionnaires w) ++ new)%list.
Proof.
  intros [ [ [-> _] | row _ _ -> _ | c m v -> _ | m _ _ -> _ ]
         | [ chat r _ -> _ | chat r q points _ -> _ ] ].
  - exists []. now rewrite app_nil_r.
  - exists [identity row]. now rewrite map_app.
  - exists []. rewrite app_nil_r. now apply identity_update_where.
  - exists []. now rewrite app_nil_r.
  - exists []. rewrite app_nil_r. now apply identity_update_where.
  - exists []. rewrite app_nil_r. apply identity_update_where.
    apply keeps_identity_write_answer.
Qed.

(** X3: no row is ever deleted, moved or rewritten in its identifying
    columns: after any sequence of operations the table begins with the rows
    it had, in their order, each with its chat, meeting, meeting name, student
    and creation time; new rows come after them. *)
Theorem rows_are_kept (E : env) (ops : list operation) (w : world) :
  exists new,
    map identity (questionnaires (run E ops w))
    = (map identity (questionnaires w) ++ new)%list.
Proof.
  pose proof (run_changes E ops w) as H.
  induction H as [ | w1 w2 _ [new1 IH] Hstep ].
  - exists []. now rewrite app_nil_r.
  - destruct (change_identity w1 w2 Hstep) as [new2 H2].
    exists (new1 ++ new2)%list. now rewrite H2, IH, app_assoc.
Qed.

(** ** What a cycle of discovery or of reminders leaves alone *)

(** A row as [save_questionnaire] inserts it, with or without the reference
    of its prompt. *)
Definition unanswered (r : questionnaire) : Prop :=
  q_status r = pending /\ current_question r = 0 /\ answers r = [].

(** The tables grew at their ends: the rows that were there are as they
    were, the rows that came are unanswered. *)
Definition appended (w w' : world) : Prop :=
  exists new marks,
    questionnaires w' = (questionnaires w ++ new)%list
    /\ Forall unanswered new
    /\ processed_meetings w' = (processed_meetings w ++ marks)%list.

Lemma appended_allows_same : allows_same appended.
Proof.
  intros a b [Hq Hp]. exists [], []. rewrite !app_nil_r. auto.
Qed.

Lemma appended_trans (w w1 w2 : world) :
  appended w w1 -> appended w1 w2 -> appended w w2.
Proof.
  intros [n1 [m1 [Hq1 [Hn1 Hp1]]]] [n2 [m2 [Hq2 [Hn2 Hp2]]]].
  exists (n1 ++ n2)%list, (m1 ++ m2)%list.
  rewrite Hq2, Hq1, Hp2, Hp1, !app_assoc.
  split; [ reflexivity | ]. split; [ | reflexivity ].
  apply Forall_app. now split.
Qed.

Lemma changes_appended (w w' : world) : changes appended w w' -> appended w w'.
Proof.
  intros H. induction H as [ | w1 w2 _ IH Hstep ].
  - apply appended_allows_same. now split.
  - now apply (appended_trans w w1 w2).
Qed.

Lemma evolves_appended_process_meeting (E : env) (meeting : json) :
  evolves appended (process_meeting E meeting).
Proof.
  intros w. apply changes_one.
  destruct (process_meeting_discovery E meeting w) as [fetch [steps [_ [_ Hd]]]].
  inversion Hd as [ e w' Hs | m w' _ _ Hs
                  | row text kb reply e w' _ _ Hfresh Hrow _ Hrows Hproc
                  | row text kb reply v w' _ Hnew Hfresh Hrow _ Hrows Hproc ].
  - now apply appended_allows_same.
  - now apply appended_allows_same.
  - exists [row], []. rewrite app_nil_r.
    split; [ exact Hrows | ]. split; [ | exact Hproc ].
    constructor; [ | constructor ]. destruct Hrow as [? [? [? _]]]. now repeat split.
  - exists [set_last_message_id v row], [meeting_id row].
    split; [ | split; [ | exact Hproc ] ].
    + rewrite Hrows, update_where_app, (update_where_fresh _ _ _ _ Hfresh).
      simpl. now rewrite has_key_self.
    + constructor; [ | constructor ]. destruct Hrow as [? [? [? _]]]. now repeat split.
Qed.

(** X4: a cycle of discovery only adds to the two tables.  Whatever Notion
    answers and wherever the cycle stops, the questionnaires that were there
    are left exactly as they were (status, current question, answers,
    message reference), in their places; what is new comes after them and is
    pending, at question 0, without answers; and [processed_meetings] only
    grows at its end. *)
Theorem discovery_only_appends (E : env) (w : world) :
  appended w (after (run_notion_checker E) w).
Proof.
  apply changes_appended. revert w.
  unfold run_notion_checker, fetch_notion_meetings.
  apply evolves_try_except; [ apply appended_allows_same | ].
  apply evolves_bind;
    [ apply evolves_keeps; [ apply appended_allows_same | keeps ] | ].
  intros meetings. apply evolves_bind;
    [ apply evolves_keeps; [ apply appended_allows_same | keeps ] | ].
  intros _. apply evolves_bind;
    [ apply evolves_keeps; [ apply appended_allows_same | keeps ] | ].
  intros l. apply evolves_for_each. apply evolves_appended_process_meeting.
Qed.

(** Every column but [last_message_id]. *)
Definition content (r : questionnaire)
    : string * string * string * string * string * status * Z * json_text :=
  (chat_id r, meeting_id r, meeting_name r, student_id r, created_at r,
   q_status r, current_question r, answers r).

(** The tables differ in message references at most. *)
Definition reprompts_only (w w' : world) : Prop :=
  map content (questionnaires w') = map content (questionnaires w)
  /\ processed_meetings w' = processed_meetings w.

Lemma reprompts_only_allows_same : allows_same reprompts_only.
Proof. intros a b [Hq Hp]. split; [ now rewrite Hq | exact Hp ]. Qed.

Lemma changes_reprompts_only (w w' : world) :
  changes reprompts_only w w' -> reprompts_only w w'.
Proof.
  intros H. induction H as [ | w1 w2 _ [IHq IHp] [Hq Hp] ]; [ now split | ].
  split; congruence.
Qed.

Lemma content_update_where (c m v : string) (rs : list questionnaire) :
  map content (update_where c m (set_last_message_id v) rs) = map content rs.
Proof.
  unfold update_where. rewrite map_map. apply map_ext.
  intros x. now destruct (has_key c m x).
Qed.

Lemma evolves_reprompts_only_remind (E : env) (r : questionnaire) :
  evolves reprompts_only (remind E r).
Proof.
  intros w. destruct (remind_reminded E r w) as [t [_ H]]. apply changes_one.
  inversion H as [ quiet e w' _ Hs | quiet text reply e w' _ _ Hs
                 | quiet text reply v w' _ _ _ Hrows Hproc ].
  - now apply reprompts_only_allows_same.
  - now apply reprompts_only_allows_same.
  - split; [ | exact Hproc ]. rewrite Hrows. apply content_update_where.
Qed.

(** X5: a cycle of reminders writes message references and nothing else.
    Whatever the collaborators answer, the table has the same rows in the
    same places afterwards, each with its status, current question and
    answers, and [processed_meetings] is as it was. *)
Theorem reminders_only_reprompt (E : env) (w : world) :
  reprompts_only w (after (run_reminder_checker E) w).
Proof.
  apply changes_reprompts_only. revert w.
  unfold run_reminder_checker.
  apply evolves_try_except; [ apply reprompts_only_allows_same | ].
  apply evolves_bind;
    [ apply evolves_keeps; [ apply reprompts_only_allows_same | keeps ] | ].
  intros rs. apply evolves_for_each. apply evolves_reprompts_only_remind.
Qed.

(** ** The offset of the polling loop *)

(** A computation that leaves the offset of the polling loop alone. *)
Definition keeps_offset {A} (c : M A) : Prop :=
  forall w, offset (after c w) = offset w.

Lemma keeps_offset_ret {A} (a : A) : keeps_offset (ret a).
Proof. now intros w. Qed.

Lemma keeps_offset_raise {A} (e : exn) : keeps_offset (@raise A e).
Proof. now intros w. Qed.

Lemma keeps_offset_lift {A} (o : outcome A) : keeps_offset (lift o).
Proof. now intros w. Qed.

Lemma keeps_offset_record (e : event) : keeps_offset (record e).
Proof. now intros w. Qed.

Lemma keeps_offset_execute (s : statement) : keeps_offset (execute s).
Proof. now intros w. Qed.

Lemma keeps_offset_set_questionnaires (rs : list questionnaire) :
  keeps_offset (set_questionnaires rs).
Proof. now intros w. Qed.

Lemma keeps_offset_set_processed (ms : list string) : keeps_offset (set_processed ms).
Proof. now intros w. Qed.

Lemma keeps_offset_http (E : env) (c : call) : keeps_offset (http E c).
Proof. intros w. unfold after, http. now destruct (reply_at E (tick w)). Qed.

Lemma keeps_offset_now (E : env) : keeps_offset (now E).
Proof. now intros w. Qed.

Lemma keeps_offset_rows : keeps_offset rows.
Proof. now intros w. Qed.

Lemma keeps_offset_processed : keeps_offset processed.
Proof. now intros w. Qed.

Lemma keeps_offset_sql_text (j : json) : keeps_offset (sql_text j).
Proof. unfold sql_text. destruct (text_of j); now intros w. Qed.

Lemma keeps_offset_sql_integer (n : Z) : keeps_offset (sql_integer n).
Proof. unfold sql_integer. destruct (int64 n); now intros w. Qed.

Lemma keeps_offset_item (data : list string) (i : nat) : keeps_offset (item data i).
Proof. unfold item. destruct (nth_error data i); now intros w. Qed.

Lemma keeps_offset_int (s : string) : keeps_offset (int s).
Proof. unfold int. destruct (py_int s); now intros w. Qed.

Lemma keeps_offset_bind {A B} (c : M A) (k : A -> M B) :
  keeps_offset c -> (forall a, keeps_offset (k a)) -> keeps_offset (bind c k).
Proof.
  intros Hc Hk w. rewrite after_bind. destruct (result c w) as [a | e].
  - now rewrite Hk, Hc.
  - apply Hc.
Qed.

Create HintDb offset.

#[local] Hint Resolve keeps_offset_ret keeps_offset_raise keeps_offset_lift
  keeps_offset_record keeps_offset_execute keeps_offset_set_questionnaires
  keeps_offset_set_processed keeps_offset_http keeps_offset_now keeps_offset_rows
  keeps_offset_processed keeps_offset_sql_text keeps_offset_sql_integer
  keeps_offset_item keeps_offset_int : offset.

Ltac keeps_offset :=
  repeat first
    [ progress auto with offset
    | apply keeps_offset_bind; [ | intros ? ]
    | match goal with
      | |- keeps_offset (if ?b then _ else _) => destruct b
      | |- keeps_offset (match ?x with _ => _ end) => destruct x
      end ].

Lemma keeps_offset_get_meeting_summary (E : env) (m : string) :
  keeps_offset (get_meeting_summary E m).
Proof. unfold get_meeting_summary. keeps_offset. Qed.

Lemma keeps_offset_save_feedback_to_notion (E : env) (c m : string) (a : pydict) :
  keeps_offset (save_feedback_to_notion E c m a).
Proof. unfold save_feedback_to_notion. keeps_offset. Qed.

#[local] Hint Resolve keeps_offset_get_meeting_summary
  keeps_offset_save_feedback_to_notion : offset.

Lemma keeps_offset_start_questionnaire (E : env) (chat name : string) (m : json) :
  keeps_offset (start_questionnaire E chat name m).
Proof.
  unfold start_questionnaire, update_questionnaire_status, edit_telegram_message.
  keeps_offset.
Qed.

Lemma keeps_offset_process_answer (E : env) (chat : string) (q points : Z) (m : json) :
  keeps_offset (process_answer E chat q points m).
Proof.
  unfold process_answer, edit_telegram_message, mark_notion_meeting_completed.
  keeps_offset.
Qed.

#[local] Hint Resolve keeps_offset_start_questionnaire keeps_offset_process_answer
  : offset.

Lemma keeps_offset_handle_callback_query (E : env) (callback_query : json) :
  keeps_offset (handle_callback_query E callback_query).
Proof. unfold handle_callback_query. keeps_offset. Qed.

#[local] Hint Resolve keeps_offset_handle_callback_query : offset.

Lemma handle_update_offset (E : env) (update : json) (n : Z) (w : world) :
  subscript update "update_id" = Ret (JNum n) ->
  offset (after (handle_update E update) w) = n + 1.
Proof.
  intros Hid. unfold handle_update, after. rewrite bind_lift, Hid. cbv iota.
  match goal with
  | |- offset (snd (bind (set_offset _) (fun _ => ?c) w)) = _ =>
      assert (keeps_offset c) as Hrest
        by (unfold send_telegram_message; keeps_offset);
      change (offset (after c (after (set_offset (n + 1)) w)) = n + 1)
  end.
  now rewrite Hrest.
Qed.

(** X6: the offset moves past an update before the update is handled.  After
    [handle_update] the offset is the update's id plus one whether the
    handling returned or raised, so an update whose handling fails is not
    asked for again. *)
Theorem offset_moves_past_update (E : env) (update : json) (n : Z) (w : world) :
  subscript update "update_id" = Ret (JNum n) ->
  offset (after (handle_update E update) w) = n + 1.
Proof. apply handle_update_offset. Qed.

(** X6, witness: a button press whose payload is too short raises, and the
    offset has moved. *)
Lemma offset_moves_past_update_witness :
  offset (after (handle_update sample_env
                   (JObj [("update_id", JNum 41);
                          ("callback_query", callback "answer,123" 7)]))
            (sample_world [sample_row in_progress 1 []]))
  = 41 + 1.
Proof.
  apply (offset_moves_past_update sample_env
           (JObj [("update_id", JNum 41);
                  ("callback_query", callback "answer,123" 7)]) 41).
  reflexivity.
Defined.

(** ** Updates that are no button presses *)

Lemma bind_set_offset {B} (n : Z) (k : unit -> M B) (w : world) :
  bind (set_offset n) k w
  = k tt (mkWorld (questionnaires w) (processed_meetings w) n (tick w) (log w)).
Proof. reflexivity. Qed.

Ltac quiet :=
  split; [ split; reflexivity
         | exists []; rewrite app_nil_r; split; [ reflexivity | now left ] ].

(** X7: an update that is no button press touches neither table, and the
    most it makes the bot say is one message that echoes a chat id. *)
Theorem other_updates_change_nothing (E : env) (update : json) (w : world) :
  py_in "callback_query" update = Ret false ->
  same_tables w (after (handle_update E update) w)
  /\ exists new,
       log (after (handle_update E update) w) = (log w ++ new)%list
       /\ (new = []
           \/ exists chat reply,
                new = [Called (SendMessage chat ("ID чата: " ++ py_str E chat) None) reply]).
Proof.
  intros Hcb. unfold handle_update, after, send_telegram_message.
  rewrite bind_lift.
  destruct (subscript update "update_id") as [[ s | n | l | m ] | e ]; cbv iota;
    try (rewrite bind_raise; quiet); try quiet.
  rewrite bind_set_offset, bind_lift, Hcb. cbv iota.
  rewrite bind_lift. destruct (py_in "message" update) as [[] | e]; try quiet.
  rewrite bind_lift. destruct (subscript update "message") as [message | e]; try quiet.
  rewrite bind_lift. destruct (py_in "text" message) as [[] | e]; try quiet.
  rewrite bind_lift.
  destruct (subscript message "text") as [[ t | k | l | m ] | e]; try quiet.
  destruct (String.eqb (strip t) "/chat_id@Feedback_Impact_bot"); try quiet.
  rewrite bind_lift.
  destruct (path [K "chat"; K "id"] message) as [chat | e]; try quiet.
  rewrite bind_http. cbn [tick].
  destruct (reply_at E (tick w)) as [j | ] eqn:Hreply;
    (split; [ split; reflexivity | ]);
    eexists [_]; (split; [ reflexivity | right; eauto ]).
Qed.

(** X7, witness: a text message that is not the command. *)
Lemma other_updates_change_nothing_witness :
  same_tables (sample_world [sample_row pending 0 []])
    (after (handle_update sample_env
              (JObj [("update_id", JNum 41);
                     ("message", JObj [("text", JStr "hello");
                                       ("chat", JObj [("id", JNum 123)])])]))
       (sample_world [sample_row pending 0 []])).
Proof.
  apply (other_updates_change_nothing sample_env
           (JObj [("update_id", JNum 41);
                  ("message", JObj [("text", JStr "hello");
                                    ("chat", JObj [("id", JNum 123)])])])
           (sample_world [sample_row pending 0 []])).
  reflexivity.
Defined.

Lemma subscript_py_in (j v : json) (k : string) :
  subscript j k = Ret v -> py_in k j = Ret true.
Proof.
  destruct j as [ s | n | l | m ]; simpl; try discriminate.
  now destruct (assoc k m).
Qed.

(** X8: the command [/chat_id@Feedback_Impact_bot], with or without white
    space around it, is answered by one message to the chat it came from,
    whose text ends in the id of that chat; the offset has moved past the
    update and nothing else has changed.  The update fails only if the
    message cannot be sent. *)
Theorem chat_id_command_echo (E : env) (update message chat : json) (n : Z)
    (t : string) (w : world) :
  subscript update "update_id" = Ret (JNum n) ->
  py_in "callback_query" update = Ret false ->
  subscript update "message" = Ret message ->
  subscript message "text" = Ret (JStr t) ->
  strip t = "/chat_id@Feedback_Impact_bot" ->
  path [K "chat"; K "id"] message = Ret chat ->
  handle_update E update w
  = (match reply_at E (tick w) with
     | Some _ => Ret tt
     | None => Raise ClientError
     end,
     mkWorld (questionnaires w) (processed_meetings w) (n + 1) (S (tick w))
       (log w ++ [Called (SendMessage chat ("ID чата: " ++ py_str E chat) None)
                    (reply_at E (tick w))])).
Proof.
  intros Hid Hcb Hmessage Htext Hstrip Hchat.
  unfold handle_update, send_telegram_message.
  rewrite bind_lift, Hid. cbv iota.
  rewrite bind_set_offset, bind_lift, Hcb. cbv iota.
  rewrite bind_lift, (subscript_py_in update message "message" Hmessage). cbv iota.
  rewrite bind_lift, Hmessage. cbv iota.
  rewrite bind_lift, (subscript_py_in message (JStr t) "text" Htext). cbv iota.
  rewrite bind_lift, Htext. cbv iota. rewrite Hstrip, String.eqb_refl.
  rewrite bind_lift, Hchat. cbv iota.
  rewrite bind_http. unfold answered. cbn [tick questionnaires processed_meetings offset log].
  now destruct (reply_at E (tick w)).
Qed.

(** X8, witness: the command between a no-break space (U+00A0) and an em
    space (U+2003), from chat -100123. *)
Lemma chat_id_command_echo_witness :
  handle_update sample_env
    (JObj [("update_id", JNum 41);
           ("message",
             JObj [("text", JStr (String "194" (String "160" "")
                                    ++ "/chat_id@Feedback_Impact_bot"
                                    ++ String "226" (String "128" (String "131" ""))));
                   ("chat", JObj [("id", JNum (-100123))])])])
    (sample_world [])
  = (Ret tt,
     mkWorld [] ["m1"] 42 1
       [Called (SendMessage (JNum (-100123)) "ID чата: -100123" None)
          (Some sample_reply)]).
Proof.
  apply (chat_id_command_echo sample_env
           (JObj [("update_id", JNum 41);
                  ("message",
                    JObj [("text", JStr (String "194" (String "160" "")
                                           ++ "/chat_id@Feedback_Impact_bot"
                                           ++ String "226" (String "128" (String "131" ""))));
                          ("chat", JObj [("id", JNum (-100123))])])])
           (JObj [("text", JStr (String "194" (String "160" "")
                                  ++ "/chat_id@Feedback_Impact_bot"
                                  ++ String "226" (String "128" (String "131" ""))));
                  ("chat", JObj [("id", JNum (-100123))])])
           (JNum (-100123)) 41
           (String "194" (String "160" "")
              ++ "/chat_id@Feedback_Impact_bot"
              ++ String "226" (String "128" (String "131" "")))
           (sample_world [])); reflexivity.
Defined.

(** ** Replies without a list *)

(** X9: when the reply of Notion to the query is an object without
    [results] (an error object, say), the cycle of discovery takes it for an
    empty list: one call, no row, no mark, and nothing caught or logged as an
    error. *)
Theorem discovery_without_results (E : env) (fields : list (string * json))
    (w : world) :
  reply_at E (tick w) = Some (JObj fields) ->
  assoc "results" fields = None ->
  run_notion_checker E w
  = (Ret tt,
     mkWorld (questionnaires w) (processed_meetings w) (offset w) (S (tick w))
       (log w ++ [Called QueryMeetings (Some (JObj fields))])).
Proof.
  intros Hreply Hnone.
  unfold run_notion_checker, try_except, fetch_notion_meetings.
  rewrite bind_bind, bind_http, Hreply. unfold answered. rewrite Hreply.
  rewrite bind_lift. simpl py_get. rewrite Hnone. reflexivity.
Qed.

(** Every call is answered by an error object. *)
Definition error_env : env :=
  mkEnv (fun _ => Some (JObj [("object", JStr "error"); ("status", JNum 401)]))
    (fun _ => "2025-01-01T00:00:00") (fun _ => "").

(** X9, witness. *)
Lemma discovery_without_results_witness :
  run_notion_checker error_env initial_world
  = (Ret tt,
     mkWorld [] [] 0 1
       [Called QueryMeetings
          (Some (JObj [("object", JStr "error"); ("status", JNum 401)]))]).
Proof.
  apply (discovery_without_results error_env
           [("object", JStr "error"); ("status", JNum 401)] initial_world);
    reflexivity.
Defined.

(** X10: the same for the polling loop: a reply of Telegram without
    [result] is taken for an empty batch, and the offset stays. *)
Theorem polling_without_result (E : env) (fields : list (string * json))
    (w : world) :
  reply_at E (tick w) = Some (JObj fields) ->
  assoc "result" fields = None ->
  run_telegram_polling E w
  = (Ret tt,
     mkWorld (questionnaires w) (processed_meetings w) (offset w) (S (tick w))
       (log w ++ [Called (GetUpdates (offset w)) (Some (JObj fields))])).
Proof.
  intros Hreply Hnone.
  unfold run_telegram_polling, try_except, get_telegram_updates.
  unfold bind at 1. rewrite bind_bind, bind_http, Hreply. unfold answered.
  rewrite Hreply, bind_lift. simpl py_get. rewrite Hnone. reflexivity.
Qed.

(** X10, witness. *)
Lemma polling_without_result_witness :
  run_telegram_polling error_env initial_world
  = (Ret tt,
     mkWorld [] [] 0 1
       [Called (GetUpdates 0)
          (Some (JObj [("object", JStr "error"); ("status", JNum 401)]))]).
Proof.
  apply (polling_without_result error_env
           [("object", JStr "error"); ("status", JNum 401)] initial_world);
    reflexivity.
Defined.

(** ** A meeting with a row and without a mark *)

Lemma path_app (s1 s2 : list selector) (j : json) :
  path (s1 ++ s2) j = obind (path s1 j) (path s2).
Proof.
  revert j. induction s1 as [ | [k | ] s1 IH ]; intros j; simpl; [ reflexivity | | ].
  - destruct (subscript j k); simpl; auto.
  - destruct (first j); simpl; auto.
Qed.

(** A run that raised, wrote no table and sent no message. *)
Definition blocked (w : world) (p : outcome unit * world) : Prop :=
  exists e new,
    fst p = Raise e
    /\ same_tables w (snd p)
    /\ log (snd p) = (log w ++ new)%list
    /\ Forall not_send new.

Lemma blocked_early (w : world) (e : exn) : blocked w (Raise e, w).
Proof.
  exists e, []. simpl. rewrite app_nil_r. repeat split; constructor.
Qed.

(** X11: a meeting that has its row but is not marked as processed cannot
    be discovered again.  Whatever Notion answers, [process_meeting] raises
    (at the latest in the INSERT, which finds the key taken), writes no table
    and sends no prompt; the meeting stays unmarked, and a cycle of discovery
    ends at it every time it is listed. *)
Theorem unmarked_meeting_blocks_discovery (E : env) (meeting number : json)
    (m : string) (w : world) :
  id_of meeting = Some m ->
  ~ In m (processed_meetings w) ->
  path [K "properties"; K "TG_CHAT_ID"; K "rollup"; K "array"; At0; K "number"]
    meeting = Ret number ->
  existsb (has_key (py_str E number) m) (questionnaires w) = true ->
  blocked w (process_meeting E meeting w).
Proof.
  intros Hid Hnew Hnumber Hrow. unfold process_meeting.
  unfold id_of in Hid.
  rewrite bind_lift.
  change [K "properties"; K "TG_CHAT_ID"; K "rollup"; K "array"; At0; K "number"]
    with ([K "properties"] ++ [K "TG_CHAT_ID"; K "rollup"; K "array"]
          ++ [At0; K "number"])%list in Hnumber.
  rewrite path_app in Hnumber.
  change (path [K "properties"] meeting)
    with (obind (subscript meeting "properties") (fun j => Ret j)) in Hnumber.
  destruct (subscript meeting "properties") as [properties | e];
    [ | discriminate ].
  cbn [obind] in Hnumber. rewrite path_app in Hnumber.
  rewrite bind_lift.
  destruct (subscript meeting "id") as [meeting_id | e]; [ | discriminate ].
  rewrite bind_lift.
  destruct (path [K "Name"; K "title"; At0; K "text"; K "content"] properties)
    as [meeting_name | e]; [ | apply blocked_early ].
  rewrite bind_lift.
  destruct (path [K "Mentor(s)"; K "relation"; At0; K "id"] properties)
    as [mentor_relation | e]; [ | apply blocked_early ].
  unfold get_notion_page_name. rewrite bind_bind, bind_http.
  assert (forall e,
            blocked w (Raise e, answered E w (GetPage (py_str E mentor_relation))))
    as Hfetched.
  { intros e.
    exists e, [Called (GetPage (py_str E mentor_relation)) (reply_at E (tick w))].
    simpl. repeat split. repeat constructor. }
  destruct (reply_at E (tick w)) as [page | ] eqn:Hreply; [ | apply Hfetched ].
  rewrite bind_lift.
  destruct (path [K "properties"; K "Name"; K "title"; At0; K "text"; K "content"] page)
    as [mentor_name | e]; [ | apply Hfetched ].
  rewrite bind_lift.
  destruct (path [K "Student"; K "relation"; At0; K "id"] properties)
    as [student | e]; [ | apply Hfetched ].
  rewrite bind_lift.
  destruct (path [K "TG_CHAT_ID"; K "rollup"; K "array"] properties)
    as [chat_id_array | e]; [ | discriminate ].
  cbn [obind] in Hnumber. rewrite bind_lift, Hnumber.
  unfold is_meeting_processed. rewrite bind_bind, bind_sql_text, Hid. cbv beta iota.
  rewrite bind_bind, bind_processed, bind_ret.
  assert (existsb (String.eqb m) (processed_meetings (answered E w
            (GetPage (py_str E mentor_relation)))) = false) as ->.
  { simpl. destruct (existsb (String.eqb m) (processed_meetings w)) eqn:Hex;
      [ | reflexivity ].
    apply existsb_eqb_In in Hex. contradiction. }
  unfold save_questionnaire. rewrite bind_bind, bind_now.
  rewrite bind_bind, bind_sql_text, Hid. cbv beta iota.
  assert (forall e,
            blocked w (Raise e, ticked (answered E w (GetPage (py_str E mentor_relation)))))
    as Hticked.
  { intros e. exists e, [Called (GetPage (py_str E mentor_relation)) (reply_at E (tick w))].
    simpl. repeat split. repeat constructor. }
  rewrite bind_bind, bind_sql_text.
  destruct (text_of meeting_name) as [name | ]; [ | apply Hticked ].
  rewrite bind_bind, bind_sql_text.
  destruct (text_of student) as [student_text | ]; [ | apply Hticked ].
  rewrite bind_bind, bind_rows.
  change (questionnaires (ticked (answered E w (GetPage (py_str E mentor_relation)))))
    with (questionnaires w).
  rewrite Hrow, bind_raise. apply Hticked.
Qed.

(** X11, witness: the row of meeting m1 is there, its mark is not. *)
Lemma unmarked_meeting_blocks_discovery_witness :
  blocked (mkWorld [sample_row pending 0 []] [] 0 0 [])
    (process_meeting sample_env (sample_meeting "m1" "Sprint Review" 123)
       (mkWorld [sample_row pending 0 []] [] 0 0 [])).
Proof.
  apply (unmarked_meeting_blocks_discovery sample_env
           (sample_meeting "m1" "Sprint Review" 123) (JNum 123) "m1"
           (mkWorld [sample_row pending 0 []] [] 0 0 [])).
  - reflexivity.
  - simpl. tauto.
  - reflexivity.
  - reflexivity.
Defined.

(** ** The closing answer *)

Lemma dict_get_absent (k : pykey) (d : pydict) :
  ~ In k (map fst d) -> dict_get k d = None.
Proof.
  induction d as [ | [k' v'] d IH ]; simpl; intros Hn; [ reflexivity | ].
  destruct (pykey_eqb k k') eqn:Hk.
  - apply pykey_eqb_eq in Hk. subst. tauto.
  - apply IH. tauto.
Qed.

(** A dictionary read from its text has no integer key. *)
Lemma dict_get_int_loads (n : Z) (t : json_text) :
  dict_get (KInt n) (json_loads t) = None.
Proof.
  apply dict_get_absent. intros Hin.
  destruct (json_loads_loaded t) as [_ Hstr].
  destruct (Hstr _ Hin) as [s Hs]. discriminate.
Qed.

Lemma closing_score (q points : Z) (t : json_text) :
  dict_get_default (KInt 5) (dict_set (KInt q) points (json_loads t)) 0
  = if q =? 5 then points else 0.
Proof.
  unfold dict_get_default. destruct (q =? 5) eqn:Hq.
  - apply Z.eqb_eq in Hq. subst q. now rewrite dict_get_set_same.
  - apply Z.eqb_neq in Hq. rewrite dict_get_set_other by congruence.
    now rewrite dict_get_int_loads.
Qed.

Lemma stored_score (s : string) (q points : Z) (t : json_text) :
  dict_get_default (KStr s) (dict_set (KInt q) points (json_loads t)) 0
  = dict_get_default (KStr s) (json_loads t) 0.
Proof.
  unfold dict_get_default. now rewrite dict_get_set_other by discriminate.
Qed.

(** X12: the scores of the feedback record.  When the closing answer sends
    a record, its first four scores are the ones stored under "1" to "4"
    before that answer (0 where there is none), and its fifth score is the
    score of the closing answer itself if that answer cites question 5, and 0
    if it cites another question: the score of an answer that closes the
    questionnaire under another number is stored in the row but in no field
    of the record. *)
Theorem closing_record_scores (E : env) (chat : string) (q points : Z)
    (m : json) (w : world) (r : questionnaire) :
  find (has_status chat in_progress) (questionnaires w) = Some r ->
  5 < current_question r + 1 ->
  exists new,
    log (after (process_answer E chat q points m) w) = (log w ++ new)%list
    /\ forall fb, In fb (feedback_records new) ->
         fb_productivity fb = dict_get_default (KStr "1") (json_loads (answers r)) 0
         /\ fb_response_speed fb = dict_get_default (KStr "2") (json_loads (answers r)) 0
         /\ fb_plan_understanding fb
            = dict_get_default (KStr "3") (json_loads (answers r)) 0
         /\ fb_expertise fb = dict_get_default (KStr "4") (json_loads (answers r)) 0
         /\ fb_effectiveness fb = if q =? 5 then points else 0.
Proof.
  intros Hfind Hlast.
  destruct (process_answer_last E chat q points m w r Hfind Hlast)
    as [new [Hlog [Hrecords _]]].
  exists new. split; [ exact Hlog | ]. intros fb Hfb.
  destruct Hrecords as [Hnone | [fb' [Hone Hscores]]];
    [ rewrite Hnone in Hfb; contradiction | ].
  rewrite Hone in Hfb. destruct Hfb as [<- | []].
  unfold scores in Hscores. rewrite closing_score, !stored_score in Hscores.
  injection Hscores as H1 H2 H3 H4 H5. auto.
Qed.

(** X12, witness: question 5 is current, the answer cites question 3. *)
Lemma closing_record_scores_witness :
  exists new,
    log (after (process_answer sample_env "123" 3 2 (JNum 7))
           (sample_world [sample_row in_progress 5
                            [("1", 5); ("2", 4); ("3", 3); ("4", 2)]]))
    = (log (sample_world [sample_row in_progress 5
                            [("1", 5); ("2", 4); ("3", 3); ("4", 2)]]) ++ new)%list
    /\ forall fb, In fb (feedback_records new) ->
         fb_productivity fb = 5 /\ fb_response_speed fb = 4
         /\ fb_plan_understanding fb = 3 /\ fb_expertise fb = 2
         /\ fb_effectiveness fb = 0.
Proof.
  apply (closing_record_scores sample_env "123" 3 2 (JNum 7)
           (sample_world [sample_row in_progress 5
                            [("1", 5); ("2", 4); ("3", 3); ("4", 2)]])
           (sample_row in_progress 5 [("1", 5); ("2", 4); ("3", 3); ("4", 2)])).
  - reflexivity.
  - simpl. lia.
Defined.

Lemma find_none_all {A} (f : A -> bool) (l : list A) :
  (forall x, In x l -> f x = false) -> find f l = None.
Proof.
  induction l as [ | y l IH ]; simpl; intros H; [ reflexivity | ].
  rewrite (H y) by auto. apply IH. auto.
Qed.

(** X13: the closing is attempted once.  When the answer that closes a
    questionnaire has been handled (its [next_question] fitting in the 64
    bits of the column), whether it returned or one of its calls to Notion or
    Telegram raised, the row is completed; and when the chat had no other
    questionnaire in progress, every later answer from that chat returns
    without a write or a call, so a feedback record that was not sent then is
    never sent. *)
Theorem closing_is_not_retried (E : env) (chat : string) (q points : Z)
    (m : json) (w : world) (r : questionnaire) :
  primary_key (questionnaires w) ->
  find (has_status chat in_progress) (questionnaires w) = Some r ->
  5 < current_question r + 1 < 2 ^ 63 ->
  (forall x, In x (questionnaires w) -> has_status chat in_progress x = true -> x = r) ->
  let w1 := after (process_answer E chat q points m) w in
  status_at chat (meeting_id r) w1 = Some completed
  /\ forall q' points' m', process_answer E chat q' points' m' w1 = (Ret tt, w1).
Proof.
  intros Hpk Hfind Hlast Honly w1.
  destruct (process_answer_tables E chat q points m w r Hfind) as [Hrows _];
    [ apply int64_spec; lia | ].
  fold w1 in Hrows.
  destruct (find_some _ _ Hfind) as [Hin Hst]. apply has_status_chat in Hst.
  destruct Hst as [Hchat Hstatus].
  assert (forall x, In x (questionnaires w) -> has_key chat (meeting_id r) x = true ->
                    x = r) as Huniq.
  { intros x Hx Hk. apply (primary_key_unique (questionnaires w)); auto.
    apply has_key_key in Hk. rewrite Hk. unfold key. now rewrite Hchat. }
  assert (forall x, q_status (write_answer r q points x) = completed) as Hdone.
  { intros x. unfold write_answer.
    destruct (current_question r + 1 <=? 5) eqn:H; [ apply Z.leb_le in H; lia | ].
    reflexivity. }
  split.
  - unfold status_at. rewrite Hrows, find_key_update_where by auto with keeps.
    destruct (find (has_key chat (meeting_id r)) (questionnaires w)) as [x | ] eqn:Hx.
    + destruct (find_some _ _ Hx) as [_ Hk]. simpl. rewrite Hk. now rewrite Hdone.
    + apply (find_none _ _ Hx) in Hin. rewrite <- Hchat, has_key_self in Hin.
      discriminate.
  - intros q' points' m'. apply process_answer_idle. rewrite Hrows.
    apply find_none_all. intros y Hy. unfold update_where in Hy.
    apply in_map_iff in Hy. destruct Hy as [x [<- Hx]].
    destruct (has_key chat (meeting_id r) x) eqn:Hk.
    + unfold has_status. now rewrite Hdone, andb_false_r.
    + destruct (has_status chat in_progress x) eqn:Hs; [ | reflexivity ].
      rewrite (Honly x Hx Hs), <- Hchat, has_key_self in Hk. discriminate.
Qed.

(** No call is answered. *)
Definition nothing_answers : env :=
  mkEnv (fun _ => None) (fun _ => "2025-01-01T00:00:00") (fun _ => "").

(** X13, witness: the summary cannot be fetched, the row is completed all the
    same. *)
Lemma closing_is_not_retried_witness :
  status_at "123" "m1"
    (after (process_answer nothing_answers "123" 5 1 (JNum 7))
       (sample_world [sample_row in_progress 5
                        [("1", 5); ("2", 4); ("3", 3); ("4", 2)]]))
  = Some completed
  /\ forall q' points' m',
       process_answer nothing_answers "123" q' points' m'
         (after (process_answer nothing_answers "123" 5 1 (JNum 7))
            (sample_world [sample_row in_progress 5
                             [("1", 5); ("2", 4); ("3", 3); ("4", 2)]]))
       = (Ret tt,
          after (process_answer nothing_answers "123" 5 1 (JNum 7))
            (sample_world [sample_row in_progress 5
                             [("1", 5); ("2", 4); ("3", 3); ("4", 2)]])).
Proof.
  apply (closing_is_not_retried nothing_answers "123" 5 1 (JNum 7)
           (sample_world [sample_row in_progress 5
                            [("1", 5); ("2", 4); ("3", 3); ("4", 2)]])
           (sample_row in_progress 5 [("1", 5); ("2", 4); ("3", 3); ("4", 2)])).
  - simpl. repeat constructor. simpl. tauto.
  - reflexivity.
  - simpl. lia.
  - simpl. intros x [<- | []] _. reflexivity.
Defined.

(** ** What the polling loop leaves alone *)

(** The columns that neither a start nor an answer writes. *)
Definition reference (r : questionnaire)
    : string * string * string * string * string * option string :=
  (chat_id r, meeting_id r, meeting_name r, student_id r, created_at r,
   last_message_id r).

(** The tables differ in status, current question and answers at most. *)
Definition answers_only (w w' : world) : Prop :=
  map reference (questionnaires w') = map reference (questionnaires w)
  /\ processed_meetings w' = processed_meetings w.

Lemma answers_only_allows_same : allows_same answers_only.
Proof. intros a b [Hq Hp]. split; [ now rewrite Hq | exact Hp ]. Qed.

Lemma changes_answers_only (w w' : world) :
  changes answers_only w w' -> answers_only w w'.
Proof.
  intros H. induction H as [ | w1 w2 _ [IHq IHp] [Hq Hp] ]; [ now split | ].
  split; congruence.
Qed.

Lemma reference_update_where (c m : string) (f : questionnaire -> questionnaire)
    (rs : list questionnaire) :
  (forall x, reference (f x) = reference x) ->
  map reference (update_where c m f rs) = map reference rs.
Proof.
  intros Hf. unfold update_where. rewrite map_map. apply map_ext.
  intros x. destruct (has_key c m x); [ apply Hf | reflexivity ].
Qed.

Lemma progress_answers_only (w w' : world) : progress w w' -> answers_only w w'.
Proof.
  unfold answers_only.
  intros [ chat r _ -> Hp | chat r q points _ -> Hp ]; (split; [ | exact Hp ]);
    apply reference_update_where; intros x; [ reflexivity | ].
  unfold write_answer. now destruct (_ <=? 5).
Qed.

Lemma evolves_answers_only_handle_callback_query (E : env) (callback_query : json) :
  evolves answers_only (handle_callback_query E callback_query).
Proof.
  intros w. apply changes_one.
  destruct (handle_callback_query_change E callback_query w) as [H | H];
    [ now apply progress_answers_only | now apply answers_only_allows_same ].
Qed.

Lemma evolves_answers_only_handle_update (E : env) (update : json) :
  evolves answers_only (handle_update E update).
Proof.
  unfold handle_update.
  repeat first
    [ apply evolves_answers_only_handle_callback_query
    | apply evolves_keeps; [ apply answers_only_allows_same | solve [ keeps ] ]
    | apply evolves_bind; [ | intros ? ]
    | match goal with
      | |- evolves _ (if ?b then _ else _) => destruct b
      | |- evolves _ (match ?x with _ => _ end) => destruct x
      end ].
Qed.

(** X14: a cycle of the polling loop writes status, current question and
    answers and nothing else.  Whatever the updates are, it inserts no row,
    marks no meeting as processed and leaves every [last_message_id] as it
    was: the reference a row holds after a start or an answer is still that
    of its first prompt. *)
Theorem polling_writes_answers_only (E : env) (w : world) :
  answers_only w (after (run_telegram_polling E) w).
Proof.
  apply changes_answers_only. revert w.
  unfold run_telegram_polling, get_telegram_updates.
  apply evolves_try_except; [ apply answers_only_allows_same | ].
  apply evolves_bind;
    [ apply evolves_keeps; [ apply answers_only_allows_same | now intros w ] | ].
  intros n. apply evolves_bind;
    [ apply evolves_keeps; [ apply answers_only_allows_same | keeps ] | ].
  intros updates. apply evolves_bind;
    [ apply evolves_keeps; [ apply answers_only_allows_same | keeps ] | ].
  intros l. apply evolves_for_each. apply evolves_answers_only_handle_update.
Qed.

(** ** The summary of a meeting *)

Lemma comprehension_plain_text (items : list json) (parts : list string) :
  Forall2 (fun item part => subscript item "plain_text" = Ret (JStr part)) items parts ->
  comprehension (fun text => subscript text "plain_text") items = Ret (map JStr parts).
Proof.
  induction 1 as [ | item part items parts Hitem _ IH ]; simpl; [ reflexivity | ].
  now rewrite Hitem, IH.
Qed.

Lemma append_empty_r (s : string) : s ++ "" = s.
Proof. induction s as [ | c s IH ]; simpl; [ reflexivity | now rewrite IH ]. Qed.

Lemma join_strings (parts : list string) :
  join (map JStr parts) = Ret (String.concat "" parts).
Proof.
  induction parts as [ | s parts IH ]; simpl; [ reflexivity | ].
  rewrite IH. simpl. destruct parts; [ now rewrite append_empty_r | reflexivity ].
Qed.

(** X15: the summary of a meeting is the text of its [Summary] property:
    when the property is of type [rich_text], the [plain_text] of its pieces,
    joined in their order with nothing between them (the empty text when
    there is no piece). *)
Theorem summary_is_concatenation (E : env) (m : string)
    (data summary_property : json) (items : list json) (parts : list string)
    (w : world) :
  reply_at E (tick w) = Some data ->
  path [K "properties"; K "Summary"] data = Ret summary_property ->
  subscript summary_property "type" = Ret (JStr "rich_text") ->
  subscript summary_property "rich_text" = Ret (JArr items) ->
  Forall2 (fun item part => subscript item "plain_text" = Ret (JStr part)) items parts ->
  result (get_meeting_summary E m) w = Ret (Some (String.concat "" parts)).
Proof.
  intros Hreply Hsummary Htype Hrich Hitems.
  unfold result, get_meeting_summary. rewrite bind_http, Hreply.
  simpl in Hsummary. rewrite bind_lift.
  destruct (subscript data "properties") as [properties | e]; [ | discriminate ].
  simpl in Hsummary.
  assert (py_get properties "Summary" (JObj []) = Ret summary_property) as Hget.
  { destruct properties as [ | | | fields ]; simpl in *; try discriminate.
    destruct (assoc "Summary" fields); [ | discriminate ].
    simpl in Hsummary. exact Hsummary. }
  rewrite bind_lift, Hget.
  assert (truthy summary_property = true) as ->.
  { destruct summary_property as [ | | | [ | field fields ] ]; simpl in *;
      try discriminate. reflexivity. }
  rewrite bind_lift, Htype.
  change (is_str "rich_text" (JStr "rich_text")) with true. cbv iota.
  rewrite bind_lift, Hrich. simpl py_iter.
  rewrite bind_lift, bind_lift, (comprehension_plain_text items parts Hitems).
  now rewrite bind_lift, join_strings.
Qed.

(** X15, witness: a summary in two pieces. *)
Lemma summary_is_concatenation_witness :
  result (get_meeting_summary
            (mkEnv (fun _ => Some (JObj [("properties",
                      JObj [("Summary",
                        JObj [("type", JStr "rich_text");
                              ("rich_text",
                               JArr [JObj [("plain_text", JStr "Plan agreed. ")];
                                     JObj [("plain_text", JStr "Next: tests.")]])])])]))
               (fun _ => "2025-01-01T00:00:00") (fun _ => ""))
            "m1") initial_world
  = Ret (Some (String.concat "" ["Plan agreed. "; "Next: tests."])).
Proof.
  apply (summary_is_concatenation _ "m1"
           (JObj [("properties",
              JObj [("Summary",
                JObj [("type", JStr "rich_text");
                      ("rich_text",
                       JArr [JObj [("plain_text", JStr "Plan agreed. ")];
                             JObj [("plain_text", JStr "Next: tests.")]])])])])
           (JObj [("type", JStr "rich_text");
                  ("rich_text",
                   JArr [JObj [("plain_text", JStr "Plan agreed. ")];
                         JObj [("plain_text", JStr "Next: tests.")]])])
           [JObj [("plain_text", JStr "Plan agreed. ")];
            JObj [("plain_text", JStr "Next: tests.")]]
           ["Plan agreed. "; "Next: tests."] initial_world).
  - reflexivity.
  - reflexivity.
  - reflexivity.
  - reflexivity.
  - repeat constructor.
Defined.

(** X16: a page without a [Summary] property, or with an empty one, has no
    summary: [get_meeting_summary] returns [None] and does not raise for
    the [type] it does not find. *)
Theorem summary_absent (E : env) (m : string) (data : json)
    (fields : list (string * json)) (w : world) :
  reply_at E (tick w) = Some data ->
  subscript data "properties" = Ret (JObj fields) ->
  assoc "Summary" fields = None \/ assoc "Summary" fields = Some (JObj []) ->
  result (get_meeting_summary E m) w = Ret None.
Proof.
  intros Hreply Hproperties Hsummary.
  unfold result, get_meeting_summary.
  rewrite bind_http, Hreply, bind_lift, Hproperties, bind_lift.
  simpl py_get. now destruct Hsummary as [-> | ->].
Qed.

(** X16, witness: the page of the samples has no summary. *)
Lemma summary_absent_witness :
  result (get_meeting_summary sample_env "m1") initial_world = Ret None.
Proof.
  apply (summary_absent sample_env "m1" sample_reply
           [("Name", JObj [("title", JArr [JObj [("text", JObj [("content", JStr "Anna")])]])]);
            ("Mentor(s)", JObj [("relation", JArr [JObj [("id", JStr "mentor-1")]])])]
           initial_world).
  - reflexivity.
  - reflexivity.
  - now left.
Defined.

(** ** One feedback record for a questionnaire *)

(** The questionnaire a feedback record is about. *)
Definition record_key (fb : feedback_data) : string * string :=
  (fb_tg_chat_id fb, fb_meeting fb).

(** The feedback records sent so far. *)
Definition sent (w : world) : list feedback_data := feedback_records (log w).

(** No questionnaire has two records, and every record is about a completed
    questionnaire. *)
Definition records_settled (w : world) : Prop :=
  primary_key (questionnaires w)
  /\ NoDup (map record_key (sent w))
  /\ forall fb, In fb (sent w) ->
       status_at (fb_tg_chat_id fb) (fb_meeting fb) w = Some completed.

Definition preserves {A} (c : M A) : Prop :=
  forall w, records_settled w -> records_settled (after c w).

Lemma preserves_bind {A B} (c : M A) (k : A -> M B) :
  preserves c -> (forall a, preserves (k a)) -> preserves (bind c k).
Proof.
  intros Hc Hk w Hw. rewrite after_bind. destruct (result c w) as [a | e].
  - apply Hk, Hc, Hw.
  - apply Hc, Hw.
Qed.

Lemma preserves_for_each {A} (f : A -> M unit) (l : list A) :
  (forall x, preserves (f x)) -> preserves (for_each f l).
Proof.
  intros Hf. induction l as [ | x l IH ]; simpl.
  - now intros w Hw.
  - apply preserves_bind; auto.
Qed.

Lemma preserves_try_except (c : M unit) : preserves c -> preserves (try_except c).
Proof.
  intros Hc w Hw. specialize (Hc w Hw). unfold after, try_except in *.
  destruct (c w) as [[[] | e] w1]; simpl in *; [ exact Hc | ].
  destruct Hc as [Hpk [Hnd Hdone]]. unfold records_settled, sent, status_at in *.
  simpl. rewrite feedback_records_app. simpl. rewrite app_nil_r. auto.
Qed.

(** The records stay settled over changes that send at most records about
    questionnaires that are completed by then and had no record. *)
Lemma settled_step (w w' : world) (more : list feedback_data) :
  records_settled w ->
  changes change w w' ->
  sent w' = (sent w ++ more)%list ->
  NoDup (map record_key more) ->
  (forall fb, In fb more ->
     status_at (fb_tg_chat_id fb) (fb_meeting fb) w' = Some completed
     /\ ~ In (record_key fb) (map record_key (sent w))) ->
  records_settled w'.
Proof.
  intros [Hpk [Hnd Hdone]] Hchanges Hsent Hmore Hnew.
  split; [ now apply (changes_primary_key w w') | ]. split.
  - rewrite Hsent, map_app. apply NoDup_app; auto.
    intros k Hk Hk'. apply in_map_iff in Hk'. destruct Hk' as [fb [<- Hfb]].
    now apply (Hnew fb Hfb).
  - intros fb Hfb. rewrite Hsent in Hfb. apply in_app_or in Hfb.
    destruct Hfb as [Hfb | Hfb]; [ | now apply Hnew ].
    destruct (changes_status w w' _ _ completed Hchanges Hpk (Hdone fb Hfb))
      as [s' [Hs' Hrank]].
    rewrite Hs'. destruct s'; simpl in Hrank; try lia. reflexivity.
Qed.

(** Code that sends no record and changes the tables as the bot does. *)
Lemma preserves_quiet {A} (c : M A) :
  emits no_record c -> evolves change c -> preserves c.
Proof.
  intros He Hc w Hw. destruct (He w) as [new [Hlog Hnew]].
  apply (settled_step w (after c w) []); auto.
  - unfold sent. rewrite Hlog, feedback_records_app, (feedback_records_none _ Hnew).
    reflexivity.
  - constructor.
  - intros fb [].
Qed.

Lemma preserves_keeps {A} (c : M A) :
  emits no_record c -> keeps_tables c -> preserves c.
Proof.
  intros He Hk. apply preserves_quiet; [ exact He | ].
  apply evolves_keeps; [ apply change_allows_same | exact Hk ].
Qed.

(** The record of the closing answer is about the questionnaire that
    answer closes. *)
Lemma process_answer_closing_record (E : env) (chat : string) (q points : Z)
    (m : json) (w : world) (r : questionnaire) :
  find (has_status chat in_progress) (questionnaires w) = Some r ->
  5 < current_question r + 1 ->
  runs (process_answer E chat q points m) w (fun new _ _ =>
    feedback_records new = []
    \/ exists fb, feedback_records new = [fb] /\ record_key fb = (chat, meeting_id r)).
Proof.
  intros Hfind Hgt.
  unfold process_answer. apply runs_bind. apply runs_silent; [ reflexivity | ].
  simpl. change (after rows w) with w. rewrite Hfind.
  destruct (current_question r + 1 <=? 5) eqn:H; [ apply Z.leb_le in H; lia | ].
  apply runs_bind. unfold sql_integer.
  destruct (int64 (current_question r + 1));
    (apply runs_silent; [ reflexivity | ]); simpl; [ | now left ].
  apply runs_bind, runs_silent; [ reflexivity | ]. simpl.
  apply runs_bind, runs_record. simpl.
  apply runs_bind.
  eapply runs_weaken;
    [ apply (runs_emits_keeps no_record);
      [ apply emits_get_meeting_summary | apply keeps_get_meeting_summary ] | ].
  simpl. intros new1 [summary | e] w1 [Hq1 _];
    [ | rewrite (feedback_records_none _ Hq1); now left ].
  apply runs_bind.
  eapply runs_weaken;
    [ apply (runs_emits_keeps no_record);
      [ unfold edit_telegram_message; emits | apply keeps_edit_telegram_message ] | ].
  simpl. intros new2 [? | e] w2 [Hq2 _];
    [ | rewrite !feedback_records_app, (feedback_records_none _ Hq1),
          (feedback_records_none _ Hq2); now left ].
  apply runs_weaken with (post := fun new0 _ _ =>
    feedback_records new0 = []
    \/ exists fb, feedback_records new0 = [fb] /\ record_key fb = (chat, meeting_id r));
    [ | intros new0 o _;
        now rewrite !feedback_records_app, (feedback_records_none _ Hq1),
          (feedback_records_none _ Hq2) ].
  apply runs_bind. unfold save_feedback_to_notion.
  apply runs_bind, runs_silent; [ reflexivity | ]. simpl.
  change (after rows w2) with w2.
  destruct (find (has_key chat (meeting_id r)) (questionnaires w2)) as [x | ].
  - apply runs_bind, runs_silent; [ reflexivity | ]. simpl.
    apply runs_bind, runs_http. simpl.
    destruct (result (http E _) _) as [reply | e]; simpl.
    + apply runs_silent; [ reflexivity | ]. simpl.
      eapply runs_weaken;
        [ apply (runs_emits_keeps no_record);
          [ unfold mark_notion_meeting_completed; emits
          | apply keeps_mark_notion_meeting_completed ] | ].
      simpl. intros new3 o w3 [Hq3 _]. rewrite (feedback_records_none _ Hq3).
      right. eexists. split; reflexivity.
    + right. eexists. split; reflexivity.
  - apply runs_silent; [ reflexivity | ]. simpl.
    eapply runs_weaken;
      [ apply (runs_emits_keeps no_record);
        [ unfold mark_notion_meeting_completed; emits
        | apply keeps_mark_notion_meeting_completed ] | ].
    simpl. intros new3 o w3 [Hq3 _]. rewrite (feedback_records_none _ Hq3).
    now left.
Qed.

Lemma preserves_process_answer (E : env) (chat : string) (q points : Z) (m : json) :
  preserves (process_answer E chat q points m).
Proof.
  intros w Hw.
  destruct (find (has_status chat in_progress) (questionnaires w)) as [r | ] eqn:Hfind;
    [ | unfold after; now rewrite process_answer_idle ].
  destruct (int64 (current_question r + 1)) eqn:Hfits;
    [ | unfold after;
        now rewrite (process_answer_overflow E chat q points m w r Hfind Hfits) ].
  pose proof (evolves_process_answer E chat q points m w) as Hchanges.
  destruct (Z.leb_spec (current_question r + 1) 5) as [Hle | Hgt].
  - destruct (process_answer_quiet E chat q points m w r Hfind Hle) as [new [Hlog Hnew]].
    apply (settled_step w _ []); auto.
    + unfold sent. rewrite Hlog, feedback_records_app, (feedback_records_none _ Hnew).
      reflexivity.
    + constructor.
    + intros fb [].
  - destruct (process_answer_closing_record E chat q points m w r Hfind Hgt)
      as [new [Hlog Hrecords]].
    destruct Hrecords as [Hnone | [fb [Hone Hkey]]].
    + apply (settled_step w _ []); auto.
      * unfold sent. now rewrite Hlog, feedback_records_app, Hnone.
      * constructor.
      * intros fb [].
    + apply (settled_step w _ [fb]); auto.
      * unfold sent. now rewrite Hlog, feedback_records_app, Hone.
      * repeat constructor. simpl. tauto.
      * intros fb' [<- | []]. unfold record_key in Hkey. injection Hkey as Hc Hm.
        rewrite Hc, Hm.
        destruct Hw as [Hpk [_ Hdone]].
        destruct (find_some _ _ Hfind) as [Hin Hst]. apply has_status_chat in Hst.
        destruct Hst as [Hchat Hstatus].
        assert (find (has_key chat (meeting_id r)) (questionnaires w) = Some r) as Hr.
        { destruct (find (has_key chat (meeting_id r)) (questionnaires w)) as [x | ] eqn:Hx.
          - destruct (find_some _ _ Hx) as [Hxin Hk]. f_equal.
            apply (primary_key_unique (questionnaires w)); auto.
            apply has_key_key in Hk. rewrite Hk. unfold key. now rewrite Hchat.
          - apply (find_none _ _ Hx) in Hin. rewrite <- Hchat, has_key_self in Hin.
            discriminate. }
        split.
        -- destruct (process_answer_tables E chat q points m w r Hfind Hfits)
             as [Hrows _].
           unfold status_at. rewrite Hrows, find_key_update_where by auto with keeps.
           rewrite Hr. simpl. rewrite <- Hchat at 1. rewrite has_key_self.
           unfold write_answer.
           destruct (current_question r + 1 <=? 5) eqn:H;
             [ apply Z.leb_le in H; lia | reflexivity ].
        -- intros Hsent. apply in_map_iff in Hsent. destruct Hsent as [old [Hk Hold]].
           specialize (Hdone old Hold). unfold record_key in Hk.
           injection Hk as Hc' Hm'. rewrite Hc', Hm', Hc, Hm in Hdone.
           unfold status_at in Hdone. rewrite Hr in Hdone. simpl in Hdone. congruence.
Qed.

Lemma preserves_start_questionnaire (E : env) (chat name : string) (m : json) :
  preserves (start_questionnaire E chat name m).
Proof.
  apply preserves_quiet;
    [ apply emits_start_questionnaire | apply evolves_start_questionnaire ].
Qed.

Ltac preserves_step :=
  repeat first
    [ apply preserves_start_questionnaire
    | apply preserves_process_answer
    | apply preserves_keeps; [ solve [ emits ] | solve [ keeps ] ]
    | apply preserves_bind; [ | intros ? ]
    | match goal with
      | |- preserves (if ?b then _ else _) => destruct b
      | |- preserves (match ?x with _ => _ end) => destruct x
      end ].

Lemma preserves_handle_callback_query (E : env) (callback_query : json) :
  preserves (handle_callback_query E callback_query).
Proof. unfold handle_callback_query, item, int. preserves_step. Qed.

Lemma preserves_handle_update (E : env) (update : json) :
  preserves (handle_update E update).
Proof.
  unfold handle_update, send_telegram_message.
  repeat first
    [ apply preserves_handle_callback_query
    | apply preserves_keeps; [ solve [ emits ] | solve [ keeps ] ]
    | apply preserves_bind; [ | intros ? ]
    | match goal with
      | |- preserves (if ?b then _ else _) => destruct b
      | |- preserves (match ?x with _ => _ end) => destruct x
      end ].
Qed.

Lemma preserves_run_telegram_polling (E : env) : preserves (run_telegram_polling E).
Proof.
  unfold run_telegram_polling, get_telegram_updates.
  apply preserves_try_except.
  apply preserves_bind;
    [ apply preserves_keeps; [ apply emits_nothing | ]; now intros w | ].
  intros n. apply preserves_bind; [ apply preserves_keeps; [ emits | keeps ] | ].
  intros updates. apply preserves_bind; [ apply preserves_keeps; [ emits | keeps ] | ].
  intros l. apply preserves_for_each. apply preserves_handle_update.
Qed.

Lemma emits_for_each {A} (P : event -> Prop) (f : A -> M unit) (l : list A) :
  (forall x, emits P (f x)) -> emits P (for_each f l).
Proof.
  intros Hf. induction l as [ | x l IH ]; simpl; [ apply emits_ret | ].
  apply emits_bind; auto.
Qed.

Lemma emits_try_except (P : event -> Prop) (c : M unit) :
  (forall e, P (Caught e)) -> emits P c -> emits P (try_except c).
Proof.
  intros HP Hc w. destruct (Hc w) as [new [Hlog Hnew]].
  unfold after, try_except in *. destruct (c w) as [[[] | e] w1]; simpl in *.
  - now exists new.
  - exists (new ++ [Caught e])%list. rewrite Hlog, app_assoc. split; [ reflexivity | ].
    apply Forall_app. split; [ exact Hnew | ]. constructor; [ apply HP | constructor ].
Qed.

Lemma emits_process_meeting (E : env) (meeting : json) :
  emits no_record (process_meeting E meeting).
Proof.
  unfold process_meeting, get_notion_page_name, is_meeting_processed, save_questionnaire,
    send_initial_message, send_telegram_message, update_last_message_id,
    mark_meeting_processed.
  emits.
Qed.

Lemma emits_remind (E : env) (r : questionnaire) : emits no_record (remind E r).
Proof.
  unfold remind, delete_telegram_message, get_mentor_name_from_notion,
    get_notion_page_name, send_initial_message, send_telegram_message,
    update_last_message_id.
  emits.
Qed.

Lemma preserves_perform (E : env) (op : operation) : preserves (perform E op).
Proof.
  destruct op; simpl.
  - apply preserves_quiet; [ apply emits_process_meeting | ].
    intros w. apply (changes_weaken housekeeping change); [ now left | ].
    apply evolves_process_meeting.
  - apply preserves_start_questionnaire.
  - apply preserves_process_answer.
  - apply preserves_handle_callback_query.
  - apply preserves_quiet.
    + unfold run_notion_checker, fetch_notion_meetings.
      apply emits_try_except; [ now intros e | ].
      apply emits_bind; [ emits | intros meetings ].
      apply emits_bind; [ emits | intros _ ].
      apply emits_bind; [ emits | intros l ].
      apply emits_for_each. apply emits_process_meeting.
    + intros w. apply (changes_weaken housekeeping change); [ now left | ].
      apply evolves_run_notion_checker.
  - apply preserves_quiet.
    + unfold run_reminder_checker.
      apply emits_try_except; [ now intros e | ].
      apply emits_bind; [ emits | intros rs ].
      apply emits_for_each. apply emits_remind.
    + intros w. apply (changes_weaken housekeeping change); [ now left | ].
      apply evolves_run_reminder_checker.
  - apply preserves_run_telegram_polling.
Qed.

(** X17: the bot sends at most one feedback record for a questionnaire,
    and only for a questionnaire it has completed.  Whatever it is made to do
    and whatever its collaborators answer, no (chat, meeting) has two records
    among those sent, and each record sent is about a row that is completed. *)
Theorem one_record_per_questionnaire (E : env) (ops : list operation) (w : world) :
  primary_key (questionnaires w) ->
  NoDup (map record_key (sent w)) ->
  (forall fb, In fb (sent w) ->
     status_at (fb_tg_chat_id fb) (fb_meeting fb) w = Some completed) ->
  NoDup (map record_key (sent (run E ops w)))
  /\ forall fb, In fb (sent (run E ops w)) ->
       status_at (fb_tg_chat_id fb) (fb_meeting fb) (run E ops w) = Some completed.
Proof.
  intros Hpk Hnd Hdone.
  assert (records_settled (run E ops w)) as [_ H]; [ | exact H ].
  assert (records_settled w) as Hw by (repeat split; assumption).
  clear Hpk Hnd Hdone. revert w Hw.
  induction ops as [ | op ops IH ]; intros w Hw; simpl; [ exact Hw | ].
  apply IH. now apply preserves_perform.
Qed.

(** X17, witness: the closing answer is pressed twice. *)
Lemma one_record_per_questionnaire_witness :
  NoDup (map record_key
           (sent (run sample_env
                    [Answer "123" 5 1 (JNum 7); Answer "123" 5 1 (JNum 7)]
                    (mkWorld [sample_row in_progress 5
                                [("1", 5); ("2", 4); ("3", 3); ("4", 2)]]
                       ["m1"] 0 0 [])))).
Proof.
  apply (one_record_per_questionnaire sample_env
           [Answer "123" 5 1 (JNum 7); Answer "123" 5 1 (JNum 7)]
           (mkWorld [sample_row in_progress 5
                       [("1", 5); ("2", 4); ("3", 3); ("4", 2)]]
              ["m1"] 0 0 [])).
  - simpl. repeat constructor. simpl. tauto.
  - simpl. constructor.
  - simpl. intros fb [].
Defined.

(** ** A batch of updates that fails *)

(** X18: when the handling of an update raises, the cycle of the polling
    loop ends there: the updates listed after it are not handled in this
    cycle, the exception is caught, and the offset is the id of the failed
    update plus one, so that the next cycle asks for the updates after the
    failed one and the failed one is not handled again. *)
Theorem failed_update_ends_batch (E : env) (data : json) (before rest : list json)
    (u : json) (n : Z) (e : exn) (w w1 w2 : world) :
  reply_at E (tick w) = Some data ->
  py_get data "result" (JArr []) = Ret (JArr (before ++ u :: rest)) ->
  for_each (handle_update E) before (answered E w (GetUpdates (offset w)))
  = (Ret tt, w1) ->
  handle_update E u w1 = (Raise e, w2) ->
  subscript u "update_id" = Ret (JNum n) ->
  run_telegram_polling E w = (Ret tt, logged w2 (Caught e))
  /\ offset (after (run_telegram_polling E) w) = n + 1.
Proof.
  intros Hreply Hresult Hbefore Hfails Hid.
  assert (run_telegram_polling E w = (Ret tt, logged w2 (Caught e))) as Hrun.
  { unfold run_telegram_polling, try_except, get_telegram_updates.
    unfold bind at 1. rewrite bind_bind, bind_http, Hreply.
    rewrite bind_lift, Hresult. cbv iota. rewrite bind_lift. simpl py_iter. cbv iota.
    now rewrite (for_each_raise (handle_update E) before rest u e _ w1 w2 Hbefore Hfails). }
  split; [ exact Hrun | ].
  unfold after. rewrite Hrun. simpl.
  pose proof (handle_update_offset E u n w1 Hid) as Hoffset.
  unfold after in Hoffset. now rewrite Hfails in Hoffset.
Qed.

(** The first call is answered by a batch of two updates: a button press
    whose payload is too short, and a press of the start button. *)
Definition two_updates : env :=
  mkEnv (fun t => match t with
                  | O => Some (JObj [("result",
                           JArr [JObj [("update_id", JNum 41);
                                       ("callback_query", callback "answer,123" 7)];
                                 JObj [("update_id", JNum 42);
                                       ("callback_query",
                                        callback "start,123,Sprint Review" 7)]])])
                  | _ => Some sample_reply
                  end)
    (fun _ => "2025-01-01T00:00:00") (fun _ => "").

(** X18, witness: the first update raises, the second is left for the next
    cycle and the pending row is not started. *)
Lemma failed_update_ends_batch_witness :
  run_telegram_polling two_updates (sample_world [sample_row pending 0 []])
  = (Ret tt,
     logged (mkWorld [sample_row pending 0 []] ["m1"] 42 1
               [Called (GetUpdates 0) (reply_at two_updates 0)])
       (Caught IndexError))
  /\ offset (after (run_telegram_polling two_updates)
               (sample_world [sample_row pending 0 []])) = 41 + 1.
Proof.
  apply (failed_update_ends_batch two_updates
           (JObj [("result",
              JArr [JObj [("update_id", JNum 41);
                          ("callback_query", callback "answer,123" 7)];
                    JObj [("update_id", JNum 42);
                          ("callback_query", callback "start,123,Sprint Review" 7)]])])
           []
           [JObj [("update_id", JNum 42);
                  ("callback_query", callback "start,123,Sprint Review" 7)]]
           (JObj [("update_id", JNum 41); ("callback_query", callback "answer,123" 7)])
           41 IndexError (sample_world [sample_row pending 0 []])
           (answered two_updates (sample_world [sample_row pending 0 []])
              (GetUpdates 0))).
  - reflexivity.
  - reflexivity.
  - reflexivity.
  - reflexivity.
  - reflexivity.
Defined.

(** ** The text of a question *)

(** X19: [get_question_text] takes the numbers from -4 to 5 and raises
    IndexError for every other: 1 to 5 are the five questions in their order,
    and 0, -1, ..., -4 count back from the last, so that question 0 has the
    text of question 5. *)
Theorem question_text_bounds (n : Z) :
  get_question_text n
  = if (-4 <=? n) && (n <=? 5)
    then Ret (nth (Z.to_nat ((n - 1) mod 5)) questions "")
    else Raise IndexError.
Proof.
  destruct ((-4 <=? n) && (n <=? 5)) eqn:Hn.
  - apply andb_prop in Hn. destruct Hn as [Hlo Hhi].
    apply Z.leb_le in Hlo. apply Z.leb_le in Hhi.
    assert (n = -4 \/ n = -3 \/ n = -2 \/ n = -1 \/ n = 0
            \/ n = 1 \/ n = 2 \/ n = 3 \/ n = 4 \/ n = 5) as Hcases by lia.
    repeat (destruct Hcases as [-> | Hcases]; [ reflexivity | ]).
    subst n. reflexivity.
  - unfold get_question_text. apply andb_false_iff in Hn.
    change (Z.of_nat (List.length questions)) with 5. cbv zeta.
    destruct (n - 1 <? 0) eqn:Hneg.
    + apply Z.ltb_lt in Hneg.
      destruct Hn as [Hn | Hn]; [ apply Z.leb_gt in Hn | apply Z.leb_gt in Hn; lia ].
      assert ((0 <=? n - 1 + 5) = false) as -> by (apply Z.leb_gt; lia). reflexivity.
    + apply Z.ltb_ge in Hneg.
      destruct Hn as [Hn | Hn]; [ apply Z.leb_gt in Hn; lia | apply Z.leb_gt in Hn ].
      assert ((n - 1 <? 5) = false) as -> by (apply Z.ltb_ge; lia).
      now rewrite andb_false_r.
Qed.

(** ** A start that is pressed again *)

(** X20: a questionnaire is started once.  When a start has been handled,
    whether it returned or the edit of the prompt raised, the row is in
    progress at question 1; and when the chat had no other pending
    questionnaire, every later start from that chat returns without a write
    or a call: a start whose first question could not be shown is not shown
    by pressing the button again. *)
Theorem start_is_not_repeated (E : env) (chat name : string) (m : json)
    (w : world) (r : questionnaire) :
  primary_key (questionnaires w) ->
  find (has_status chat pending) (questionnaires w) = Some r ->
  (forall x, In x (questionnaires w) -> has_status chat pending x = true -> x = r) ->
  let w1 := after (start_questionnaire E chat name m) w in
  find (has_key chat (meeting_id r)) (questionnaires w1)
  = Some (set_status in_progress 1 r)
  /\ forall name' m', start_questionnaire E chat name' m' w1 = (Ret tt, w1).
Proof.
  intros Hpk Hfind Honly w1.
  destruct (start_questionnaire_tables E chat name m w r Hfind) as [Hrows _].
  fold w1 in Hrows.
  destruct (find_some _ _ Hfind) as [Hin Hst]. apply has_status_chat in Hst.
  destruct Hst as [Hchat Hstatus].
  assert (find (has_key chat (meeting_id r)) (questionnaires w) = Some r) as Hr.
  { destruct (find (has_key chat (meeting_id r)) (questionnaires w)) as [x | ] eqn:Hx.
    - destruct (find_some _ _ Hx) as [Hxin Hk]. f_equal.
      apply (primary_key_unique (questionnaires w)); auto.
      apply has_key_key in Hk. rewrite Hk. unfold key. now rewrite Hchat.
    - apply (find_none _ _ Hx) in Hin. rewrite <- Hchat, has_key_self in Hin.
      discriminate. }
  split.
  - rewrite Hrows, find_key_update_where by auto with keeps.
    rewrite Hr. simpl. rewrite <- Hchat at 1. now rewrite has_key_self.
  - intros name' m'. apply start_questionnaire_idle. rewrite Hrows.
    apply find_none_all. intros y Hy. unfold update_where in Hy.
    apply in_map_iff in Hy. destruct Hy as [x [<- Hx]].
    destruct (has_key chat (meeting_id r) x) eqn:Hk.
    + unfold has_status. simpl. now rewrite andb_false_r.
    + destruct (has_status chat pending x) eqn:Hs; [ | reflexivity ].
      rewrite (Honly x Hx Hs), <- Hchat, has_key_self in Hk. discriminate.
Qed.

(** X20, witness: no call is answered, the row is started all the same. *)
Lemma start_is_not_repeated_witness :
  find (has_key "123" "m1")
    (questionnaires
       (after (start_questionnaire nothing_answers "123" "Sprint Review" (JNum 7))
          (sample_world [sample_row pending 0 []])))
  = Some (sample_row in_progress 1 [])
  /\ forall name' m',
       start_questionnaire nothing_answers "123" name' m'
         (after (start_questionnaire nothing_answers "123" "Sprint Review" (JNum 7))
            (sample_world [sample_row pending 0 []]))
       = (Ret tt,
          after (start_questionnaire nothing_answers "123" "Sprint Review" (JNum 7))
            (sample_world [sample_row pending 0 []])).
Proof.
  apply (start_is_not_repeated nothing_answers "123" "Sprint Review" (JNum 7)
           (sample_world [sample_row pending 0 []]) (sample_row pending 0 [])).
  - simpl. repeat constructor. simpl. tauto.
  - reflexivity.
  - simpl. intros x [<- | []] _. reflexivity.
Defined.

(** ** The flag of a meeting in Notion *)

(** The meetings whose flag the bot asked Notion to set. *)
Definition flagged (l : list event) : list string :=
  flat_map (fun e => match e with
                     | Called (PatchPage m) _ => [m]
                     | _ => []
                     end) l.

(** The meetings for which Notion accepted a feedback record. *)
Definition delivered (l : list event) : list string :=
  flat_map (fun e => match e with
                     | Called (CreatePage fb) (Some _) => [fb_meeting fb]
                     | _ => []
                     end) l.

Definition no_flag (e : event) : Prop :=
  match e with
  | Called (PatchPage _) _ => False
  | _ => True
  end.

(** Every meeting that is flagged has its record. *)
Definition flags_follow (l : list event) : Prop := incl (flagged l) (delivered l).

Lemma flagged_app (l1 l2 : list event) :
  flagged (l1 ++ l2) = (flagged l1 ++ flagged l2)%list.
Proof. apply flat_map_app. Qed.

Lemma delivered_app (l1 l2 : list event) :
  delivered (l1 ++ l2) = (delivered l1 ++ delivered l2)%list.
Proof. apply flat_map_app. Qed.

Lemma flagged_none (l : list event) : Forall no_flag l -> flagged l = [].
Proof.
  induction 1 as [ | e l He _ IH ]; [ reflexivity | ].
  simpl. rewrite IH. destruct e as [[ ] | | ]; simpl in *; tauto.
Qed.

Lemma flags_follow_app (l1 l2 : list event) :
  flags_follow l1 -> flags_follow l2 -> flags_follow (l1 ++ l2).
Proof.
  unfold flags_follow. intros H1 H2. rewrite flagged_app, delivered_app.
  apply incl_app; [ now apply incl_appl | now apply incl_appr ].
Qed.

Lemma flags_follow_quiet (l : list event) : Forall no_flag l -> flags_follow l.
Proof. intros H. unfold flags_follow. rewrite (flagged_none l H). intros m []. Qed.

Lemma flags_follow_after (l1 l2 : list event) :
  Forall no_flag l1 -> flags_follow l2 -> flags_follow (l1 ++ l2).
Proof. intros H1 H2. apply flags_follow_app; [ now apply flags_follow_quiet | exact H2 ]. Qed.

(** Code that sets a flag only after the record of the meeting. *)
Definition orderly {A} (c : M A) : Prop :=
  forall w, exists new, log (after c w) = (log w ++ new)%list /\ flags_follow new.

Lemma orderly_emits {A} (c : M A) : emits no_flag c -> orderly c.
Proof.
  intros Hc w. destruct (Hc w) as [new [Hlog Hnew]]. exists new.
  split; [ exact Hlog | now apply flags_follow_quiet ].
Qed.

Lemma orderly_bind {A B} (c : M A) (k : A -> M B) :
  orderly c -> (forall a, orderly (k a)) -> orderly (bind c k).
Proof.
  intros Hc Hk w. rewrite after_bind.
  destruct (Hc w) as [new1 [H1 HP1]].
  destruct (result c w) as [a | e].
  - destruct (Hk a (after c w)) as [new2 [H2 HP2]].
    exists (new1 ++ new2)%list. rewrite H2, H1, app_assoc.
    split; [ reflexivity | now apply flags_follow_app ].
  - now exists new1.
Qed.

Lemma orderly_for_each {A} (f : A -> M unit) (l : list A) :
  (forall x, orderly (f x)) -> orderly (for_each f l).
Proof.
  intros Hf. induction l as [ | x l IH ]; simpl.
  - apply orderly_emits, emits_ret.
  - apply orderly_bind; auto.
Qed.

Lemma orderly_try_except (c : M unit) : orderly c -> orderly (try_except c).
Proof.
  intros Hc w. destruct (Hc w) as [new [Hlog Hnew]].
  unfold after, try_except in *. destruct (c w) as [[[] | e] w1]; simpl in *.
  - now exists new.
  - exists (new ++ [Caught e])%list. rewrite Hlog, app_assoc. split; [ reflexivity | ].
    apply flags_follow_app; [ exact Hnew | ]. intros m [].
Qed.

Lemma http_returned (E : env) (c : call) (w : world) (j : json) :
  result (http E c) w = Ret j -> reply_at E (tick w) = Some j.
Proof.
  unfold result, http. destruct (reply_at E (tick w)); simpl; congruence.
Qed.

(** The closing answer sets the flag after Notion has accepted the record. *)
Lemma orderly_process_answer (E : env) (chat : string) (q points : Z) (m : json) :
  orderly (process_answer E chat q points m).
Proof.
  intros w.
  destruct (find (has_status chat in_progress) (questionnaires w)) as [r | ] eqn:Hfind;
    [ | exists []; unfold after; rewrite process_answer_idle by assumption;
        rewrite app_nil_r; split; [ reflexivity | intros x [] ] ].
  destruct (find_some _ _ Hfind) as [Hin Hst]. apply has_status_chat in Hst.
  destruct Hst as [Hchat _].
  change (runs (process_answer E chat q points m) w (fun new _ _ => flags_follow new)).
  unfold process_answer. apply runs_bind. apply runs_silent; [ reflexivity | ].
  simpl. change (after rows w) with w. rewrite Hfind.
  destruct (current_question r + 1 <=? 5) eqn:Hnext.
  - match goal with
    | |- runs ?c w _ => assert (emits no_flag c) as Hc
    end.
    { unfold edit_telegram_message. emits. }
    destruct (Hc w) as [new [Hlog Hnew]]. exists new.
    split; [ exact Hlog | now apply flags_follow_quiet ].
  - apply runs_bind. unfold sql_integer.
    destruct (int64 (current_question r + 1));
      (apply runs_silent; [ reflexivity | ]); simpl; [ | intros x [] ].
    apply runs_bind, runs_silent; [ reflexivity | ]. simpl.
    apply runs_bind, runs_record. simpl.
    set (rs' := update_where chat (meeting_id r) _ _).
    apply runs_bind.
    eapply runs_weaken;
      [ apply (runs_emits_keeps no_flag);
        [ unfold get_meeting_summary; emits | apply keeps_get_meeting_summary ] | ].
    simpl. intros new1 [summary | e] w1 [Hq1 [Hrows1 _]];
      [ | apply flags_follow_quiet; now constructor ].
    apply runs_bind.
    eapply runs_weaken;
      [ apply (runs_emits_keeps no_flag);
        [ unfold edit_telegram_message; emits | apply keeps_edit_telegram_message ] | ].
    simpl. intros new2 [? | e] w2 [Hq2 [Hrows2 _]];
      [ | apply flags_follow_quiet; constructor; [ exact I | now apply Forall_app ] ].
    rewrite Hrows1 in Hrows2. simpl in Hrows2.
    assert (exists x, find (has_key chat (meeting_id r)) (questionnaires w2) = Some x)
      as [x Hx].
    { rewrite Hrows2. unfold rs'. rewrite find_update_where by auto with keeps.
      destruct (find (has_key chat (meeting_id r)) (questionnaires w)) as [x | ] eqn:Hx;
        [ simpl; eauto | ].
      apply (find_none _ _ Hx) in Hin. rewrite <- Hchat, has_key_self in Hin.
      discriminate. }
    apply runs_weaken with (post := fun new0 _ _ => flags_follow new0);
      [ | intros new0 o _ H0;
          apply (flags_follow_after [_]); [ now repeat constructor | ];
          apply flags_follow_after; [ exact Hq1 | ];
          apply flags_follow_after; [ exact Hq2 | exact H0 ] ].
    apply runs_bind. unfold save_feedback_to_notion.
    apply runs_bind, runs_silent; [ reflexivity | ]. simpl.
    change (after rows w2) with w2. rewrite Hx.
    apply runs_bind, runs_silent; [ reflexivity | ]. simpl.
    apply runs_bind, runs_http. simpl.
    match goal with
    | |- match result (http E ?c) ?w3 with _ => _ end =>
        destruct (result (http E c) w3) as [reply | e] eqn:Hcreate;
          [ apply http_returned in Hcreate; simpl in Hcreate; rewrite Hcreate | ]
    end.
    + apply runs_silent; [ reflexivity | ]. simpl.
      unfold mark_notion_meeting_completed.
      apply runs_bind, runs_http. simpl.
      match goal with
      | |- match ?o with _ => _ end =>
          destruct o; [ apply runs_silent; [ reflexivity | ] | ]
      end; simpl; intros y [<- | []]; now left.
    + intros y [].
Qed.

Lemma orderly_start_questionnaire (E : env) (chat name : string) (m : json) :
  orderly (start_questionnaire E chat name m).
Proof.
  apply orderly_emits.
  unfold start_questionnaire, update_questionnaire_status, edit_telegram_message.
  emits.
Qed.

Lemma orderly_handle_callback_query (E : env) (callback_query : json) :
  orderly (handle_callback_query E callback_query).
Proof.
  unfold handle_callback_query, item, int.
  repeat first
    [ apply orderly_process_answer
    | apply orderly_start_questionnaire
    | apply orderly_emits; solve [ emits ]
    | apply orderly_bind; [ | intros ? ]
    | match goal with
      | |- orderly (if ?b then _ else _) => destruct b
      | |- orderly (match ?x with _ => _ end) => destruct x
      end ].
Qed.

Lemma orderly_handle_update (E : env) (update : json) :
  orderly (handle_update E update).
Proof.
  unfold handle_update, send_telegram_message.
  repeat first
    [ apply orderly_handle_callback_query
    | apply orderly_emits; solve [ emits ]
    | apply orderly_bind; [ | intros ? ]
    | match goal with
      | |- orderly (if ?b then _ else _) => destruct b
      | |- orderly (match ?x with _ => _ end) => destruct x
      end ].
Qed.

Lemma orderly_perform (E : env) (op : operation) : orderly (perform E op).
Proof.
  destruct op; simpl.
  - apply orderly_emits.
    unfold process_meeting, get_notion_page_name, is_meeting_processed,
      save_questionnaire, send_initial_message, send_telegram_message,
      update_last_message_id, mark_meeting_processed.
    emits.
  - apply orderly_start_questionnaire.
  - apply orderly_process_answer.
  - apply orderly_handle_callback_query.
  - apply orderly_emits.
    unfold run_notion_checker, fetch_notion_meetings.
    apply emits_try_except; [ now intros e | ].
    apply emits_bind; [ emits | intros meetings ].
    apply emits_bind; [ emits | intros _ ].
    apply emits_bind; [ emits | intros l ].
    apply emits_for_each. intros meeting.
    unfold process_meeting, get_notion_page_name, is_meeting_processed,
      save_questionnaire, send_initial_message, send_telegram_message,
      update_last_message_id, mark_meeting_processed.
    emits.
  - apply orderly_emits.
    unfold run_reminder_checker.
    apply emits_try_except; [ now intros e | ].
    apply emits_bind; [ emits | intros rs ].
    apply emits_for_each. intros r.
    unfold remind, delete_telegram_message, get_mentor_name_from_notion,
      get_notion_page_name, send_initial_message, send_telegram_message,
      update_last_message_id.
    emits.
  - unfold run_telegram_polling, get_telegram_updates.
    apply orderly_try_except.
    apply orderly_bind;
      [ apply orderly_emits, emits_nothing; now intros w | ].
    intros n. apply orderly_bind; [ apply orderly_emits; emits | ].
    intros updates. apply orderly_bind; [ apply orderly_emits; emits | ].
    intros l. apply orderly_for_each. apply orderly_handle_update.
Qed.

(** X21: the bot asks Notion to set the flag of a meeting only after Notion
    has accepted the feedback record of that meeting.  Whatever the bot is
    made to do and whatever its collaborators answer, every meeting for which
    a PATCH was sent has a feedback record that was created and answered
    before: a failed creation is never followed by the flag. *)
Theorem flag_follows_record (E : env) (ops : list operation) (w : world) :
  incl (flagged (log w)) (delivered (log w)) ->
  incl (flagged (log (run E ops w))) (delivered (log (run E ops w))).
Proof.
  revert w. induction ops as [ | op ops IH ]; intros w Hw; simpl; [ exact Hw | ].
  apply IH. destruct (orderly_perform E op w) as [new [Hlog Hnew]].
  rewrite Hlog. now apply flags_follow_app.
Qed.

(** X21, witness: the closing answer with every call answered. *)
Lemma flag_follows_record_witness :
  incl
    (flagged (log (run sample_env [Answer "123" 5 1 (JNum 7)]
                     (sample_world [sample_row in_progress 5
                                      [("1", 5); ("2", 4); ("3", 3); ("4", 2)]]))))
    (delivered (log (run sample_env [Answer "123" 5 1 (JNum 7)]
                       (sample_world [sample_row in_progress 5
                                        [("1", 5); ("2", 4); ("3", 3); ("4", 2)]])))).
Proof.
  apply (flag_follows_record sample_env [Answer "123" 5 1 (JNum 7)]
           (sample_world [sample_row in_progress 5
                            [("1", 5); ("2", 4); ("3", 3); ("4", 2)]])).
  simpl. intros m [].
Defined.
